(** * whatsappService: session registry, coordinators and gateway

    A shallow embedding of the backend module [whatsappService.js]
    (the four process-wide maps, [initializeWhatsApp],
    [restoreWhatsAppSession], [disconnectWhatsApp], the lifecycle event
    handlers, and the gateway operations [getChats], [getChatCount],
    [getChatMessages], [sendMessage]), and of the part of [index.js] that
    keeps the users ([readUsers], [writeUsers] and its queue, the register
    and login routes, [updateUserWhatsAppStatus]) and serves the pairing
    code.

    JavaScript runs the module on one thread.  An [async] function runs
    without interruption up to its next [await]; there it suspends and
    other calls, timers and transport events may run.  The embedding
    keeps exactly that granularity: every synchronous segment of the
    source is one function on the registry state, and a suspended
    activation is a [Task] that remembers where it stopped and the
    variables its closure captured. *)

From stdpp Require Import gmap strings list pretty.
From Stdlib Require Import ZArith.

(** ** Part I.  The session registry and the coordinators *)

Module Service.

(** The strings stored in [connectionStatus]; [not_initialized] is what
    [getConnectionStatus] answers for a missing key. *)
Inductive Status : Set :=
| not_initialized | initializing | qr_ready | authenticated
| restoring | connected | disconnected | auth_failure.

#[global] Instance Status_eq_dec : EqDecision Status.
Proof. solve_decision. Defined.

(** The object literals returned by the coordinators.  [hasSession] is
    [None] where the literal has no such property. *)
Record Result := mkResult {
  success : bool;
  r_connected : bool;
  hasSession : option bool;
  message : string
}.

#[global] Instance Result_eq_dec : EqDecision Result.
Proof. solve_decision. Defined.

(** How a call (a promise) settles.  An error is identified by its message. *)
Inductive Outcome :=
| Resolved (r : Result)
| ResolvedVoid
| Rejected (e : string).

#[global] Instance Outcome_eq_dec : EqDecision Outcome.
Proof. solve_decision. Defined.

(** Which set of [client.on] callbacks a client carries: the five of
    [initializeWhatsApp] (qr, ready, authenticated, auth_failure,
    disconnected) or the four of [restoreWhatsAppSession] (no qr). *)
Inductive Handlers := InitHandlers | RestoreHandlers.

(** A constructed [Client].  The callbacks close over [userId], the
    coordinators over the object itself, so the object lives in a heap and
    the maps hold its address.  [c_info] is the truthiness of [client.info]. *)
Record Client := mkClient {
  c_user : string;
  c_handlers : Handlers;
  c_info : bool
}.

(** Lifecycle events of the transport.  The [qr] callback is itself async:
    it awaits [qrcode.toDataURL] and writes nothing before; the event is
    therefore taken at the completion of that await, carrying its result. *)
Inductive Event :=
| EvQr (dataUrl : option string)
| EvReady
| EvAuthenticated
| EvAuthFailure
| EvDisconnected.

(** Where an activation stands.  A call of a coordinator is one task; the
    async arrow function it starts and stores as [initPromise] is another.
    - [Running]: a call inside its first synchronous segment;
    - [Done o]: a call that has settled with [o];
    - [Finished]: an async body whose promise has settled;
    - [AwaitInit u p]: a call at [return await initPromise], [p] the promise;
    - [InitMkdir], [InitConnect]: the body of [initializeWhatsApp] at
      [await fs.mkdir(...)] and at [await client.initialize()];
    - [RestoreMkdir], [RestoreConnect], [RestoreSettle]: the body of
      [restoreWhatsAppSession] at [await fs.mkdir(...)], at
      [await client.initialize()] and at its 2000 ms timer;
    - [RestoreRecheck]: [restoreWhatsAppSession] at the 2000 ms timer of
      its mid-handshake branch, [c] being [existingClient];
    - [RestoreFiles]: [restoreWhatsAppSession] at [await hasSessionFiles];
    - [DiscLogout], [DiscDestroy]: [disconnectWhatsApp] at
      [await client.logout()] and at [await client.destroy()]. *)
Inductive Task :=
| Running
| Done (o : Outcome)
| Finished
| AwaitInit (u : string) (p : nat)
| InitMkdir (u : string) (p : nat)
| InitConnect (u : string) (p c : nat)
| RestoreMkdir (u : string) (p : nat)
| RestoreConnect (u : string) (p c : nat)
| RestoreSettle (u : string) (p c : nat)
| RestoreRecheck (u : string) (c : nat)
| RestoreFiles (u : string)
| DiscLogout (u : string) (c : nat)
| DiscDestroy (u : string) (c : nat).

(** [await new Promise(resolve => setTimeout(resolve, 2000))]: the
    duration of the timer a task is suspended on, in milliseconds. *)
Definition timer_ms (t : Task) : option Z :=
  match t with
  | RestoreRecheck _ _ | RestoreSettle _ _ _ => Some 2000%Z
  | _ => None
  end.

(** The block of the source that executed an [initializingClients] write. *)
Inductive Site := SiteFinally | SiteOuterCatch | SiteDisconnect | SiteDisconnectCatch.

#[global] Instance Site_eq_dec : EqDecision Site.
Proof. solve_decision. Defined.

(** Ghost record of the writes to [initializingClients].  [removed] is the
    boolean [Map.prototype.delete] returns. *)
Inductive PendingWrite :=
| PSet (u : string) (p : nat)
| PDelete (site : Site) (u : string) (removed : bool).

Record State := mkState {
  activeClients : gmap string nat;
  qrCodes : gmap string string;
  connectionStatus : gmap string Status;
  initializingClients : gmap string nat;
  clients : list Client;
  promises : list (option Outcome);
  tasks : list Task;
  pendingLog : list PendingWrite
}.

Definition initial : State :=
  mkState ∅ ∅ ∅ ∅ [] [] [] [].

(** *** Field updates *)

Definition with_active (f : gmap string nat → gmap string nat) (s : State) : State :=
  mkState (f (activeClients s)) (qrCodes s) (connectionStatus s)
          (initializingClients s) (clients s) (promises s) (tasks s) (pendingLog s).

Definition with_qr (f : gmap string string → gmap string string) (s : State) : State :=
  mkState (activeClients s) (f (qrCodes s)) (connectionStatus s)
          (initializingClients s) (clients s) (promises s) (tasks s) (pendingLog s).

Definition with_status (f : gmap string Status → gmap string Status) (s : State) : State :=
  mkState (activeClients s) (qrCodes s) (f (connectionStatus s))
          (initializingClients s) (clients s) (promises s) (tasks s) (pendingLog s).

Definition with_clients (f : list Client → list Client) (s : State) : State :=
  mkState (activeClients s) (qrCodes s) (connectionStatus s)
          (initializingClients s) (f (clients s)) (promises s) (tasks s) (pendingLog s).

Definition with_promises (f : list (option Outcome) → list (option Outcome)) (s : State) : State :=
  mkState (activeClients s) (qrCodes s) (connectionStatus s)
          (initializingClients s) (clients s) (f (promises s)) (tasks s) (pendingLog s).

Definition with_tasks (f : list Task → list Task) (s : State) : State :=
  mkState (activeClients s) (qrCodes s) (connectionStatus s)
          (initializingClients s) (clients s) (promises s) (f (tasks s)) (pendingLog s).

(** [initializingClients.set(u, p)] *)
Definition pending_set (u : string) (p : nat) (s : State) : State :=
  mkState (activeClients s) (qrCodes s) (connectionStatus s)
          (<[u:=p]> (initializingClients s)) (clients s) (promises s) (tasks s)
          (pendingLog s ++ [PSet u p]).

(** [initializingClients.delete(u)] executed in block [site] *)
Definition pending_delete (site : Site) (u : string) (s : State) : State :=
  mkState (activeClients s) (qrCodes s) (connectionStatus s)
          (delete u (initializingClients s)) (clients s) (promises s) (tasks s)
          (pendingLog s ++ [PDelete site u (bool_decide (is_Some (initializingClients s !! u)))]).

Definition set_task (tid : nat) (t : Task) : State → State :=
  with_tasks (λ ts, <[tid:=t]> ts).

(** [client.info], read through the captured object. *)
Definition client_info (s : State) (c : nat) : bool :=
  match clients s !! c with
  | Some cl => c_info cl
  | None => false
  end.

(** *** The synchronous accessors *)

Definition getQRCode (u : string) (s : State) : option string :=
  match qrCodes s !! u with
  | Some url => if decide (url = "") then None else Some url
  | None => None
  end.

Definition getConnectionStatus (u : string) (s : State) : Status :=
  default not_initialized (connectionStatus s !! u).

Definition getClient (u : string) (s : State) : option nat :=
  activeClients s !! u.

(** *** The file system, as far as [hasSessionFiles] looks at it *)

Record FileSystem := mkFS {
  fs_access : string → bool;
  fs_readdir : string → option (list string)
}.

Definition path_join (a b : string) : string := a +:+ "/" +:+ b.

Definition hasSessionFiles (dirname : string) (fs : FileSystem) (u : string) : bool :=
  let userDataDir := path_join (path_join dirname "data") u in
  if fs_access fs userDataDir then
    match fs_readdir fs (path_join userDataDir ".wwebjs_auth") with
    | Some files => bool_decide (0 < length files)
    | None => false
    end
  else false.

(** *** Result literals *)

Definition res_already_connected_restore : Result :=
  mkResult true true (Some true) "WhatsApp already connected".
Definition res_restored_after_wait : Result :=
  mkResult true true (Some true) "WhatsApp session restored".
Definition res_no_session : Result :=
  mkResult true false (Some false) "No existing session found".
Definition res_restored : Result :=
  mkResult true true (Some true) "WhatsApp session restored successfully".
Definition res_not_connected_yet : Result :=
  mkResult true false (Some true) "Session files found but not connected yet".
Definition res_already_connected : Result :=
  mkResult true true None "WhatsApp already connected".
Definition res_already_initializing : Result :=
  mkResult true false None "WhatsApp client is already initializing".
Definition res_waiting_for_qr : Result :=
  mkResult true false None "WhatsApp client initialized. Waiting for QR code...".

(** *** Settling the stored promise *)

(** The continuation of [return await initPromise] in the outer function:
    a value is returned; an error goes through the outer [catch], which
    deletes the pending entry and rethrows. *)
Fixpoint wake (p : nat) (o : Outcome) (ts : list Task)
    (acc : State) : list Task * State :=
  match ts with
  | [] => ([], acc)
  | t :: ts' =>
    match t with
    | AwaitInit u q =>
      if decide (q = p) then
        let acc' := match o with
                    | Rejected _ => pending_delete SiteOuterCatch u acc
                    | _ => acc
                    end in
        let '(r, acc'') := wake p o ts' acc' in (Done o :: r, acc'')
      else let '(r, acc'') := wake p o ts' acc in (t :: r, acc'')
    | _ => let '(r, acc'') := wake p o ts' acc in (t :: r, acc'')
    end
  end.

(** The end of an async IIFE: the [finally] block, then the promise
    settles and every awaiter resumes before any other event is served. *)
Definition complete_op (tid : nat) (u : string) (p : nat) (o : Outcome) (s : State) : State :=
  let s1 := pending_delete SiteFinally u s in
  let s2 := with_promises (λ ps, <[p:=Some o]> ps) s1 in
  let s3 := set_task tid Finished s2 in
  let '(ts, s4) := wake p o (tasks s3) s3 in
  with_tasks (λ _, ts) s4.

(** [return await initPromise] reached by task [tid]. *)
Definition await_promise (tid : nat) (u : string) (p : nat) (s : State) : State :=
  match promises s !! p with
  | Some (Some o) =>
    let s' := match o with
              | Rejected _ => pending_delete SiteOuterCatch u s
              | _ => s
              end in
    set_task tid (Done o) s'
  | _ => set_task tid (AwaitInit u p) s
  end.

(** [const initPromise = (async () => {...})();
     initializingClients.set(userId, initPromise);
     return await initPromise;]
    The IIFE runs up to its first await ([fs.mkdir]) before the [set]. *)
Definition start_op (body : string → nat → Task) (tid : nat) (u : string) (s : State) : State :=
  let p := length (promises s) in
  let s1 := with_promises (λ ps, ps ++ [None]) s in
  let s2 := with_tasks (λ ts, ts ++ [body u p]) s1 in
  let s3 := pending_set u p s2 in
  await_promise tid u p s3.

(** *** initializeWhatsApp *)

(** The two early returns on a registered client. *)
Definition init_guard (u : string) (s : State) : option Result :=
  match activeClients s !! u with
  | Some c =>
    if client_info s c then Some res_already_connected
    else match connectionStatus s !! u with
         | Some initializing | Some restoring | Some qr_ready =>
           Some res_already_initializing
         | _ => None
         end
  | None => None
  end.

Definition initializeWhatsApp (tid : nat) (u : string) (s : State) : State :=
  match init_guard u s with
  | Some r => set_task tid (Done (Resolved r)) s
  | None =>
    match initializingClients s !! u with
    | Some p => await_promise tid u p s
    | None => start_op InitMkdir tid u s
    end
  end.

(** [new Client(...)], [activeClients.set], [connectionStatus.set], the
    [client.on] registrations and the call of [client.initialize()]. *)
Definition init_after_mkdir (tid : nat) (u : string) (p : nat) (s : State) : State :=
  let c := length (clients s) in
  let s1 := with_clients (λ cs, cs ++ [mkClient u InitHandlers false]) s in
  let s2 := with_active (λ m, <[u:=c]> m) s1 in
  let s3 := with_status (λ m, <[u:=initializing]> m) s2 in
  set_task tid (InitConnect u p c) s3.

(** The [catch] block of the body; a rejection of [fs.mkdir] stands for
    every failure before the client is registered. *)
Definition init_catch (u : string) (s : State) : State :=
  with_status (λ m, delete u m)
    (with_qr (λ m, delete u m)
      (with_active (λ m, delete u m) s)).

Definition init_fail (tid : nat) (u : string) (p : nat) (e : string) (s : State) : State :=
  complete_op tid u p (Rejected e) (init_catch u s).

Definition init_after_connect (tid : nat) (u : string) (p : nat) (s : State) : State :=
  complete_op tid u p (Resolved res_waiting_for_qr) s.

(** *** restoreWhatsAppSession *)

Section Restore.

Variable dirname : string.

(** [if (initializingClients.has(userId)) ... ; await hasSessionFiles(userId)] *)
Definition restore_pending_check (tid : nat) (u : string) (s : State) : State :=
  match initializingClients s !! u with
  | Some p => await_promise tid u p s
  | None => set_task tid (RestoreFiles u) s
  end.

Definition restoreWhatsAppSession (tid : nat) (u : string) (s : State) : State :=
  match activeClients s !! u with
  | Some c =>
    if client_info s c then set_task tid (Done (Resolved res_already_connected_restore)) s
    else match connectionStatus s !! u with
         | Some restoring | Some initializing => set_task tid (RestoreRecheck u c) s
         | _ => restore_pending_check tid u s
         end
  | None => restore_pending_check tid u s
  end.

(** After the 2000 ms timer of the mid-handshake branch. *)
Definition restore_after_recheck (tid : nat) (u : string) (c : nat) (s : State) : State :=
  if client_info s c then set_task tid (Done (Resolved res_restored_after_wait)) s
  else restore_pending_check tid u s.

(** After [await hasSessionFiles(userId)]. *)
Definition restore_after_files (tid : nat) (u : string) (fs : FileSystem) (s : State) : State :=
  if hasSessionFiles dirname fs u then start_op RestoreMkdir tid u s
  else set_task tid (Done (Resolved res_no_session)) s.

Definition restore_after_mkdir (tid : nat) (u : string) (p : nat) (s : State) : State :=
  let c := length (clients s) in
  let s1 := with_clients (λ cs, cs ++ [mkClient u RestoreHandlers false]) s in
  let s2 := with_active (λ m, <[u:=c]> m) s1 in
  let s3 := with_status (λ m, <[u:=restoring]> m) s2 in
  set_task tid (RestoreConnect u p c) s3.

Definition restore_catch (u : string) (s : State) : State :=
  with_status (λ m, delete u m) (with_active (λ m, delete u m) s).

Definition restore_fail (tid : nat) (u : string) (p : nat) (e : string) (s : State) : State :=
  complete_op tid u p (Rejected e) (restore_catch u s).

(** After [await client.initialize()]: start the 2000 ms timer. *)
Definition restore_after_connect (tid : nat) (u : string) (p c : nat) (s : State) : State :=
  set_task tid (RestoreSettle u p c) s.

(** After the timer: [if (client.info) {...}]. *)
Definition restore_after_settle (tid : nat) (u : string) (p c : nat) (s : State) : State :=
  if client_info s c then
    complete_op tid u p (Resolved res_restored)
      (with_status (λ m, <[u:=connected]> m) s)
  else complete_op tid u p (Resolved res_not_connected_yet) s.

End Restore.

(** *** disconnectWhatsApp *)

Definition disconnect_cleanup (u : string) (s : State) : State :=
  with_status (λ m, delete u m)
    (with_qr (λ m, delete u m)
      (with_active (λ m, delete u m) s)).

Definition disconnect_finish (tid : nat) (u : string) (s : State) : State :=
  set_task tid (Done ResolvedVoid) (disconnect_cleanup u s).

Definition disconnectWhatsApp (tid : nat) (u : string) (s : State) : State :=
  let s1 := pending_delete SiteDisconnect u s in
  match activeClients s1 !! u with
  | Some c => set_task tid (DiscLogout u c) s1
  | None => disconnect_finish tid u s1
  end.

(** Both outcomes of [client.logout()] continue: the rejection is caught
    and logged. *)
Definition disconnect_after_logout (tid : nat) (u : string) (c : nat) (s : State) : State :=
  set_task tid (DiscDestroy u c) s.

Definition disconnect_after_destroy (tid : nat) (u : string) (s : State) : State :=
  disconnect_finish tid u s.

(** The outer [catch] block of [disconnectWhatsApp]. *)
Definition disconnect_catch (tid : nat) (u : string) (e : string) (s : State) : State :=
  set_task tid (Done (Rejected e))
    (pending_delete SiteDisconnectCatch u (disconnect_cleanup u s)).

(** *** Lifecycle callbacks *)

Definition on_event (u : string) (h : Handlers) (ev : Event) (s : State) : State :=
  match ev, h with
  | EvQr (Some url), InitHandlers =>
    with_status (λ m, <[u:=qr_ready]> m) (with_qr (λ m, <[u:=url]> m) s)
  | EvQr _, _ => s
  | EvReady, InitHandlers =>
    with_qr (λ m, delete u m) (with_status (λ m, <[u:=connected]> m) s)
  | EvReady, RestoreHandlers =>
    with_status (λ m, <[u:=connected]> m) s
  | EvAuthenticated, _ =>
    with_status (λ m, <[u:=authenticated]> m) s
  | EvAuthFailure, InitHandlers =>
    with_qr (λ m, delete u m)
      (with_active (λ m, delete u m)
        (with_status (λ m, <[u:=auth_failure]> m) s))
  | EvAuthFailure, RestoreHandlers =>
    with_active (λ m, delete u m)
      (with_status (λ m, <[u:=auth_failure]> m) s)
  | EvDisconnected, InitHandlers =>
    with_qr (λ m, delete u m)
      (with_active (λ m, delete u m)
        (with_status (λ m, <[u:=disconnected]> m) s))
  | EvDisconnected, RestoreHandlers =>
    with_active (λ m, delete u m)
      (with_status (λ m, <[u:=disconnected]> m) s)
  end.

(** Client [c] emits [ev]: its callbacks run with the [userId] they
    closed over, whichever client the maps hold for that user by now. *)
Definition emit (c : nat) (ev : Event) (s : State) : State :=
  match clients s !! c with
  | Some cl => on_event (c_user cl) (c_handlers cl) ev s
  | None => s
  end.

(** The transport sets or clears [client.info]. *)
Definition set_info (c : nat) (b : bool) : State → State :=
  with_clients (λ cs,
    match cs !! c with
    | Some cl => <[c:=mkClient (c_user cl) (c_handlers cl) b]> cs
    | None => cs
    end).

(** *** The scheduler *)

Inductive Op := Initialize | Restore | Disconnect.

(** How the environment settles the await a task is suspended on. *)
Inductive Answer :=
| Fulfil
| Reject (e : string)
| Disk (fs : FileSystem).

Inductive Action :=
| Call (op : Op) (u : string)
| Settle (tid : nat) (a : Answer)
| Emit (c : nat) (ev : Event)
| SetInfo (c : nat) (b : bool).

Section Scheduler.

Variable dirname : string.

Definition call (op : Op) (u : string) (s : State) : State :=
  let tid := length (tasks s) in
  let s' := with_tasks (λ ts, ts ++ [Running]) s in
  match op with
  | Initialize => initializeWhatsApp tid u s'
  | Restore => restoreWhatsAppSession tid u s'
  | Disconnect => disconnectWhatsApp tid u s'
  end.

Definition settle (tid : nat) (a : Answer) (s : State) : option State :=
  match tasks s !! tid, a with
  | Some (InitMkdir u p), Fulfil => Some (init_after_mkdir tid u p s)
  | Some (InitMkdir u p), Reject e => Some (init_fail tid u p e s)
  | Some (InitConnect u p c), Fulfil => Some (init_after_connect tid u p s)
  | Some (InitConnect u p c), Reject e => Some (init_fail tid u p e s)
  | Some (RestoreMkdir u p), Fulfil => Some (restore_after_mkdir tid u p s)
  | Some (RestoreMkdir u p), Reject e => Some (restore_fail tid u p e s)
  | Some (RestoreConnect u p c), Fulfil => Some (restore_after_connect tid u p c s)
  | Some (RestoreConnect u p c), Reject e => Some (restore_fail tid u p e s)
  | Some (RestoreSettle u p c), Fulfil => Some (restore_after_settle tid u p c s)
  | Some (RestoreRecheck u c), Fulfil => Some (restore_after_recheck tid u c s)
  | Some (RestoreFiles u), Disk fs => Some (restore_after_files dirname tid u fs s)
  | Some (DiscLogout u c), (Fulfil | Reject _) => Some (disconnect_after_logout tid u c s)
  | Some (DiscDestroy u c), (Fulfil | Reject _) => Some (disconnect_after_destroy tid u s)
  | _, _ => None
  end.

Definition step (a : Action) (s : State) : option State :=
  match a with
  | Call op u => Some (call op u s)
  | Settle tid ans => settle tid ans s
  | Emit c ev => Some (emit c ev s)
  | SetInfo c b => Some (set_info c b s)
  end.

Fixpoint run (acts : list Action) (s : State) : option State :=
  match acts with
  | [] => Some s
  | a :: acts' =>
    match step a s with
    | Some s' => run acts' s'
    | None => None
    end
  end.

Definition reachable (s : State) : Prop :=
  ∃ acts, run acts initial = Some s.

End Scheduler.

(** The outcome of call [tid], once settled. *)
Definition outcome_of (tid : nat) (s : State) : option Outcome :=
  match tasks s !! tid with
  | Some (Done o) => Some o
  | _ => None
  end.

End Service.

(** ** Part II.  The conversation and message gateway *)

Module Gateway.

(** *** JavaScript strings

    A string is its UTF-8 byte sequence.  The empty string stands for
    every falsy string value ([""], [undefined], [null]). *)

Definition truthy (s : string) : bool := negb (bool_decide (s = "")).

(** [a || b] on strings *)
Definition or_else (a b : string) : string := if truthy a then a else b.

Infix "|||" := or_else (at level 50, left associativity).

(** The code points [String.prototype.trim] strips, the WhiteSpace and
    LineTerminator of ECMAScript, by the bytes of their encoding:
    U+0009 to U+000D and U+0020 take one byte; U+00A0 is [C2 A0]; U+1680
    is [E1 9A 80]; U+2000 to U+200A, U+2028, U+2029 and U+202F are
    [E2 80 80] to [E2 80 8A], [E2 80 A8], [E2 80 A9] and [E2 80 AF];
    U+205F is [E2 81 9F]; U+3000 is [E3 80 80]; U+FEFF is [EF BB BF]. *)
Definition is_space2 (a b : Ascii.ascii) : bool :=
  let '(a, b) := (Ascii.N_of_ascii a, Ascii.N_of_ascii b) in
  ((a =? 0xC2) && (b =? 0xA0))%N.

Definition is_space3 (a b c : Ascii.ascii) : bool :=
  let '(a, b, c) := (Ascii.N_of_ascii a, Ascii.N_of_ascii b, Ascii.N_of_ascii c) in
  ((a =? 0xE1) && (b =? 0x9A) && (c =? 0x80)
   || (a =? 0xE2) && (b =? 0x80)
      && ((0x80 <=? c) && (c <=? 0x8A) || (c =? 0xA8) || (c =? 0xA9) || (c =? 0xAF))
   || (a =? 0xE2) && (b =? 0x81) && (c =? 0x9F)
   || (a =? 0xE3) && (b =? 0x80) && (c =? 0x80)
   || (a =? 0xEF) && (b =? 0xBB) && (c =? 0xBF))%N.

(** Drop the white space a string starts with; [sp2] and [sp3] recognise
    the encodings of two and of three bytes. *)
Fixpoint strip (sp2 : Ascii.ascii → Ascii.ascii → bool)
    (sp3 : Ascii.ascii → Ascii.ascii → Ascii.ascii → bool) (s : string) : string :=
  match s with
  | String a s1 =>
    if Ascii.is_space a then strip sp2 sp3 s1
    else match s1 with
         | String b s2 =>
           if sp2 a b then strip sp2 sp3 s2
           else match s2 with
                | String c s3 => if sp3 a b c then strip sp2 sp3 s3 else s
                | EmptyString => s
                end
         | EmptyString => s
         end
  | EmptyString => EmptyString
  end.

Definition trimStart (s : string) : string := strip is_space2 is_space3 s.

(** The same from the end: on the reversed string the bytes of an
    encoding come last byte first. *)
Definition trimEnd (s : string) : string :=
  String.rev (strip (λ a b, is_space2 b a) (λ a b c, is_space3 c b a) (String.rev s)).

(** [String.prototype.trim] *)
Definition trim (s : string) : string := trimEnd (trimStart s).


(** [hay.includes(needle)] *)
Fixpoint includes (hay needle : string) : bool :=
  if String.prefix needle hay then true
  else match hay with
       | String _ hay' => includes hay' needle
       | EmptyString => false
       end.

(** *** What the transport answers *)

Inductive Reply (A : Type) :=
| Returns (a : A)
| Throws (e : string).
Arguments Returns {A} a.
Arguments Throws {A} e.

(** A transport promise: it settles [latency] milliseconds after the call.
    Every transport promise is taken to settle; one that would hang behaves
    under [Promise.race] like one slower than the timer. *)
Record Timed (A : Type) := mkTimed { latency : Z; reply : Reply A }.
Arguments mkTimed {A} latency reply.
Arguments latency {A} t.
Arguments reply {A} t.

(** [await Promise.race([p, new Promise((_, reject) =>
      setTimeout(() => reject(new Error(msg)), limit))])] *)
Definition race_timeout {A} (limit : Z) (msg : string) (p : Timed A) : Reply A :=
  if (latency p <? limit)%Z then reply p else Throws msg.

Record Media := mkMedia { mimetype : string; data : string }.

Record Message := mkMessage {
  msg_id : string;
  body : string;
  fromMe : bool;
  timestamp : Z;
  mtype : string;
  ack : Z;
  caption : string;
  hasMedia : bool;
  downloadMedia : Timed (option Media)
}.

Record Contact := mkContact {
  pushname : string;
  contact_name : string;
  number : string;
  getProfilePicUrl : Timed (option string)
}.

Record Chat := mkChat {
  id_serialized : string;
  id_user : string;
  chat_name : string;
  unreadCount : Z;
  isGroup : bool;
  isReadOnly : bool;
  getContact : Timed Contact;
  fetchMessages : nat → Timed (list Message);
  chat_sendMessage : string → Reply Message
}.

(** The client handle as the gateway sees it.  [info_at k] is the
    truthiness of [client.info] after [k] of the 500 ms polling sleeps:
    nothing else can change it while the function runs. *)
Record ClientView := mkClientView {
  info_at : nat → bool;
  client_getChats : Reply (list Chat);
  getChatById : string → Reply (option Chat)
}.

(** *** Effects, in program order *)

Inductive Effect :=
| Sleep (ms : Z)
| CallGetChats
| CallGetChatById (chatId : string)
| CallFetchMessages (limit : nat)
| CallSend (text : string).

Definition Gw (A : Type) : Type := list Effect * Reply A.

Definition ret {A} (a : A) : Gw A := ([], Returns a).
Definition throw {A} (e : string) : Gw A := ([], Throws e).
Definition perform {A} (ef : Effect) (r : Reply A) : Gw A := ([ef], r).

Definition bind {A B} (m : Gw A) (f : A → Gw B) : Gw B :=
  match m with
  | (t, Returns a) => let '(t', r) := f a in (t ++ t', r)
  | (t, Throws e) => (t, Throws e)
  end.

Definition try_catch {A} (m : Gw A) (h : string → Gw A) : Gw A :=
  match m with
  | (t, Throws e) => let '(t', r) := h e in (t ++ t', r)
  | ok => ok
  end.

#[global] Instance Gw_ret : MRet Gw := @ret.
#[global] Instance Gw_bind : MBind Gw := λ A B f m, bind m f.

Definition elapsed (t : list Effect) : Z :=
  foldr (λ ef acc, match ef with Sleep ms => (ms + acc)%Z | _ => acc end) 0%Z t.

Definition is_sleep (ef : Effect) : bool :=
  match ef with Sleep _ => true | _ => false end.

Definition sleeps (t : list Effect) : nat :=
  length (List.filter is_sleep t).

(** *** The readiness wait

    [let attempts = 0;
     while (!client.info && attempts < 20) { await sleep(500); attempts++; }]
    [poll] returns the final value of [attempts]. *)
Fixpoint poll (info : nat → bool) (fuel attempts : nat) : nat :=
  match fuel with
  | 0 => attempts
  | S fuel' => if info attempts then attempts else poll info fuel' (S attempts)
  end.

Definition waitUntilReady (not_ready : string) (cl : ClientView) : Gw unit :=
  if info_at cl 0 then ret tt
  else
    let attempts := poll (info_at cl) 20 0 in
    (replicate attempts (Sleep 500),
     if info_at cl attempts then Returns tt else Throws not_ready).

Definition msg_not_initialized : string := "WhatsApp client not initialized".
Definition msg_not_ready_retry : string :=
  "WhatsApp client not ready. Please wait a moment and try again.".
Definition msg_not_ready : string := "WhatsApp client not ready".
Definition msg_not_connected : string := "WhatsApp client not connected".

(** *** getChatCount *)

Definition getChatCount (client : option ClientView) : Gw nat :=
  match client with
  | None => throw msg_not_initialized
  | Some cl =>
    _ ← waitUntilReady msg_not_ready cl;
    chats ← perform CallGetChats (client_getChats cl);
    ret (length chats)
  end.

(** *** getChats *)

Record FormattedChat := mkFormattedChat {
  fc_id : string;
  fc_name : string;
  fc_phoneNumber : string;
  fc_avatar : option string;
  fc_lastMessage : string;
  fc_lastMessageType : option string;
  fc_lastMessageImage : option string;
  fc_timestamp : string;
  fc_unread : Z;
  fc_isGroup : bool;
  fc_isReadOnly : bool
}.

Section Formatting.

(** [toLocaleTimeString('en-US', {hour, minute})],
    [toLocaleDateString('en-US', {weekday})] and
    [toLocaleDateString('en-US', {month, day})] of a millisecond instant. *)
Variable localeTime : Z → string.
Variable localeWeekday : Z → string.
Variable localeMonthDay : Z → string.

(** The clock: [new Date()] in milliseconds. *)
Variable now : Z.

Definition day_ms : Z := 1000 * 60 * 60 * 24.

(** [Math.ceil(Math.abs(now - msgDate) / (1000*60*60*24))] *)
Definition diffDays (msgDate : Z) : Z :=
  let diffTime := Z.abs (now - msgDate) in
  ((diffTime + day_ms - 1) / day_ms)%Z.

Definition formatTimestamp (lastMessage : option Message) : string :=
  match lastMessage with
  | None => ""
  | Some m =>
    let msgDate := (timestamp m * 1000)%Z in
    let d := diffDays msgDate in
    if (d =? 0)%Z then localeTime msgDate
    else if (d =? 1)%Z then "Yesterday"
    else if (d <? 7)%Z then localeWeekday msgDate
    else localeMonthDay msgDate
  end.

(** The contact block: name, phone number and avatar. *)
Definition resolveContact (chat : Chat) : string * string * option string :=
  match race_timeout 5000 "Contact fetch timeout" (getContact chat) with
  | Returns contact =>
    let contactName :=
      pushname contact ||| contact_name contact ||| number contact
        ||| chat_name chat ||| "Unknown" in
    let phoneNumber := number contact ||| id_user chat ||| "" in
    let avatar :=
      match race_timeout 3000 "Profile pic timeout" (getProfilePicUrl contact) with
      | Returns url => url
      | Throws _ => None
      end in
    (contactName, phoneNumber, avatar)
  | Throws _ =>
    (chat_name chat ||| id_user chat ||| "Unknown", id_user chat ||| "", None)
  end.

(** [chat.fetchMessages({ limit: 1 })] under its 5 s timer. *)
Definition fetchLastMessage (chat : Chat) : option Message :=
  match race_timeout 5000 "Messages fetch timeout" (fetchMessages chat 1) with
  | Returns (m :: _) => Some m
  | Returns [] => None
  | Throws _ => None
  end.

(** The inlined thumbnail of an image message. *)
Definition imagePreview (m : Message) : option string :=
  if hasMedia m then
    match race_timeout 3000 "Image download timeout" (downloadMedia m) with
    | Returns (Some media) =>
      if truthy (data media) && bool_decide (String.length (data media) < 100 * 1024)
      then Some ("data:" +:+ mimetype media +:+ ";base64," +:+ data media)
      else None
    | _ => None
    end
  else None.

Definition lastMessageText (m : Message) : string :=
  if bool_decide (mtype m = "image") then caption m ||| "📷 Image"
  else if bool_decide (mtype m = "video") then caption m ||| "🎥 Video"
  else if bool_decide (mtype m = "audio") then "🎵 Audio"
  else if bool_decide (mtype m = "document") then "📄 " +:+ (body m ||| "Document")
  else if bool_decide (mtype m = "sticker") then "🎨 Sticker"
  else body m ||| ("[" +:+ mtype m +:+ "]").

Definition formatChat (chat : Chat) : FormattedChat :=
  let '(contactName, phoneNumber, avatar) := resolveContact chat in
  let lastMessage := fetchLastMessage chat in
  mkFormattedChat
    (id_serialized chat) contactName phoneNumber avatar
    (from_option lastMessageText "" lastMessage)
    (mtype <$> lastMessage)
    (match lastMessage with
     | Some m => if bool_decide (mtype m = "image") then imagePreview m else None
     | None => None
     end)
    (formatTimestamp lastMessage)
    (unreadCount chat) (isGroup chat) (isReadOnly chat).

(** The object of the per-chat [catch] block.  Every statement of the
    [try] block that can throw on a transport object of this model sits in
    one of the inner [try] blocks, so [getChats] never gets here; the
    entry with all sub-fetches failed differs from it in [unread] only. *)
Definition basicChat (chat : Chat) : FormattedChat :=
  mkFormattedChat
    (id_serialized chat) (chat_name chat ||| id_user chat ||| "Unknown")
    (id_user chat ||| "") None "" None None "" 0 (isGroup chat) (isReadOnly chat).

(** The comparator handed to [formattedChats.sort]. *)
Definition byTimestamp (a b : FormattedChat) : Z :=
  if negb (truthy (fc_timestamp a)) && negb (truthy (fc_timestamp b)) then 0
  else if negb (truthy (fc_timestamp a)) then 1
  else if negb (truthy (fc_timestamp b)) then (-1)
  else 0.

(** [Array.prototype.sort] is stable: an element goes in front of the
    first one it does not compare greater than. *)
Fixpoint insert_by {A} (cmp : A → A → Z) (x : A) (l : list A) : list A :=
  match l with
  | [] => [x]
  | y :: l' => if (cmp x y <=? 0)%Z then x :: l else y :: insert_by cmp x l'
  end.

Definition sort_by {A} (cmp : A → A → Z) (l : list A) : list A :=
  foldr (insert_by cmp) [] l.

Definition getChats (client : option ClientView) : Gw (list FormattedChat) :=
  match client with
  | None => throw msg_not_initialized
  | Some cl =>
    _ ← waitUntilReady msg_not_ready_retry cl;
    chats ← perform CallGetChats (client_getChats cl);
    if bool_decide (length chats = 0) then ret []
    else ret (sort_by byTimestamp (formatChat <$> chats))
  end.

(** *** getChatMessages *)

Inductive Sender := me | them.
Inductive Delivery := sent | delivered | read.

Record FormattedMessage := mkFormattedMessage {
  fm_id : string;
  fm_text : string;
  fm_timestamp : string;
  fm_sender : Sender;
  fm_status : option Delivery;
  fm_type : string
}.

Definition formatMessage (m : Message) : FormattedMessage :=
  mkFormattedMessage
    (msg_id m)
    (body m ||| ("[" +:+ mtype m +:+ "]"))
    (localeTime (timestamp m * 1000))
    (if fromMe m then me else them)
    (if fromMe m then
       Some (if (ack m =? 3)%Z then read else if (ack m =? 2)%Z then delivered else sent)
     else None)
    (mtype m).

(** Reading a property of [null] *)
Definition msg_null_chat : string :=
  "Cannot read properties of null (reading 'fetchMessages')".

Definition getChatMessages (client : option ClientView) (chatId : string)
    : Gw (list FormattedMessage) :=
  match client with
  | None => throw msg_not_initialized
  | Some cl =>
    _ ← waitUntilReady msg_not_ready_retry cl;
    chat ← perform (CallGetChatById chatId) (getChatById cl chatId);
    match chat with
    | None => throw msg_null_chat
    | Some chat =>
      messages ← perform (CallFetchMessages 100) (reply (fetchMessages chat 100));
      ret (formatMessage <$> messages)
    end
  end.

End Formatting.

(** *** sendMessage and its verification fallback *)

(** The test on [sendError.message]. *)
Definition benign (e : string) : bool :=
  truthy e && (includes e "markedUnread"
               || includes e "Cannot read properties of undefined").

(** The three-way text comparison of the verification loop. *)
Definition textMatch (msgBody sentMessage : string) : bool :=
  bool_decide (msgBody = sentMessage)
  || includes msgBody sentMessage || includes sentMessage msgBody.

(** The [for (const msg of recentMessages)] loop; the result is
    [verifiedMessageId] when the loop left through a [break]. *)
Fixpoint verifyScan (now : Z) (message : string) (recent : list Message)
    : option string :=
  match recent with
  | [] => None
  | msg :: rest =>
    if fromMe msg then
      let timeDiff_ms := (now - timestamp msg * 1000)%Z in
      if (timeDiff_ms <? 15 * 1000)%Z then
        if truthy (body msg) && textMatch (trim (body msg)) (trim message)
        then Some (msg_id msg)
        else if (timeDiff_ms <? 5 * 1000)%Z then Some (msg_id msg)
        else verifyScan now message rest
      else verifyScan now message rest
    else verifyScan now message rest
  end.

(** [`temp_${Date.now()}`] *)
Definition tempId (stamp : Z) : string := "temp_" +:+ pretty stamp.

(** The body of [catch (sendError)]. *)
Definition verifyAfterBenignError (chat : Chat) (message : string) (now stamp : Z)
    : Gw string :=
  _ ← perform (Sleep 2000) (Returns tt);
  verified ← try_catch
      (recentMessages ← perform (CallFetchMessages 10) (reply (fetchMessages chat 10));
       match verifyScan now message recentMessages with
       | Some id => if truthy id then ret (Some id) else ret None
       | None => ret None
       end)
      (λ _, ret None);
  match verified with
  | Some id => ret id
  | None => ret (tempId stamp)
  end.

(** [now] is the clock during the verification loop and [stamp] the value
    of [Date.now()] for the temporary id. *)
Definition sendMessage (client : option ClientView) (chatId message : string)
    (now stamp : Z) : Gw string :=
  match client with
  | None => throw msg_not_connected
  | Some cl =>
    if negb (info_at cl 0) then throw msg_not_connected
    else
      chat ← perform (CallGetChatById chatId) (getChatById cl chatId);
      match chat with
      | None => throw ("Chat " +:+ chatId +:+ " not found")
      | Some chat =>
        try_catch
          (sentMessage ← perform (CallSend message) (chat_sendMessage chat message);
           ret (msg_id sentMessage))
          (λ sendError,
             if benign sendError
             then verifyAfterBenignError chat message now stamp
             else throw sendError)
      end
  end.

End Gateway.

(** ** Part III.  The user store and the routes of index.js

    [index.js] keeps the registered users in [data/users.json], serialises
    its writes through the flag [isWritingUsers] and the array
    [writeQueue], and serves the account and WhatsApp routes. *)

Module Accounts.

Import Stdlib.Strings.Ascii.
Import Gateway.

(** *** JavaScript strings

    The account routes look into their strings: [.length] counts UTF-16
    code units, and the pattern and [trim] go through them one by one.  A
    string of this part is therefore the list of its code units; the empty
    list also stands for an absent body field.  [js] gives the code units
    of a literal of ASCII characters. *)

Abbreviation jstring := (list N).

Definition code (a : ascii) : N := N_of_ascii a.

Definition js (s : string) : jstring := code <$> String.list_ascii_of_string s.

(** [!s] *)
Definition missing (s : jstring) : bool := bool_decide (s = []).

(** WhiteSpace and LineTerminator of ECMAScript, which [\s] matches and
    [trim] strips: U+0009 to U+000D, U+0020, U+00A0, U+1680, U+2000 to
    U+200A, U+2028, U+2029, U+202F, U+205F, U+3000 and U+FEFF. *)
Definition is_space (c : N) : bool :=
  ((9 <=? c) && (c <=? 13) || (c =? 0x20) || (c =? 0xA0) || (c =? 0x1680)
   || (0x2000 <=? c) && (c <=? 0x200A) || (c =? 0x2028) || (c =? 0x2029)
   || (c =? 0x202F) || (c =? 0x205F) || (c =? 0x3000) || (c =? 0xFEFF))%N.

Fixpoint trimStart (s : jstring) : jstring :=
  match s with
  | c :: s' => if is_space c then trimStart s' else s
  | [] => []
  end.

(** [String.prototype.trim] *)
Definition trim (s : jstring) : jstring := rev (trimStart (rev (trimStart s))).

(** *** The email pattern

    A regular expression is matched by its derivatives; [matches] is the
    language it denotes. *)

Inductive Regex :=
| Never
| Epsilon
| CharClass (p : N → bool)
| Cat (r1 r2 : Regex)
| Alt (r1 r2 : Regex)
| Star (r : Regex).

(** [r+] *)
Definition Plus (r : Regex) : Regex := Cat r (Star r).

Fixpoint nullable (r : Regex) : bool :=
  match r with
  | Never | CharClass _ => false
  | Epsilon | Star _ => true
  | Cat r1 r2 => nullable r1 && nullable r2
  | Alt r1 r2 => nullable r1 || nullable r2
  end.

Fixpoint deriv (a : N) (r : Regex) : Regex :=
  match r with
  | Never | Epsilon => Never
  | CharClass p => if p a then Epsilon else Never
  | Cat r1 r2 =>
    if nullable r1 then Alt (Cat (deriv a r1) r2) (deriv a r2) else Cat (deriv a r1) r2
  | Alt r1 r2 => Alt (deriv a r1) (deriv a r2)
  | Star r' => Cat (deriv a r') (Star r')
  end.

(** [/^r$/.test(s)] *)
Fixpoint regex_test (r : Regex) (s : jstring) : bool :=
  match s with
  | [] => nullable r
  | a :: s' => regex_test (deriv a r) s'
  end.

Inductive matches : Regex → jstring → Prop :=
| matches_epsilon : matches Epsilon []
| matches_class p a : p a = true → matches (CharClass p) [a]
| matches_cat r1 r2 s1 s2 :
    matches r1 s1 → matches r2 s2 → matches (Cat r1 r2) (s1 ++ s2)
| matches_alt_l r1 r2 s : matches r1 s → matches (Alt r1 r2) s
| matches_alt_r r1 r2 s : matches r2 s → matches (Alt r1 r2) s
| matches_star_nil r : matches (Star r) []
| matches_star_cons r s1 s2 :
    matches r s1 → matches (Star r) s2 → matches (Star r) (s1 ++ s2).

(** [[^\s@]] *)
Definition not_space_or_at (c : N) : bool :=
  negb (is_space c) && negb (c =? code "@")%N.

Definition is_char (c : ascii) : Regex := CharClass (λ a, (a =? code c)%N).

(** [/^[^\s@]+@[^\s@]+\.[^\s@]+$/] *)
Definition emailRegex : Regex :=
  Cat (Plus (CharClass not_space_or_at))
    (Cat (is_char "@")
       (Cat (Plus (CharClass not_space_or_at))
          (Cat (is_char ".") (Plus (CharClass not_space_or_at))))).

Definition not_space (c : N) : bool := negb (is_space c).

(** A non-empty run of code units other than white space and [@]. *)
Definition plain (s : jstring) : Prop :=
  s ≠ [] ∧ forallb not_space_or_at s = true.

(** *** The stored users *)

(** A user object.  The three WhatsApp properties are absent until
    [updateUserWhatsAppStatus] sets them. *)
Record User := mkUser {
  user_id : jstring;
  user_name : jstring;
  user_email : jstring;
  user_password : jstring;
  createdAt : jstring;
  whatsappConnected : option bool;
  whatsappConnectedAt : option jstring;
  whatsappDisconnectedAt : option jstring
}.

(** [const { password: _, ...userWithoutPassword } = user] *)
Record PublicUser := mkPublicUser {
  pu_id : jstring;
  pu_name : jstring;
  pu_email : jstring;
  pu_createdAt : jstring;
  pu_whatsappConnected : option bool;
  pu_whatsappConnectedAt : option jstring;
  pu_whatsappDisconnectedAt : option jstring
}.

Definition withoutPassword (u : User) : PublicUser :=
  mkPublicUser (user_id u) (user_name u) (user_email u) (createdAt u)
    (whatsappConnected u) (whatsappConnectedAt u) (whatsappDisconnectedAt u).

(** What [JSON.parse] makes of the file: an array of user objects, or any
    other value.  [JSON.stringify] of an array of users parses back to it. *)
Inductive Json :=
| JUsers (users : list User)
| JOther.

(** [users.json] as [fs.readFile] and [JSON.parse] see it: missing
    ([ENOENT]), unreadable for another reason, blank, not JSON, or holding
    a value. *)
Inductive UsersFile :=
| NoFile
| Unreadable (e : string)
| Blank
| Malformed
| Holds (v : Json).

(** [if (!Array.isArray(users)) users = []] *)
Definition array_or_empty (v : Json) : list User :=
  match v with
  | JUsers users => users
  | JOther => []
  end.

(** *** writeUsers and its queue

    A call of [writeUsers] creates a [writeOperation]; [op_id] numbers the
    calls.  [inProgress] lists the activations of [writeOperation] between
    their start and their [finally] block, each with the await it is
    suspended on; [settledWrites] records how the returned promises
    settled and [issuedWrites] the arguments of the calls, in order. *)

Record WriteOp := mkWriteOp { op_id : nat; op_users : Json }.

Inductive Phase := AtMkdir | AtWriteFile.

Record Writer := mkWriter {
  usersFile : UsersFile;
  isWritingUsers : bool;
  writeQueue : list WriteOp;
  inProgress : list (WriteOp * Phase);
  settledWrites : list (nat * Reply unit);
  issuedWrites : list Json
}.

Definition idle (f : UsersFile) : Writer := mkWriter f false [] [] [] [].

(** [writeOperation()] up to [await fs.mkdir(...)] *)
Definition start_write (op : WriteOp) (w : Writer) : Writer :=
  mkWriter (usersFile w) (isWritingUsers w) (writeQueue w)
           (inProgress w ++ [(op, AtMkdir)]) (settledWrites w) (issuedWrites w).

Definition set_writing (b : bool) (w : Writer) : Writer :=
  mkWriter (usersFile w) b (writeQueue w) (inProgress w) (settledWrites w) (issuedWrites w).

Definition writeUsers (v : Json) (w : Writer) : Writer :=
  let op := mkWriteOp (length (issuedWrites w)) v in
  let w1 := mkWriter (usersFile w) (isWritingUsers w) (writeQueue w) (inProgress w)
                     (settledWrites w) (issuedWrites w ++ [v]) in
  if isWritingUsers w1 then
    mkWriter (usersFile w1) (isWritingUsers w1) (writeQueue w1 ++ [op]) (inProgress w1)
             (settledWrites w1) (issuedWrites w1)
  else start_write op (set_writing true w1).

(** The [finally] block of [writeOperation]. *)
Definition write_finally (w : Writer) : Writer :=
  let w1 := set_writing false w in
  match writeQueue w1 with
  | next :: rest =>
    start_write next
      (set_writing true
         (mkWriter (usersFile w1) (isWritingUsers w1) rest (inProgress w1)
                   (settledWrites w1) (issuedWrites w1)))
  | [] => w1
  end.

(** The activation at position [k] ends: its promise settles with [r],
    the file is left as [f], and the [finally] block runs. *)
Definition write_ends (k : nat) (op : WriteOp) (r : Reply unit) (f : UsersFile)
    (w : Writer) : Writer :=
  write_finally
    (mkWriter f (isWritingUsers w) (writeQueue w) (delete k (inProgress w))
              (settledWrites w ++ [(op_id op, r)]) (issuedWrites w)).

(** How [fs.writeFile] settles; a failed write leaves the file in a state
    of the environment's choosing. *)
Inductive WriteFileAnswer :=
| Written
| WriteFails (e : string) (remains : UsersFile).

Inductive WriterAction :=
| CallWriteUsers (v : Json)
| MkdirSettles (k : nat) (r : Reply unit)
| WriteFileSettles (k : nat) (a : WriteFileAnswer).

Definition writer_step (a : WriterAction) (w : Writer) : option Writer :=
  match a with
  | CallWriteUsers v => Some (writeUsers v w)
  | MkdirSettles k r =>
    match inProgress w !! k, r with
    | Some (op, AtMkdir), Returns _ =>
      Some (mkWriter (usersFile w) (isWritingUsers w) (writeQueue w)
                     (<[k:=(op, AtWriteFile)]> (inProgress w))
                     (settledWrites w) (issuedWrites w))
    | Some (op, AtMkdir), Throws e => Some (write_ends k op (Throws e) (usersFile w) w)
    | _, _ => None
    end
  | WriteFileSettles k a =>
    match inProgress w !! k, a with
    | Some (op, AtWriteFile), Written =>
      Some (write_ends k op (Returns tt) (Holds (JUsers (array_or_empty (op_users op)))) w)
    | Some (op, AtWriteFile), WriteFails e remains =>
      Some (write_ends k op (Throws e) remains w)
    | _, _ => None
    end
  end.

Fixpoint writer_run (acts : list WriterAction) (w : Writer) : option Writer :=
  match acts with
  | [] => Some w
  | a :: acts' =>
    match writer_step a w with
    | Some w' => writer_run acts' w'
    | None => None
    end
  end.

(** *** One request at a time

    The route handlers are taken one at a time: the store is idle when a
    handler starts and nothing else runs during its awaits. *)

(** How the two awaits of one [writeUsers] settle. *)
Inductive DiskAnswer :=
| DiskOk
| DiskMkdirFails (e : string)
| DiskWriteFails (e : string) (remains : UsersFile).

Definition disk_actions (d : DiskAnswer) : list WriterAction :=
  match d with
  | DiskOk => [MkdirSettles 0 (Returns tt); WriteFileSettles 0 Written]
  | DiskMkdirFails e => [MkdirSettles 0 (Throws e)]
  | DiskWriteFails e remains =>
    [MkdirSettles 0 (Returns tt); WriteFileSettles 0 (WriteFails e remains)]
  end.

(** [await writeUsers(v)] on an idle store: the settlement of the promise
    and the file afterwards. *)
Definition writeUsers_alone (v : Json) (d : DiskAnswer) (f : UsersFile)
    : Reply unit * UsersFile :=
  match writer_run (CallWriteUsers v :: disk_actions d) (idle f) with
  | Some w =>
    (match settledWrites w with
     | [(_, r)] => r
     | _ => Throws "unsettled"
     end, usersFile w)
  | None => (Throws "unsettled", f)
  end.

(** [repair] settles the write of [[]] that follows a [SyntaxError]. *)
Definition readUsers (repair : DiskAnswer) (f : UsersFile) : Reply Json * UsersFile :=
  match f with
  | NoFile | Blank => (Returns (JUsers []), f)
  | Unreadable e => (Throws e, f)
  | Malformed => (Returns (JUsers []), (writeUsers_alone (JUsers []) repair f).2)
  | Holds v => (Returns v, f)
  end.

(** *** The account routes *)

(** [res.status(code).json({ success, message, user })] *)
Record Response := mkResponse {
  http_status : nat;
  resp_success : bool;
  resp_message : string;
  resp_user : option PublicUser
}.

Definition refuse (code : nat) (msg : string) : Response := mkResponse code false msg None.

(** The [catch] block of a route. *)
Definition internal_error : Response := refuse 500 "Internal server error".

Section CaseMapping.

(** [String.prototype.toLowerCase] maps by the case tables of Unicode,
    which are no part of the repository: the routes take it as given. *)
Variable toLowerCase : jstring → jstring.

(** [POST /api/users/register].  [now] is [Date.now()], [iso] is
    [new Date().toISOString()]. *)
Definition register (name email password : jstring) (now : Z) (iso : jstring)
    (repair save : DiskAnswer) (f : UsersFile) : Response * UsersFile :=
  if missing name || missing email || missing password then
    (refuse 400 "Name, email, and password are required", f)
  else if bool_decide (length password < 6) then
    (refuse 400 "Password must be at least 6 characters", f)
  else if negb (regex_test emailRegex email) then
    (refuse 400 "Invalid email format", f)
  else
    match readUsers repair f with
    | (Returns (JUsers users), f1) =>
      match List.find (λ user, bool_decide (user_email user = email)) users with
      | Some _ => (refuse 409 "User with this email already exists", f1)
      | None =>
        let newUser :=
          mkUser (js (pretty now)) (trim name) (trim (toLowerCase email)) password iso
                 None None None in
        match writeUsers_alone (JUsers (users ++ [newUser])) save f1 with
        | (Returns _, f2) =>
          (mkResponse 201 true "User created successfully" (Some (withoutPassword newUser)), f2)
        | (Throws _, f2) => (internal_error, f2)
        end
      end
    | (_, f1) => (internal_error, f1)
    end.

(** [POST /api/users/login] *)
Definition login (email password : jstring) (repair : DiskAnswer) (f : UsersFile)
    : Response * UsersFile :=
  if missing email || missing password then
    (refuse 400 "Email and password are required", f)
  else
    match readUsers repair f with
    | (Returns (JUsers users), f1) =>
      match List.find (λ u, bool_decide (user_email u = trim (toLowerCase email))) users with
      | None => (refuse 401 "Invalid email or password", f1)
      | Some user =>
        if negb (bool_decide (user_password user = password)) then
          (refuse 401 "Invalid email or password", f1)
        else (mkResponse 200 true "Login successful" (Some (withoutPassword user)), f1)
      end
    | (_, f1) => (internal_error, f1)
    end.

End CaseMapping.

(** The two branches of [updateUserWhatsAppStatus] on the user found. *)
Definition markConnected (iso : jstring) (u : User) : User :=
  mkUser (user_id u) (user_name u) (user_email u) (user_password u) (createdAt u)
         (Some true) (Some iso)
         (match whatsappDisconnectedAt u with
          | Some t => if missing t then Some t else None
          | None => None
          end).

Definition markDisconnected (iso : jstring) (u : User) : User :=
  mkUser (user_id u) (user_name u) (user_email u) (user_password u) (createdAt u)
         (Some false) (whatsappConnectedAt u) (Some iso).

(** [Array.prototype.findIndex] *)
Fixpoint findIndex {A} (pred : A → bool) (l : list A) : option nat :=
  match l with
  | [] => None
  | x :: l' => if pred x then Some 0 else S <$> findIndex pred l'
  end.

(** The function returns nothing and never throws: its result here is the
    file it leaves. *)
Definition updateUserWhatsAppStatus (userId : jstring) (isConnected : bool) (iso : jstring)
    (repair save : DiskAnswer) (f : UsersFile) : UsersFile :=
  if missing userId then f
  else
    match readUsers repair f with
    | (Returns (JUsers users), f1) =>
      match findIndex (λ u, bool_decide (user_id u = userId)) users with
      | Some i =>
        (writeUsers_alone
           (JUsers (alter (if isConnected then markConnected iso else markDisconnected iso)
                          i users))
           save f1).2
      | None => f1
      end
    | (Returns JOther, f1) => (writeUsers_alone (JUsers []) save f1).2
    | (Throws _, f1) => f1
    end.

(** *** Vocabulary of the statements about the store *)

(** The users a readable file holds. *)
Definition stored (f : UsersFile) : list User :=
  match f with
  | Holds (JUsers users) => users
  | _ => []
  end.

(** A request body that passes the three validations of the register
    route. *)
Definition valid_request (name email password : jstring) : Prop :=
  name ≠ [] ∧ email ≠ [] ∧ password ≠ [] ∧ 6 ≤ length password
  ∧ regex_test emailRegex email = true.

(** What identifies an account, as opposed to its WhatsApp status. *)
Definition account_identity (u : User) : jstring * jstring * jstring * jstring * jstring :=
  (user_id u, user_name u, user_email u, user_password u, createdAt u).

Section Normalised.

Variable toLowerCase : jstring → jstring.

(** The user object the register route stores for a valid request. *)
Definition newUser_of (name email password : jstring) (now : Z) (iso : jstring) : User :=
  mkUser (js (pretty now)) (trim name) (trim (toLowerCase email)) password iso
         None None None.

(** A stored address in the form the register route writes. *)
Definition normalised (u : User) : Prop :=
  toLowerCase (user_email u) = user_email u ∧ regex_test emailRegex (user_email u) = true.

Definition file_ok (f : UsersFile) : Prop := Forall normalised (stored f).

End Normalised.

(** What a failed [fs.writeFile] leaves behind satisfies [P]. *)
Definition disk_leaves (P : UsersFile → Prop) (d : DiskAnswer) : Prop :=
  match d with
  | DiskWriteFails _ remains => P remains
  | _ => True
  end.

Definition settled_ids (w : Writer) : list nat := fst <$> settledWrites w.
Definition in_progress_ops (w : Writer) : list WriteOp := fst <$> inProgress w.

(** The writes requested and not yet settled: the one in progress, then
    the queue. *)
Definition pending_ops (w : Writer) : list WriteOp := in_progress_ops w ++ writeQueue w.

Record writer_ok (w : Writer) : Prop := mkWriterOk {
  wo_lock : isWritingUsers w = bool_decide (inProgress w ≠ []);
  wo_one : length (inProgress w) ≤ 1;
  wo_queue : isWritingUsers w = false → writeQueue w = [];
  wo_order : settled_ids w ++ (op_id <$> pending_ops w) = seq 0 (length (issuedWrites w));
  wo_values : ∀ op, op ∈ pending_ops w → issuedWrites w !! op_id op = Some (op_users op);
  wo_file : ∀ l id, settledWrites w = l ++ [(id, Returns tt)] →
    ∃ v, issuedWrites w !! id = Some v ∧ usersFile w = Holds (JUsers (array_or_empty v))
}.

(** [toLowerCase] on strings of ASCII characters, where it changes the
    letters [A] to [Z] and nothing else; the sample requests are such
    strings. *)
Definition lowerASCII (c : N) : N :=
  if ((code "A" <=? c) && (c <=? code "Z"))%N then (c + 32)%N else c.

Definition toLowerCaseASCII (s : jstring) : jstring := lowerASCII <$> s.

(** Sample accounts and schedules *)
Definition ann : User :=
  mkUser (js "1700000000000") (js "Ann") (js "ann@example.com") (js "secret1")
         (js "2023-11-14T22:13:20.000Z") None None (Some (js "2023-11-15T08:00:00.000Z")).
Definition bob : User :=
  mkUser (js "1700000000500") (js "Bob") (js "bob@example.com") (js "hunter22")
         (js "2023-11-14T22:13:20.500Z") None None None.
Definition two_users : UsersFile := Holds (JUsers [ann; bob]).

(** Two calls of [writeUsers] in a row, then the awaits of both writes. *)
Definition two_writes : list WriterAction :=
  [CallWriteUsers (JUsers [ann]); CallWriteUsers (JUsers [ann; bob]);
   MkdirSettles 0 (Returns tt); WriteFileSettles 0 Written;
   MkdirSettles 0 (Returns tt); WriteFileSettles 0 Written].

(** The second call arrives while the first write is in progress. *)
Definition queued_write : list WriterAction :=
  [CallWriteUsers (JUsers [ann]); CallWriteUsers (JUsers [ann; bob]);
   MkdirSettles 0 (Returns tt)].

End Accounts.

Module Routes.

Import Service.

(** [GET /api/whatsapp/qr/:userId]; [qr_message] is [None] where the
    response has no [message] property. *)
Record QrResponse := mkQrResponse {
  qr_success : bool;
  qr_code : option string;
  qr_status : Status;
  qr_message : option string
}.

Definition qr_route (u : string) (s : State) : QrResponse :=
  let status := getConnectionStatus u s in
  match getQRCode u s with
  | Some qrCode => mkQrResponse true (Some qrCode) status None
  | None =>
    mkQrResponse false None status
      (Some (if decide (status = connected) then "WhatsApp already connected"
             else "QR code not available yet"))
  end.

End Routes.

(** ** Part IV.  Vocabulary of the statements *)

Import Service Gateway.

Inductive GatewayOp :=
| OpGetChats
| OpGetChatCount
| OpGetChatMessages (chatId : string)
| OpSendMessage (chatId message : string).

Definition forget {A} (m : Gw A) : Gw unit :=
  (m.1, match m.2 with Returns _ => Returns tt | Throws e => Throws e end).

Section Invoke.

Variable localeTime localeWeekday localeMonthDay : Z → string.
Variable now stamp : Z.

(** One gateway operation run against a client handle, its value dropped. *)
Definition invoke (op : GatewayOp) (client : option ClientView) : Gw unit :=
  match op with
  | OpGetChats => forget (getChats localeTime localeWeekday localeMonthDay now client)
  | OpGetChatCount => forget (getChatCount client)
  | OpGetChatMessages chatId => forget (getChatMessages localeTime client chatId)
  | OpSendMessage chatId message => forget (sendMessage client chatId message now stamp)
  end.

End Invoke.

(** The first transport call an operation makes once it is past the
    readiness precondition. *)
Definition first_call (op : GatewayOp) : Effect :=
  match op with
  | OpGetChats | OpGetChatCount => CallGetChats
  | OpGetChatMessages chatId | OpSendMessage chatId _ => CallGetChatById chatId
  end.

Definition is_not_ready_error (e : string) : bool := includes e "not ready".

(** The readiness precondition in the words of the specification: the
    operation polls every 500 ms, goes on as soon as the client is ready,
    and after 20 unsuccessful attempts fails with a "not ready" error. *)
Definition waits_for_readiness (run : ClientView → Gw unit) (first : Effect) : Prop :=
  ∀ cl n, n ≤ 20 → (∀ j, j < n → info_at cl j = false) →
    (info_at cl n = true →
       ∃ t r, run cl = (replicate n (Sleep 500) ++ first :: t, r) ∧ sleeps t = 0)
    ∧ (n = 20 → info_at cl n = false →
       ∃ e, run cl = (replicate 20 (Sleep 500), Throws e) ∧ is_not_ready_error e = true).

Definition polling_op (op : GatewayOp) : bool :=
  match op with OpSendMessage _ _ => false | _ => true end.

(** Sample transport objects *)
Definition no_media : Timed (option Media) := mkTimed 0 (Returns None).
Definition ready_after (k : nat) : nat → bool := λ j, bool_decide (k ≤ j).
Definition quiet_chat : Chat :=
  mkChat "c1@c.us" "c1" "Bob" 0 false false
         (mkTimed 10 (Throws "no contact")) (λ _, mkTimed 10 (Returns []))
         (λ text, Returns (mkMessage "abc123" text true 0 "chat" 1 "" false no_media)).
Definition slow_client : ClientView :=
  mkClientView (ready_after 1) (Returns [quiet_chat]) (λ _, Returns (Some quiet_chat)).
Definition id_locale : Z → string := λ _, "".

(** The two acceptance tests of the verification loop, per message.
    Ages are in milliseconds: [timeDiff < 15] is [age_ms < 15000]. *)
Definition age_ms (now : Z) (m : Message) : Z := (now - timestamp m * 1000)%Z.

Definition own_text_match (now : Z) (message : string) (m : Message) : bool :=
  fromMe m && (age_ms now m <? 15000)%Z
  && truthy (body m) && textMatch (trim (body m)) (trim message).

Definition own_very_recent (now : Z) (m : Message) : bool :=
  fromMe m && (age_ms now m <? 5000)%Z.

Definition accepted (now : Z) (message : string) (m : Message) : bool :=
  own_text_match now message m || own_very_recent now m.

(** The reading of C4 in which a text match takes precedence: whenever the
    fetched window holds an own message of the last 15 s that matches the
    sent text, the id returned is the id of such a message. *)
Definition text_match_takes_precedence : Prop :=
  ∀ cl chatId message now stamp chat e recent,
    info_at cl 0 = true →
    getChatById cl chatId = Returns (Some chat) →
    chat_sendMessage chat message = Throws e →
    benign e = true →
    reply (fetchMessages chat 10) = Returns recent →
    (∃ m, m ∈ recent ∧ own_text_match now message m = true) →
    ∃ m, m ∈ recent ∧ own_text_match now message m = true
         ∧ (sendMessage (Some cl) chatId message now stamp).2 = Returns (msg_id m).

(** Two own messages sent one second apart, in the transport's order
    (earliest first), seen at clock 1000000 ms: "A" is 4 s old, "B" 3 s. *)
Definition msg_other : Message :=
  mkMessage "A" "other" true 996 "chat" 1 "" false no_media.
Definition msg_hello : Message :=
  mkMessage "B" "Hello" true 997 "chat" 1 "" false no_media.
Definition marked_unread_error : string :=
  "Cannot read properties of undefined (reading 'markedUnread')".
Definition flaky_chat : Chat :=
  mkChat "c1@c.us" "c1" "Bob" 0 false false
         (mkTimed 10 (Throws "no contact"))
         (λ n, mkTimed 10 (Returns (drop (2 - n) [msg_other; msg_hello])))
         (λ _, Throws marked_unread_error).
Definition flaky_client : ClientView :=
  mkClientView (λ _, true) (Returns [flaky_chat]) (λ _, Returns (Some flaky_chat)).

(** An own message, 10 s old at clock 1000000 ms, whose body is "Hello"
    followed by a no-break space (U+00A0, the bytes [C2 A0]). *)
Definition no_break_space : string :=
  String (Ascii.ascii_of_N 0xC2) (String (Ascii.ascii_of_N 0xA0) "").
Definition msg_padded : Message :=
  mkMessage "P" ("Hello" +:+ no_break_space) true 990 "chat" 1 "" false no_media.

(** Failure of the per-conversation sub-fetches: the promise rejects, or
    its timer fires first. *)
Definition contact_fails (chat : Chat) : Prop :=
  ∃ e, race_timeout 5000 "Contact fetch timeout" (getContact chat) = Throws e.

Definition avatar_fails (contact : Contact) : Prop :=
  ∃ e, race_timeout 3000 "Profile pic timeout" (getProfilePicUrl contact) = Throws e.

Definition last_message_fails (chat : Chat) : Prop :=
  ∃ e, race_timeout 5000 "Messages fetch timeout" (fetchMessages chat 1) = Throws e.

(** A conversation all of whose sub-fetches hang. *)
Definition stuck_chat : Chat :=
  mkChat "c2@c.us" "c2" "" 3 false false
         (mkTimed 60000 (Throws "late")) (λ _, mkTimed 60000 (Returns []))
         (λ _, Throws "unused").
Definition two_chat_client : ClientView :=
  mkClientView (λ _, true) (Returns [stuck_chat; flaky_chat]) (λ _, Returns None).

(** The four registry maps. *)
Definition registry (s : State)
    : gmap string nat * gmap string string * gmap string Status * gmap string nat :=
  (activeClients s, qrCodes s, connectionStatus s, initializingClients s).

(** No registry entry is left for [u]. *)
Definition cleared (u : string) (s : State) : Prop :=
  activeClients s !! u = None ∧ qrCodes s !! u = None
  ∧ connectionStatus s !! u = None ∧ initializingClients s !! u = None.

(** Transport activity: lifecycle events and changes of [client.info]. *)
Definition is_transport (a : Action) : bool :=
  match a with
  | Emit _ _ | SetInfo _ _ => true
  | _ => false
  end.

Definition interference (evs : list Action) : Prop :=
  Forall (λ a, is_transport a = true) evs.

(** What transport activity leaves alone: the tasks, the promises, the
    pending operations, and which clients exist for whom. *)
Record same_control (s s' : State) : Prop := mkSameControl {
  sc_tasks : tasks s' = tasks s;
  sc_promises : promises s' = promises s;
  sc_pending : initializingClients s' = initializingClients s;
  sc_log : pendingLog s' = pendingLog s;
  sc_length : length (clients s') = length (clients s);
  sc_clients : ∀ c cl, clients s !! c = Some cl →
    ∃ b, clients s' !! c = Some (mkClient (c_user cl) (c_handlers cl) b);
  sc_active : ∀ u, activeClients s !! u = None → activeClients s' !! u = None
}.

(** How the awaits of [disconnectWhatsApp] may settle. *)
Definition settles (a : Answer) : Prop :=
  match a with Fulfil | Reject _ => True | Disk _ => False end.

Definition no_files : FileSystem := mkFS (λ _, false) (λ _, None).
Definition with_credentials : FileSystem := mkFS (λ _, true) (λ _, Some ["session"]).
Definition backend_dir : string := "/srv/backend".

(** What the settlement of promise [p] with [o] does to a task. *)
Definition woken (p : nat) (o : Outcome) (t : Task) : Task :=
  match t with
  | AwaitInit u q => if decide (q = p) then Done o else t
  | _ => t
  end.

(** Deletions in the ghost log that removed the entry of [u], and those
    among them issued by a [finally] block. *)
Definition clears_of (u : string) (w : PendingWrite) : bool :=
  match w with
  | PDelete _ u' true => bool_decide (u' = u)
  | _ => false
  end.

Definition finally_clears_of (u : string) (w : PendingWrite) : bool :=
  match w with
  | PDelete SiteFinally u' true => bool_decide (u' = u)
  | _ => false
  end.

Definition count_clears (u : string) (log : list PendingWrite) : nat :=
  length (List.filter (clears_of u) log).

Definition count_finally_clears (u : string) (log : list PendingWrite) : nat :=
  length (List.filter (finally_clears_of u) log).

(** The ways out of the async body of a coordinator. *)
Inductive Exit :=
| MkdirFails (e : string)
| ConnectFails (e : string)
| Completes.

(** The settlements that drive the body of [initializeWhatsApp], task
    [iife], down an exit, with transport activity in between. *)
Definition init_path (iife : nat) (x : Exit) (evs1 evs2 : list Action) : list Action :=
  match x with
  | MkdirFails e => evs1 ++ [Settle iife (Reject e)]
  | ConnectFails e => evs1 ++ Settle iife Fulfil :: evs2 ++ [Settle iife (Reject e)]
  | Completes => evs1 ++ Settle iife Fulfil :: evs2 ++ [Settle iife Fulfil]
  end.

(** The same for the body of [restoreWhatsAppSession], whose completion
    also waits for the 2000 ms timer. *)
Definition restore_path (iife : nat) (x : Exit) (evs1 evs2 evs3 : list Action) : list Action :=
  match x with
  | MkdirFails e => evs1 ++ [Settle iife (Reject e)]
  | ConnectFails e => evs1 ++ Settle iife Fulfil :: evs2 ++ [Settle iife (Reject e)]
  | Completes =>
    evs1 ++ Settle iife Fulfil :: evs2 ++ Settle iife Fulfil :: evs3 ++ [Settle iife Fulfil]
  end.

(** The outcome of the stored promise on each exit of [initializeWhatsApp]. *)
Definition init_outcome (x : Exit) : Outcome :=
  match x with
  | MkdirFails e | ConnectFails e => Rejected e
  | Completes => Resolved res_waiting_for_qr
  end.

(** A coordinator call [caller] waits for its async body [iife], whose
    promise [p] is the pending operation of [u]; [log] is the ghost log
    before the entry was stored. *)
Record in_flight (caller iife : nat) (u : string) (p : nat)
    (log : list PendingWrite) (s : State) : Prop := mkInFlight {
  if_caller : tasks s !! caller = Some (AwaitInit u p);
  if_pending : initializingClients s !! u = Some p;
  if_promise : promises s !! p = Some None;
  if_log : pendingLog s = log ++ [PSet u p];
  if_distinct : caller ≠ iife;
  if_bound : iife < length (tasks s)
}.

(** The outcome of the stored promise when [client.initialize()] settles. *)
Definition connect_outcome (a : Answer) : Outcome :=
  match a with
  | Reject e => Rejected e
  | _ => Resolved res_waiting_for_qr
  end.

(** The outcomes of [restoreWhatsAppSession] on each exit of its body. *)
Definition restore_outcome (x : Exit) (o : Outcome) : Prop :=
  match x with
  | MkdirFails e | ConnectFails e => o = Rejected e
  | Completes => o = Resolved res_restored ∨ o = Resolved res_not_connected_yet
  end.

(** C2 as stated: a QR code is stored for [u] exactly when the status of
    [u] is [qr_ready]. *)
Definition pairing_iff_qr_ready (s : State) : Prop :=
  ∀ u, is_Some (qrCodes s !! u) ↔ connectionStatus s !! u = Some qr_ready.

(** The direction that holds: status [qr_ready] comes with a stored code. *)
Definition qr_ready_has_code (status : gmap string Status) (qr : gmap string string) : Prop :=
  ∀ u, status !! u = Some qr_ready → is_Some (qr !! u).

Definition sample_qr : string := "data:image/png;base64,iVBORw0KGgo=".

(** A handshake up to the scan of the code: the call, the data directory,
    the qr event, the authenticated event. *)
Definition scan_schedule : list Action :=
  [Call Initialize "u1"; Settle 1 Fulfil;
   Emit 0 (EvQr (Some sample_qr)); Emit 0 EvAuthenticated].

Definition launch_error : string := "Failed to launch the browser process".

(** A restoration that found credentials and returned before the client
    became ready: the client stays registered with status [restoring] and
    no operation is pending. *)
Definition slow_restore : list Action :=
  [Call Restore "u1"; Settle 0 (Disk with_credentials);
   Settle 1 Fulfil; Settle 1 Fulfil; Settle 1 Fulfil].

(** A second [restoreWhatsAppSession] for the same user: the 2 s timer, the
    file check, the creation of the data directory. *)
Definition second_restore : list Action :=
  [Call Restore "u1"; Settle 2 Fulfil; Settle 2 (Disk with_credentials); Settle 3 Fulfil].

(** [restoreWhatsAppSession] called while [initializeWhatsApp] awaits
    [client.initialize()], which then rejects. *)
Definition restore_during_failing_init : list Action :=
  [Call Initialize "u1"; Settle 1 Fulfil; Call Restore "u1"; Settle 2 Fulfil;
   Settle 1 (Reject launch_error)].

(** [initializeWhatsApp] called again after the client was registered;
    [client.initialize()] then rejects. *)
Definition init_twice_failing : list Action :=
  [Call Initialize "u1"; Settle 1 Fulfil; Call Initialize "u1";
   Settle 1 (Reject launch_error)].

(** A client registered for "u1" by [initializeWhatsApp], which still
    awaits [client.initialize()]. *)
Definition connecting : State :=
  mkState {["u1" := 0]} ∅ {["u1" := initializing]} {["u1" := 0]}
          [mkClient "u1" InitHandlers false] [None]
          [AwaitInit "u1" 0; InitConnect "u1" 0 0] [PSet "u1" 0].

(** [t] is the suspended async body of a coordinator call for [u]: an
    activation that ends in the [finally] block. *)
Definition body_of (u : string) (t : Task) : bool :=
  match t with
  | InitMkdir v _ | InitConnect v _ _
  | RestoreMkdir v _ | RestoreConnect v _ _ | RestoreSettle v _ _ => bool_decide (v = u)
  | _ => false
  end.

(** Every stored pending operation has a body in flight. *)
Definition pending_owned (s : State) : Prop :=
  ∀ u, is_Some (initializingClients s !! u) →
    ∃ i t, tasks s !! i = Some t ∧ body_of u t = true.

(** [disconnectWhatsApp] at one of its two awaits. *)
Definition disc_task (t : Task) : bool :=
  match t with
  | DiscLogout _ _ | DiscDestroy _ _ => true
  | _ => false
  end.

(** A schedule that leaves the awaits of task [tid] unsettled. *)
Definition leaves_waiting (tid : nat) (acts : list Action) : Prop :=
  Forall (λ a, ∀ ans, a ≠ Settle tid ans) acts.

(** What any activity leaves of a waiting [disconnectWhatsApp], task
    [tid]: the task itself; and a pending operation stored afterwards was
    stored before, or is a promise created since. *)
Record keeps_waiting (tid : nat) (s s' : State) : Prop := mkKeepsWaiting {
  kw_task : ∀ t, tasks s !! tid = Some t → disc_task t = true → tasks s' !! tid = Some t;
  kw_promises : length (promises s) ≤ length (promises s');
  kw_pending : ∀ v p, initializingClients s' !! v = Some p →
    initializingClients s !! v = Some p ∨ length (promises s) ≤ p
}.

(** [initializeWhatsApp] called while [disconnectWhatsApp] awaits
    [client.destroy()], on a session that had authenticated: tasks 0 and 1
    are the first handshake, task 2 is the disconnect. *)
Definition initialize_during_logout : list Action :=
  [Call Initialize "u1"; Settle 1 Fulfil; Settle 1 Fulfil; Emit 0 EvAuthenticated;
   Call Disconnect "u1"; Settle 2 Fulfil; Call Initialize "u1"; Settle 2 Fulfil].

(** [disconnectWhatsApp] called while the body of [initializeWhatsApp]
    awaits the creation of the data directory; the body then completes. *)
Definition disconnect_during_init : list Action :=
  [Call Initialize "u1"; Call Disconnect "u1"; Settle 1 Fulfil; Settle 1 Fulfil].

(** Entries of [getChats] with and without a timestamp. *)
Definition has_timestamp (c : FormattedChat) : bool := truthy (fc_timestamp c).
Definition no_timestamp (c : FormattedChat) : bool := negb (has_timestamp c).

(** [msg.ack === 3 ? 'read' : msg.ack === 2 ? 'delivered' : 'sent'] *)
Definition delivery_of (a : Z) : Delivery :=
  if (a =? 3)%Z then read else if (a =? 2)%Z then delivered else sent.

Definition is_send (ef : Effect) : bool :=
  match ef with CallSend _ => true | _ => false end.

(** A conversation whose last message is a small image. *)
Definition photo : Message :=
  mkMessage "P1" "" false 900 "image" 0 "" true
            (mkTimed 20 (Returns (Some (mkMedia "image/jpeg" "/9j/4AAQ")))).
Definition photo_chat : Chat :=
  mkChat "c3@c.us" "c3" "Carol" 1 false false
         (mkTimed 10 (Throws "no contact")) (λ _, mkTimed 10 (Returns [photo]))
         (λ _, Throws "unused").

(** Every registered handle is a constructed client of that user. *)
Definition handle_valid (s : State) : Prop :=
  ∀ u c, activeClients s !! u = Some c →
    ∃ cl, clients s !! c = Some cl ∧ c_user cl = u.

(** What a step does to the client heap and the handles: a client keeps
    its user and its callbacks, and a handle is one that was there or one
    of a live client of that user. *)
Record heap_grows (s s' : State) : Prop := mkHeapGrows {
  hg_clients : ∀ c cl, clients s !! c = Some cl →
    ∃ b, clients s' !! c = Some (mkClient (c_user cl) (c_handlers cl) b);
  hg_active : ∀ u c, activeClients s' !! u = Some c →
    activeClients s !! u = Some c ∨ ∃ cl, clients s' !! c = Some cl ∧ c_user cl = u
}.

(** The user and the promise of a suspended async body. *)
Definition promise_of (t : Task) : option (string * nat) :=
  match t with
  | InitMkdir u p | InitConnect u p _
  | RestoreMkdir u p | RestoreConnect u p _ | RestoreSettle u p _ => Some (u, p)
  | _ => None
  end.

(** Every stored pending operation is the promise of a body in flight;
    the promise of a body in flight is unsettled; no two bodies share a
    promise. *)
Record pending_live (s : State) : Prop := mkPendingLive {
  pl_body : ∀ u p, initializingClients s !! u = Some p →
    ∃ i t, tasks s !! i = Some t ∧ promise_of t = Some (u, p);
  pl_open : ∀ i t u p, tasks s !! i = Some t → promise_of t = Some (u, p) →
    promises s !! p = Some None;
  pl_inj : ∀ i j ti tj u v p, tasks s !! i = Some ti → tasks s !! j = Some tj →
    promise_of ti = Some (u, p) → promise_of tj = Some (v, p) → i = j
}.

(** The suspension points of [restoreWhatsAppSession] and of its body. *)
Definition restore_task (t : Task) : bool :=
  match t with
  | RestoreMkdir _ _ | RestoreConnect _ _ _ | RestoreSettle _ _ _
  | RestoreRecheck _ _ | RestoreFiles _ => true
  | _ => false
  end.

(** The awaits inside the [try] block of a body that can reject: the
    creation of the data directory and [client.initialize()]; [h] tells
    the body of [initializeWhatsApp] from that of
    [restoreWhatsAppSession]. *)
Definition failing_body (h : Handlers) (u : string) (p : nat) (t : Task) : Prop :=
  match h with
  | InitHandlers => t = InitMkdir u p ∨ ∃ c, t = InitConnect u p c
  | RestoreHandlers => t = RestoreMkdir u p ∨ ∃ c, t = RestoreConnect u p c
  end.

(** What a coordinator answers on a session whose client is ready. *)
Definition ready_result (op : Op) : Result :=
  match op with
  | Initialize => res_already_connected
  | _ => res_already_connected_restore
  end.

(** A restoration up to its 2000 ms timer: the call, the file check, the
    data directory, [client.initialize()], with transport activity in
    between.  [tid] is the call and [S tid] its body. *)
Definition restore_schedule (tid : nat) (fs : FileSystem) (evs0 evs1 evs2 evs3 : list Action)
    (u : string) : list Action :=
  Call Restore u :: evs0 ++ Settle tid (Disk fs) :: evs1 ++ Settle (S tid) Fulfil
    :: evs2 ++ Settle (S tid) Fulfil :: evs3.

(** [qrcode.toDataURL] resolves to a non-empty data URL. *)
Definition proper_code (a : Action) : Prop :=
  match a with
  | Emit _ (EvQr (Some url)) => url ≠ ""
  | _ => True
  end.

Definition codes_nonempty (s : State) : Prop :=
  ∀ u url, qrCodes s !! u = Some url → url ≠ "".

(** A session whose handshake has completed. *)
Definition ready_session : State :=
  mkState {["u1" := 0]} ∅ {["u1" := connected]} ∅
          [mkClient "u1" InitHandlers true] [Some (Resolved res_waiting_for_qr)]
          [Done (Resolved res_waiting_for_qr); Finished] [].

(** A handshake up to the first pairing code. *)
Definition qr_schedule : list Action :=
  [Call Initialize "u1"; Settle 1 Fulfil; Emit 0 (EvQr (Some sample_qr))].

(** ** Part V.  Properties *)

(** *** The readiness wait *)

Lemma poll_le info fuel a : poll info fuel a ≤ a + fuel.
Proof. revert a; induction fuel as [|f IH]; intros a; simpl; [lia|].
  destruct (info a); [lia|]. specialize (IH (S a)). lia. Qed.

Lemma poll_first info n : ∀ fuel a, a ≤ n → n ≤ a + fuel →
  (∀ j, a ≤ j → j < n → info j = false) →
  (n < a + fuel → info n = true) → poll info fuel a = n.
Proof.
  induction fuel as [|f IH]; intros a Han Hn Hbefore Hat; simpl.
  - lia.
  - destruct (decide (a = n)) as [Heq|Hne].
    + subst a. rewrite Hat by lia. reflexivity.
    + rewrite Hbefore; [|lia|lia]. apply IH; try lia.
      * intros j ??. apply Hbefore; lia.
      * intros ?. apply Hat. lia.
Qed.

Lemma sleeps_replicate n ms : sleeps (replicate n (Sleep ms)) = n.
Proof. unfold sleeps. induction n as [|n IH]; [done|]. simpl. by f_equal. Qed.
Lemma elapsed_replicate n ms : elapsed (replicate n (Sleep ms)) = (Z.of_nat n * ms)%Z.
Proof. induction n as [|n IH]; [done|]. simpl replicate. unfold elapsed in *. simpl foldr. rewrite IH. lia. Qed.

Lemma waitUntilReady_ready msg cl n :
  n ≤ 20 → (∀ j, j < n → info_at cl j = false) → info_at cl n = true →
  waitUntilReady msg cl = (replicate n (Sleep 500), Returns tt).
Proof.
  intros Hn Hb Hat. unfold waitUntilReady.
  destruct (info_at cl 0) eqn:E0.
  - destruct n; [done|]. rewrite Hb in E0; [done|lia].
  - rewrite (poll_first (info_at cl) n 20 0); try lia; [by rewrite Hat| |done].
    intros j _ ?. by apply Hb.
Qed.

Lemma waitUntilReady_never msg cl :
  (∀ j, j ≤ 20 → info_at cl j = false) →
  waitUntilReady msg cl = (replicate 20 (Sleep 500), Throws msg).
Proof.
  intros Hb. unfold waitUntilReady. rewrite (Hb 0) by lia.
  rewrite (poll_first (info_at cl) 20 20 0); try lia.
  - by rewrite Hb.
  - intros j _ ?. apply Hb; lia.
Qed.

Lemma sleeps_app t1 t2 : sleeps (t1 ++ t2) = sleeps t1 + sleeps t2.
Proof. unfold sleeps. by rewrite List.filter_app, length_app. Qed.

Lemma elapsed_app t1 t2 : elapsed (t1 ++ t2) = (elapsed t1 + elapsed t2)%Z.
Proof.
  unfold elapsed. induction t1 as [|ef t1 IH]; simpl; [lia|].
  destruct ef; rewrite ?IH; lia.
Qed.

Lemma waitUntilReady_trace msg cl :
  ∃ n, n ≤ 20 ∧ (waitUntilReady msg cl).1 = replicate n (Sleep 500).
Proof.
  unfold waitUntilReady. destruct (info_at cl 0).
  - exists 0. split; [lia | done].
  - exists (poll (info_at cl) 20 0). split; [|done].
    pose proof (poll_le (info_at cl) 20 0). lia.
Qed.

Section ReadinessWait.

Variable localeTime localeWeekday localeMonthDay : Z → string.
Variable now stamp : Z.

Abbreviation invoke := (invoke localeTime localeWeekday localeMonthDay now stamp).

Lemma polling_ops_wait op :
  polling_op op = true → waits_for_readiness (λ cl, invoke op (Some cl)) (first_call op).
Proof.
  intros Hop cl n Hn Hbefore. split.
  - intros Hat.
    destruct op as [| |chatId|chatId message]; try discriminate Hop;
      unfold invoke, Gateway.getChats, getChatCount, getChatMessages, forget;
      rewrite (waitUntilReady_ready _ cl n Hn Hbefore Hat); simpl.
    + destruct (client_getChats cl) as [chats|e]; simpl.
      * case_bool_decide; simpl; by eexists _, _.
      * by eexists _, _.
    + destruct (client_getChats cl) as [chats|e]; simpl; by eexists _, _.
    + destruct (getChatById cl chatId) as [[chat|]|e]; simpl;
        [destruct (reply (fetchMessages chat 100)); simpl| |];
        eexists _, _; (split; [reflexivity|]); done.
  - intros -> Hat.
    assert (∀ j, j ≤ 20 → info_at cl j = false) as Hnever.
    { intros j Hj. destruct (decide (j = 20)) as [->|]; [done|]. apply Hbefore. lia. }
    destruct op as [| |chatId|chatId message]; try discriminate Hop;
      unfold invoke, Gateway.getChats, getChatCount, getChatMessages, forget;
      rewrite (waitUntilReady_never _ cl Hnever); simpl; by eexists.
Qed.

Lemma sendMessage_not_ready cl chatId message :
  info_at cl 0 = false →
  sendMessage (Some cl) chatId message now stamp = ([], Throws msg_not_connected).
Proof. intros H. unfold sendMessage. by rewrite H. Qed.

Lemma polling_ops_trace op cl :
  polling_op op = true →
  ∃ n t, n ≤ 20 ∧ (invoke op (Some cl)).1 = replicate n (Sleep 500) ++ t
         ∧ sleeps t = 0 ∧ elapsed t = 0%Z.
Proof.
  intros Hop.
  destruct (waitUntilReady_trace msg_not_ready cl) as (n1 & Hn1 & E1).
  destruct (waitUntilReady_trace msg_not_ready_retry cl) as (n2 & Hn2 & E2).
  destruct op as [| |chatId|chatId message]; try discriminate Hop;
    unfold invoke, Gateway.getChats, getChatCount, getChatMessages, forget.
  - exists n2. destruct (waitUntilReady msg_not_ready_retry cl) as [t [[]|e]];
      simpl in *; subst t.
    + destruct (client_getChats cl) as [chats|e]; simpl;
        [case_bool_decide; simpl|]; by eexists.
    + exists []. by rewrite app_nil_r.
  - exists n1. destruct (waitUntilReady msg_not_ready cl) as [t [[]|e]];
      simpl in *; subst t.
    + destruct (client_getChats cl) as [chats|e]; simpl; by eexists.
    + exists []. by rewrite app_nil_r.
  - exists n2. destruct (waitUntilReady msg_not_ready_retry cl) as [t [[]|e]];
      simpl in *; subst t.
    + destruct (getChatById cl chatId) as [[chat|]|e]; simpl;
        [destruct (reply (fetchMessages chat 100)); simpl| |]; by eexists.
    + exists []. by rewrite app_nil_r.
Qed.

(** C3 (amended).  [getChats], [getChatCount] and [getChatMessages] poll
    the readiness of a live client every 500 ms: they go on to their first
    transport call as soon as the client is ready, never sleep more than 20
    times (10 s), and after 20 unsuccessful attempts throw their "not
    ready" error.  [sendMessage] does not poll: on a client that is not
    ready at the call it throws "WhatsApp client not connected" at once. *)
Theorem readiness_wait_of_gateway (op : GatewayOp) (cl : ClientView) :
  (polling_op op = true →
     waits_for_readiness (λ cl, invoke op (Some cl)) (first_call op)
     ∧ sleeps (invoke op (Some cl)).1 ≤ 20
     ∧ (elapsed (invoke op (Some cl)).1 ≤ 10000)%Z)
  ∧ (polling_op op = false → info_at cl 0 = false →
     invoke op (Some cl) = ([], Throws msg_not_connected)
     ∧ is_not_ready_error msg_not_connected = false).
Proof.
  split.
  - intros Hop. split; [by apply polling_ops_wait|].
    destruct (polling_ops_trace op cl Hop) as (n & t & Hn & -> & Hs & He).
    rewrite sleeps_app, elapsed_app, sleeps_replicate, elapsed_replicate, Hs, He. lia.
  - intros Hop Hinfo. destruct op; try discriminate Hop.
    split; [|done]. unfold invoke, forget. by rewrite sendMessage_not_ready.
Qed.

End ReadinessWait.

Lemma readiness_wait_of_gateway_witness :
  (∃ t r, invoke id_locale id_locale id_locale 0 0 OpGetChatCount (Some slow_client)
          = (replicate 1 (Sleep 500) ++ first_call OpGetChatCount :: t, r)
     ∧ sleeps t = 0)
  ∧ invoke id_locale id_locale id_locale 0 0 (OpSendMessage "c1@c.us" "Hello") (Some slow_client)
    = ([], Throws msg_not_connected).
Proof.
  split.
  - destruct (readiness_wait_of_gateway id_locale id_locale id_locale 0 0
                OpGetChatCount slow_client) as [H _].
    destruct (H eq_refl) as [Hw _].
    destruct (Hw slow_client 1) as [Hr _]; [lia | by intros [|j] ?; [|lia] |].
    exact (Hr eq_refl).
  - destruct (readiness_wait_of_gateway id_locale id_locale id_locale 0 0
                (OpSendMessage "c1@c.us" "Hello") slow_client) as [_ H].
    exact (proj1 (H eq_refl eq_refl)).
Defined.

(** C3, as stated, fails for [sendMessage]: a client that becomes ready
    after one 500 ms poll is waited for by [getChatCount], while
    [sendMessage] throws at once without a single poll. *)
Lemma sendMessage_does_not_poll :
  ¬ waits_for_readiness
      (λ cl, invoke id_locale id_locale id_locale 0 0 (OpSendMessage "c1@c.us" "Hello") (Some cl))
      (first_call (OpSendMessage "c1@c.us" "Hello")).
Proof.
  intros H. destruct (H slow_client 1) as [Hr _]; [lia | by intros [|j] ?; [|lia] |].
  destruct (Hr eq_refl) as (t & r & E & _). vm_compute in E. discriminate E.
Qed.

(** *** The send-verification fallback *)

Lemma verifyScan_find now message recent :
  verifyScan now message recent = msg_id <$> List.find (accepted now message) recent.
Proof.
  induction recent as [|m rest IH]; [done|].
  simpl. unfold accepted, own_text_match, own_very_recent, age_ms.
  destruct (fromMe m); simpl; [|exact IH].
  destruct (Z.ltb_spec (now - timestamp m * 1000) (15 * 1000)) as [H15|H15].
  - replace (now - timestamp m * 1000 <? 15000)%Z with true
      by (symmetry; apply Z.ltb_lt; lia).
    simpl.
    destruct (truthy (body m) && textMatch (trim (body m)) (trim message)); [done|].
    simpl. change (5 * 1000)%Z with 5000%Z.
    destruct (now - timestamp m * 1000 <? 5000)%Z; [done | exact IH].
  - replace (now - timestamp m * 1000 <? 15000)%Z with false
      by (symmetry; apply Z.ltb_ge; lia).
    replace (now - timestamp m * 1000 <? 5000)%Z with false
      by (symmetry; apply Z.ltb_ge; lia).
    simpl. exact IH.
Qed.

(** C4 (amended).  When the transport's send throws, [sendMessage] either
    rethrows the same error (message not of the benign kind) or waits
    2000 ms, fetches the last 10 messages and returns the id of the first
    fetched message, in fetch order, that is own-authored and either
    matches the sent text within 15 s or is younger than 5 s; with no such
    message, an empty id or a failing fetch it returns the temporary id
    [temp_<clock>].  It never throws on the benign path. *)
Theorem sendMessage_fallback cl chatId message now stamp chat e :
  info_at cl 0 = true →
  getChatById cl chatId = Returns (Some chat) →
  chat_sendMessage chat message = Throws e →
  sendMessage (Some cl) chatId message now stamp =
    if benign e then
      ([CallGetChatById chatId; CallSend message; Sleep 2000; CallFetchMessages 10],
       Returns
         match reply (fetchMessages chat 10) with
         | Returns recent =>
           match List.find (accepted now message) recent with
           | Some m => if truthy (msg_id m) then msg_id m else tempId stamp
           | None => tempId stamp
           end
         | Throws _ => tempId stamp
         end)
    else ([CallGetChatById chatId; CallSend message], Throws e).
Proof.
  intros Hinfo Hchat Hsend. unfold sendMessage. rewrite Hinfo, Hchat. simpl.
  rewrite Hsend. simpl. destruct (benign e); [|done].
  unfold verifyAfterBenignError. simpl.
  destruct (reply (fetchMessages chat 10)) as [recent|e']; simpl; [|done].
  rewrite verifyScan_find.
  destruct (List.find (accepted now message) recent) as [m|]; simpl; [|done].
  by destruct (truthy (msg_id m)).
Qed.

Lemma sendMessage_fallback_witness :
  sendMessage (Some flaky_client) "c1@c.us" "Hello" 1000000 1000001
  = ([CallGetChatById "c1@c.us"; CallSend "Hello"; Sleep 2000; CallFetchMessages 10],
     Returns "A").
Proof.
  exact (sendMessage_fallback flaky_client "c1@c.us" "Hello" 1000000 1000001
           flaky_chat marked_unread_error eq_refl eq_refl eq_refl).
Defined.

(** C4, as stated, fails: the window holds the own message "B", 3 s old,
    whose body is the sent text, but the loop stops at the earlier own
    message "A", 4 s old with another body, and returns its id. *)
Lemma recent_message_wins_over_text_match :
  ¬ text_match_takes_precedence.
Proof.
  intros H.
  destruct (H flaky_client "c1@c.us" "Hello" 1000000%Z 1000001%Z flaky_chat
              marked_unread_error [msg_other; msg_hello]
              eq_refl eq_refl eq_refl eq_refl eq_refl) as (m & Hin & Hm & Hid).
  - exists msg_hello. split; [|done]. apply list_elem_of_In. simpl. tauto.
  - apply list_elem_of_In in Hin. simpl in Hin.
    vm_compute in Hid.
    destruct Hin as [<-|[<-|[]]]; [discriminate Hm | discriminate Hid].
Qed.

(** The comparison is made on the trimmed texts, and [trim] strips every
    white space of ECMAScript: a sent text with a no-break space in front
    matches the stored text that ends with one. *)
Example padded_text_matches :
  verifyScan 1000000 (no_break_space +:+ "Hello") [msg_padded] = Some "P".
Proof. reflexivity. Qed.

(** *** Listing conversations *)

Lemma insert_by_perm {A} (cmp : A → A → Z) x l : insert_by cmp x l ≡ₚ x :: l.
Proof.
  induction l as [|y l IH]; simpl; [done|].
  destruct (cmp x y <=? 0)%Z; [done|].
  rewrite IH. apply Permutation_swap.
Qed.

Lemma sort_by_perm {A} (cmp : A → A → Z) l : sort_by cmp l ≡ₚ l.
Proof.
  unfold sort_by. induction l as [|x l IH]; simpl; [done|].
  by rewrite insert_by_perm, IH.
Qed.

Section Listing.

Variable localeTime localeWeekday localeMonthDay : Z → string.
Variable now : Z.

Abbreviation formatChat := (formatChat localeTime localeWeekday localeMonthDay now).
Abbreviation getChats := (getChats localeTime localeWeekday localeMonthDay now).

Lemma formatChat_id chat : fc_id (formatChat chat) = id_serialized chat.
Proof. unfold Gateway.formatChat. by destruct (resolveContact chat) as [[??]?]. Qed.

Lemma formatChat_contact_fails chat :
  contact_fails chat →
  fc_name (formatChat chat) = chat_name chat ||| id_user chat ||| "Unknown"
  ∧ fc_phoneNumber (formatChat chat) = id_user chat ||| ""
  ∧ fc_avatar (formatChat chat) = None.
Proof. intros [e He]. unfold Gateway.formatChat, resolveContact. by rewrite He. Qed.

Lemma formatChat_avatar_fails chat contact :
  race_timeout 5000 "Contact fetch timeout" (getContact chat) = Returns contact →
  avatar_fails contact →
  fc_avatar (formatChat chat) = None
  ∧ fc_name (formatChat chat)
    = pushname contact ||| contact_name contact ||| number contact
        ||| chat_name chat ||| "Unknown"
  ∧ fc_phoneNumber (formatChat chat) = number contact ||| id_user chat ||| "".
Proof.
  intros Hc [e He]. unfold Gateway.formatChat, resolveContact. by rewrite Hc, He.
Qed.

Lemma formatChat_last_message_fails chat :
  last_message_fails chat →
  fc_lastMessage (formatChat chat) = ""
  ∧ fc_lastMessageType (formatChat chat) = None
  ∧ fc_lastMessageImage (formatChat chat) = None
  ∧ fc_timestamp (formatChat chat) = "".
Proof.
  intros [e He]. unfold Gateway.formatChat, fetchLastMessage.
  destruct (resolveContact chat) as [[??]?]. by rewrite He.
Qed.

Lemma formatChat_all_fail chat :
  contact_fails chat → last_message_fails chat →
  formatChat chat
  = mkFormattedChat (fc_id (basicChat chat)) (fc_name (basicChat chat))
      (fc_phoneNumber (basicChat chat)) None "" None None "" (unreadCount chat)
      (fc_isGroup (basicChat chat)) (fc_isReadOnly (basicChat chat)).
Proof.
  intros [e He] [e' He']. unfold Gateway.formatChat, resolveContact, fetchLastMessage.
  by rewrite He, He'.
Qed.

(** C9.  On a ready session [getChats] never fails because of a
    conversation: with no conversation it returns the empty list, and
    otherwise it returns one entry per conversation, each computed from its
    own conversation alone.  A failed contact resolution leaves that entry
    with the conversation's own name and number and no avatar, a failed
    avatar fetch with no avatar, a failed last-message fetch with empty
    message, type, image and timestamp. *)
Theorem getChats_degrades_per_entry cl chats :
  info_at cl 0 = true →
  client_getChats cl = Returns chats →
  ∃ l, getChats (Some cl) = ([CallGetChats], Returns l)
    ∧ (chats = [] → l = [])
    ∧ l ≡ₚ formatChat <$> chats
    ∧ length l = length chats
    ∧ ∀ chat, chat ∈ chats →
        ∃ entry, entry ∈ l ∧ entry = formatChat chat
          ∧ fc_id entry = id_serialized chat
          ∧ (contact_fails chat →
               fc_name entry = chat_name chat ||| id_user chat ||| "Unknown"
               ∧ fc_phoneNumber entry = id_user chat ||| ""
               ∧ fc_avatar entry = None)
          ∧ (∀ contact,
               race_timeout 5000 "Contact fetch timeout" (getContact chat) = Returns contact →
               avatar_fails contact → fc_avatar entry = None)
          ∧ (last_message_fails chat →
               fc_lastMessage entry = ""
               ∧ fc_lastMessageType entry = None
               ∧ fc_lastMessageImage entry = None
               ∧ fc_timestamp entry = "").
Proof.
  intros Hready Hchats.
  assert (∃ l, getChats (Some cl) = ([CallGetChats], Returns l)
             ∧ (chats = [] → l = []) ∧ l ≡ₚ formatChat <$> chats) as (l & Hrun & Hnil & Hperm).
  { unfold Gateway.getChats, waitUntilReady. rewrite Hready. simpl. rewrite Hchats. simpl.
    case_bool_decide as Hlen; simpl.
    - exists []. split; [done|]. split; [done|].
      destruct chats; [done | discriminate Hlen].
    - eexists. split; [reflexivity|]. split; [|apply sort_by_perm].
      intros ->. done. }
  exists l. split; [done|]. split; [done|]. split; [done|].
  split; [by rewrite Hperm, length_fmap|].
  intros chat Hin. exists (formatChat chat).
  split; [rewrite Hperm; by apply list_elem_of_fmap_2|].
  split; [done|]. split; [apply formatChat_id|].
  split; [apply formatChat_contact_fails|].
  split; [intros contact Hc Ha; by apply (formatChat_avatar_fails chat contact)|].
  apply formatChat_last_message_fails.
Qed.

End Listing.

Lemma getChats_degrades_per_entry_witness :
  ∃ l, getChats id_locale id_locale id_locale 1000000 (Some two_chat_client)
       = ([CallGetChats], Returns l)
    ∧ length l = 2.
Proof.
  destruct (getChats_degrades_per_entry id_locale id_locale id_locale 1000000
              two_chat_client [stuck_chat; flaky_chat] eq_refl eq_refl)
    as (l & Hrun & _ & _ & Hlen & _).
  exists l. split; [exact Hrun | exact Hlen].
Defined.

(** *** The scheduler and transport interference *)

Example connecting_reached :
  run backend_dir [Call Initialize "u1"; Settle 1 Fulfil] initial = Some connecting.
Proof. reflexivity. Qed.

Lemma insert_snoc {A} (l : list A) (x y : A) : <[length l := y]> (l ++ [x]) = l ++ [y].
Proof. rewrite insert_app_r_alt by lia. by rewrite Nat.sub_diag. Qed.

Lemma lookup_snoc {A} (l : list A) (x : A) : (l ++ [x]) !! length l = Some x.
Proof. rewrite lookup_app_r by lia. by rewrite Nat.sub_diag. Qed.

Lemma run_app d l1 l2 s : run d (l1 ++ l2) s = run d l1 s ≫= run d l2.
Proof.
  revert s. induction l1 as [|a l1 IH]; intros s; simpl; [done|].
  destruct (step d a s); simpl; [apply IH | done].
Qed.

Lemma run_cons_some d a l s s' :
  step d a s = Some s' → run d (a :: l) s = run d l s'.
Proof. intros H. simpl. by rewrite H. Qed.

Lemma run_settle_some d tid a l s s' :
  settle d tid a s = Some s' → run d (Settle tid a :: l) s = run d l s'.
Proof. intros H. by apply run_cons_some. Qed.

Lemma run_settle_last d tid a s s' :
  settle d tid a s = Some s' → run d [Settle tid a] s = Some s'.
Proof. intros H. by rewrite (run_settle_some d tid a [] s s' H). Qed.

Lemma run_app_some d l1 l2 s s' :
  run d l1 s = Some s' → run d (l1 ++ l2) s = run d l2 s'.
Proof. intros H. by rewrite run_app, H. Qed.

Lemma same_control_refl s : same_control s s.
Proof. split; try done. intros c [u h b] Hc. by exists b. Qed.

Lemma same_control_trans s1 s2 s3 :
  same_control s1 s2 → same_control s2 s3 → same_control s1 s3.
Proof.
  intros [] []. split; try congruence; [|by auto].
  intros c cl Hc. destruct (sc_clients0 c cl Hc) as [b Hb].
  destruct (sc_clients1 c _ Hb) as [b' Hb']. by exists b'.
Qed.

Lemma on_event_same_control u h ev s : same_control s (on_event u h ev s).
Proof.
  split; try by (destruct ev as [[?|]| | | |], h).
  - intros c [u' h' b] Hc. exists b. by destruct ev as [[?|]| | | |], h.
  - intros u' Hu'. destruct ev as [[?|]| | | |], h; simpl; try done;
      (destruct (decide (u = u')) as [->|]; [by rewrite lookup_delete_eq | by rewrite lookup_delete_ne]).
Qed.

Lemma emit_same_control c ev s : same_control s (emit c ev s).
Proof.
  unfold emit. destruct (clients s !! c); [apply on_event_same_control | apply same_control_refl].
Qed.

Lemma set_info_same_control c b s : same_control s (set_info c b s).
Proof.
  unfold set_info. split; try done; simpl.
  - destruct (clients s !! c); [by rewrite length_insert | done].
  - intros c' cl' Hc'. destruct (clients s !! c) as [cl|] eqn:Hc; [|destruct cl'; by eexists].
    destruct (decide (c = c')) as [->|Hne].
    + rewrite list_lookup_insert_eq by (by eapply lookup_lt_Some).
      exists b. congruence.
    + rewrite list_lookup_insert_ne by done. destruct cl'; by eexists.
Qed.

Lemma interference_nil : interference [].
Proof. constructor. Qed.

Lemma interference_cons a evs :
  is_transport a = true → interference evs → interference (a :: evs).
Proof. by constructor. Qed.

Lemma run_interference d evs s :
  interference evs → ∃ s', run d evs s = Some s' ∧ same_control s s'.
Proof.
  intros Hevs. revert s. induction Hevs as [|a evs Ha _ IH]; intros s.
  - exists s. split; [done | apply same_control_refl].
  - destruct a as [| |c ev|c b]; try discriminate Ha; simpl.
    + destruct (IH (emit c ev s)) as (s' & Hrun & Hsc). exists s'. split; [done|].
      eapply same_control_trans; [apply emit_same_control | done].
    + destruct (IH (set_info c b s)) as (s' & Hrun & Hsc). exists s'. split; [done|].
      eapply same_control_trans; [apply set_info_same_control | done].
Qed.

(** *** Restoring without credentials *)

(** C7.  With no client, no pending operation and no credential files for
    [u], [restoreWhatsAppSession] writes to none of the four maps and
    constructs no client, neither before nor after it awaits the file
    check, whatever else ran meanwhile; it resolves to [connected: false,
    hasSession: false]. *)
Theorem restore_without_credentials dirname u fs s :
  activeClients s !! u = None →
  initializingClients s !! u = None →
  hasSessionFiles dirname fs u = false →
  let tid := length (tasks s) in
  let s1 := call Restore u s in
  tasks s1 !! tid = Some (RestoreFiles u)
  ∧ registry s1 = registry s ∧ clients s1 = clients s
  ∧ (∀ s2, tasks s2 !! tid = Some (RestoreFiles u) →
       ∃ s3 r, settle dirname tid (Disk fs) s2 = Some s3
         ∧ outcome_of tid s3 = Some (Resolved r)
         ∧ r_connected r = false ∧ hasSession r = Some false
         ∧ registry s3 = registry s2 ∧ clients s3 = clients s2)
  ∧ (∃ s3, run dirname [Call Restore u; Settle tid (Disk fs)] s = Some s3
       ∧ outcome_of tid s3 = Some (Resolved res_no_session)
       ∧ registry s3 = registry s ∧ clients s3 = clients s).
Proof.
  intros Hactive Hpending Hfiles tid s1.
  assert (s1 = with_tasks (λ ts, ts ++ [RestoreFiles u]) s) as Hs1.
  { unfold s1, call, restoreWhatsAppSession. simpl. rewrite Hactive.
    unfold restore_pending_check. simpl. rewrite Hpending.
    unfold set_task, with_tasks. simpl. by rewrite insert_snoc. }
  assert (∀ s2, tasks s2 !! tid = Some (RestoreFiles u) →
            settle dirname tid (Disk fs) s2 = Some (set_task tid (Done (Resolved res_no_session)) s2))
    as Hstep.
  { intros s2 Htask. unfold settle. rewrite Htask.
    unfold restore_after_files. by rewrite Hfiles. }
  assert (∀ s2, tasks s2 !! tid = Some (RestoreFiles u) →
            outcome_of tid (set_task tid (Done (Resolved res_no_session)) s2)
            = Some (Resolved res_no_session)) as Hout.
  { intros s2 Htask. unfold outcome_of, set_task. simpl.
    rewrite list_lookup_insert_eq; [done | by eapply lookup_lt_Some]. }
  assert (tasks s1 !! tid = Some (RestoreFiles u)) as Htask1.
  { rewrite Hs1. simpl. apply lookup_snoc. }
  split; [done|]. split; [by rewrite Hs1|]. split; [by rewrite Hs1|]. split.
  - intros s2 Htask. eexists _, _. split; [by apply Hstep|].
    split; [by apply Hout|]. done.
  - eexists. split.
    + pose proof (Hstep s1 Htask1) as E. cbn [run step].
      unfold tid, s1 in E |- *. rewrite E. reflexivity.
    + split; [by apply Hout|]. fold s1. by rewrite Hs1.
Qed.

Lemma restore_without_credentials_witness :
  ∃ s3, run backend_dir [Call Restore "u1"; Settle 0 (Disk no_files)] initial = Some s3
    ∧ outcome_of 0 s3 = Some (Resolved res_no_session)
    ∧ registry s3 = registry initial ∧ clients s3 = clients initial.
Proof.
  exact (proj2 (proj2 (proj2 (proj2
    (restore_without_credentials backend_dir "u1" no_files initial
       eq_refl eq_refl eq_refl))))).
Defined.

(** *** Settlement of a pending operation *)

Lemma wake_tasks p o ts acc : (wake p o ts acc).1 = woken p o <$> ts.
Proof.
  revert acc. induction ts as [|t ts IH]; intros acc; [done|].
  simpl. destruct t; simpl;
    try (specialize (IH acc); destruct (wake p o ts acc); simpl in *; by f_equal).
  case_decide.
  - match goal with |- context [wake p o ts ?a] =>
      specialize (IH a); destruct (wake p o ts a) end. simpl in *. by f_equal.
  - specialize (IH acc); destruct (wake p o ts acc); simpl in *; by f_equal.
Qed.

(** Awaiters only ever delete from [initializingClients], and write to
    nothing else. *)
Lemma wake_frame p o ts acc :
  let acc' := (wake p o ts acc).2 in
  activeClients acc' = activeClients acc ∧ qrCodes acc' = qrCodes acc
  ∧ connectionStatus acc' = connectionStatus acc ∧ clients acc' = clients acc
  ∧ promises acc' = promises acc ∧ tasks acc' = tasks acc
  ∧ (∀ v, initializingClients acc !! v = None → initializingClients acc' !! v = None)
  ∧ (∀ v, initializingClients acc !! v = None →
       ∃ extra, pendingLog acc' = pendingLog acc ++ extra ∧ count_clears v extra = 0).
Proof.
  revert acc. induction ts as [|t ts IH]; intros acc; simpl.
  { repeat split; try done. intros v _. exists []. by rewrite app_nil_r. }
  assert (∀ a, (let acc' := (wake p o ts a).2 in
      activeClients acc' = activeClients acc ∧ qrCodes acc' = qrCodes acc
      ∧ connectionStatus acc' = connectionStatus acc ∧ clients acc' = clients acc
      ∧ promises acc' = promises acc ∧ tasks acc' = tasks acc
      ∧ (∀ v, initializingClients acc !! v = None → initializingClients acc' !! v = None)
      ∧ (∀ v, initializingClients acc !! v = None →
           ∃ extra, pendingLog acc' = pendingLog acc ++ extra ∧ count_clears v extra = 0)) →
    ∀ t', let acc' := (let '(r, acc'') := wake p o ts a in (t' :: r, acc'')).2 in
      activeClients acc' = activeClients acc ∧ qrCodes acc' = qrCodes acc
      ∧ connectionStatus acc' = connectionStatus acc ∧ clients acc' = clients acc
      ∧ promises acc' = promises acc ∧ tasks acc' = tasks acc
      ∧ (∀ v, initializingClients acc !! v = None → initializingClients acc' !! v = None)
      ∧ (∀ v, initializingClients acc !! v = None →
           ∃ extra, pendingLog acc' = pendingLog acc ++ extra ∧ count_clears v extra = 0)) as Hlift.
  { intros a Ha t'. by destruct (wake p o ts a). }
  assert (∀ u', let a := pending_delete SiteOuterCatch u' acc in
      let acc' := (wake p o ts a).2 in
      activeClients acc' = activeClients acc ∧ qrCodes acc' = qrCodes acc
      ∧ connectionStatus acc' = connectionStatus acc ∧ clients acc' = clients acc
      ∧ promises acc' = promises acc ∧ tasks acc' = tasks acc
      ∧ (∀ v, initializingClients acc !! v = None → initializingClients acc' !! v = None)
      ∧ (∀ v, initializingClients acc !! v = None →
           ∃ extra, pendingLog acc' = pendingLog acc ++ extra ∧ count_clears v extra = 0)) as Hdel.
  { intros u' a acc'. destruct (IH a) as (?&?&?&?&?&?&Hnone&Hlog).
    repeat split; try done.
    - intros v Hv. apply Hnone. unfold a. simpl.
      destruct (decide (u' = v)) as [->|]; [apply lookup_delete_eq | by rewrite lookup_delete_ne].
    - intros v Hv. destruct (Hlog v) as (extra & Hextra & Hcount).
      { unfold a. simpl.
        destruct (decide (u' = v)) as [->|]; [apply lookup_delete_eq | by rewrite lookup_delete_ne]. }
      eexists (_ :: extra). split.
      + fold acc' in Hextra. rewrite Hextra. unfold a. simpl. by rewrite <- app_assoc.
      + unfold count_clears in *. simpl.
        destruct (decide (u' = v)) as [->|Hne].
        * rewrite Hv. rewrite bool_decide_eq_false_2 by (by intros [? ?]). done.
        * rewrite (bool_decide_eq_false_2 (u' = v)) by done.
          by destruct (bool_decide (is_Some (initializingClients acc !! u'))). }
  destruct t; try (apply Hlift, IH).
  case_decide; [|apply Hlift, IH].
  destruct o as [r| |e]; [apply Hlift, IH | apply Hlift, IH |].
  apply Hlift. apply Hdel.
Qed.

Lemma complete_op_spec tid u p o s :
  let s' := complete_op tid u p o s in
  activeClients s' = activeClients s ∧ qrCodes s' = qrCodes s
  ∧ connectionStatus s' = connectionStatus s ∧ clients s' = clients s
  ∧ promises s' = <[p:=Some o]> (promises s)
  ∧ tasks s' = woken p o <$> <[tid:=Finished]> (tasks s)
  ∧ initializingClients s' !! u = None
  ∧ ∃ extra,
      pendingLog s'
      = pendingLog s
          ++ PDelete SiteFinally u (bool_decide (is_Some (initializingClients s !! u))) :: extra
      ∧ count_clears u extra = 0.
Proof.
  unfold complete_op.
  set (s3 := set_task tid Finished
               (with_promises (λ ps, <[p:=Some o]> ps) (pending_delete SiteFinally u s))).
  pose proof (wake_tasks p o (tasks s3) s3) as Hts.
  pose proof (wake_frame p o (tasks s3) s3) as Hfr.
  destruct (wake p o (tasks s3) s3) as [ts s4]. simpl in Hts, Hfr. simpl.
  destruct Hfr as (Ha & Hq & Hst & Hc & Hp & _ & Hnone & Hlog).
  assert (initializingClients s3 !! u = None) as Hu by apply lookup_delete_eq.
  repeat split; try done.
  - by apply Hnone.
  - destruct (Hlog u Hu) as (extra & Hextra & Hcount). exists extra. split; [|done].
    rewrite Hextra. simpl. by rewrite <- app_assoc.
Qed.

Lemma complete_op_wakes tid u p o s t v :
  tasks s !! t = Some (AwaitInit v p) → t ≠ tid →
  outcome_of t (complete_op tid u p o s) = Some o.
Proof.
  intros Ht Hne. unfold outcome_of.
  destruct (complete_op_spec tid u p o s) as (_&_&_&_&_&Hts&_). rewrite Hts.
  rewrite list_lookup_fmap, list_lookup_insert_ne, Ht by done. simpl.
  by rewrite decide_True.
Qed.

Lemma delete_sub {A} (m : gmap string A) u v x : delete u m !! v = Some x → m !! v = Some x.
Proof.
  destruct (decide (u = v)) as [->|]; [by rewrite lookup_delete_eq | by rewrite lookup_delete_ne].
Qed.

Lemma wake_pending_sub p o ts acc v q :
  initializingClients (wake p o ts acc).2 !! v = Some q →
  initializingClients acc !! v = Some q.
Proof.
  revert acc. induction ts as [|t ts IH]; intros acc; simpl; [done|].
  assert (∀ a t', initializingClients (let '(r, acc'') := wake p o ts a in (t' :: r, acc'')).2 !! v
                  = initializingClients (wake p o ts a).2 !! v) as Hlift.
  { intros a t'. by destruct (wake p o ts a). }
  destruct t; rewrite ?Hlift; try apply IH.
  case_decide; rewrite Hlift; [|apply IH].
  destruct o as [r| |e]; try apply IH.
  intros Hq. apply IH in Hq. simpl in Hq. by eapply delete_sub.
Qed.

Lemma complete_op_pending_sub tid u p o s v q :
  initializingClients (complete_op tid u p o s) !! v = Some q →
  initializingClients s !! v = Some q ∧ v ≠ u.
Proof.
  intros H. split.
  - unfold complete_op in H.
    set (s3 := set_task tid Finished
                 (with_promises (λ ps, <[p:=Some o]> ps) (pending_delete SiteFinally u s))) in *.
    pose proof (wake_pending_sub p o (tasks s3) s3 v q) as Hw.
    destruct (wake p o (tasks s3) s3) as [ts s4]. simpl in *.
    specialize (Hw H). by eapply delete_sub.
  - intros ->. destruct (complete_op_spec tid u p o s) as (_&_&_&_&_&_&Hn&_). congruence.
Qed.

(** *** A fresh initialization *)

Lemma call_initialize_fresh u s :
  init_guard u s = None → initializingClients s !! u = None →
  call Initialize u s
  = mkState (activeClients s) (qrCodes s) (connectionStatus s)
            (<[u:=length (promises s)]> (initializingClients s))
            (clients s) (promises s ++ [None])
            (tasks s ++ [AwaitInit u (length (promises s)); InitMkdir u (length (promises s))])
            (pendingLog s ++ [PSet u (length (promises s))]).
Proof.
  intros Hguard Hpending. unfold call, initializeWhatsApp.
  change (init_guard u (with_tasks (λ ts, ts ++ [Running]) s)) with (init_guard u s).
  rewrite Hguard. simpl. rewrite Hpending.
  unfold start_op, await_promise. simpl. rewrite lookup_snoc.
  unfold set_task, with_tasks. simpl. f_equal.
  rewrite insert_app_l by (rewrite length_app; simpl; lia).
  rewrite insert_snoc. by rewrite <- app_assoc.
Qed.

Lemma init_guard_no_client u s : activeClients s !! u = None → init_guard u s = None.
Proof. intros H. unfold init_guard. by rewrite H. Qed.

(** C6.  With no client and no pending operation for [u],
    [initializeWhatsApp] stores its pending operation; once the data
    directory exists it constructs one client carrying the five lifecycle
    callbacks, registers it with status [initializing] and calls
    [client.initialize()]; when that call resolves it returns
    [connected: false], whatever lifecycle events have or have not arrived:
    with none, the status is still [initializing] and the client is not
    ready.  The pairing code and the connected status show up afterwards
    through [getQRCode] and [getConnectionStatus]. *)
Theorem initialize_returns_before_handshake dirname u s evs1 evs2 :
  activeClients s !! u = None →
  initializingClients s !! u = None →
  interference evs1 → interference evs2 →
  let tid := length (tasks s) in
  let iife := S tid in
  let p := length (promises s) in
  let c := length (clients s) in
  ∃ s1 s2 s3,
    s1 = call Initialize u s
    ∧ initializingClients s1 !! u = Some p
    ∧ tasks s1 !! tid = Some (AwaitInit u p)
    ∧ tasks s1 !! iife = Some (InitMkdir u p)
    ∧ clients s1 = clients s
    ∧ run dirname (evs1 ++ [Settle iife Fulfil]) s1 = Some s2
    ∧ clients s2 !! c = Some (mkClient u InitHandlers false)
    ∧ length (clients s2) = S c
    ∧ activeClients s2 !! u = Some c
    ∧ connectionStatus s2 !! u = Some initializing
    ∧ tasks s2 !! iife = Some (InitConnect u p c)
    ∧ outcome_of tid s2 = None
    ∧ run dirname (evs2 ++ [Settle iife Fulfil]) s2 = Some s3
    ∧ outcome_of tid s3 = Some (Resolved res_waiting_for_qr)
    ∧ r_connected res_waiting_for_qr = false
    ∧ length (clients s3) = S c
    ∧ initializingClients s3 !! u = None
    ∧ (evs2 = [] → getConnectionStatus u s3 = initializing ∧ client_info s3 c = false)
    ∧ (∀ s4 b url, clients s4 !! c = Some (mkClient u InitHandlers b) → url ≠ "" →
         getQRCode u (emit c (EvQr (Some url)) s4) = Some url
         ∧ getConnectionStatus u (emit c (EvQr (Some url)) s4) = qr_ready
         ∧ getQRCode u (emit c EvReady s4) = None
         ∧ getConnectionStatus u (emit c EvReady s4) = connected).
Proof.
  intros Hactive Hpending Hevs1 Hevs2 tid iife p c.
  pose proof (call_initialize_fresh u s (init_guard_no_client u s Hactive) Hpending) as Hs1.
  set (s1 := call Initialize u s) in *.
  assert (tasks s1 !! tid = Some (AwaitInit u p) ∧ tasks s1 !! iife = Some (InitMkdir u p))
    as [Ht1 Hi1].
  { rewrite Hs1. simpl. split.
    - by rewrite lookup_app_r, Nat.sub_diag by (unfold tid; lia).
    - rewrite lookup_app_r by (unfold iife, tid; lia).
      by replace (iife - length (tasks s)) with 1 by (unfold iife, tid; lia). }
  destruct (run_interference dirname evs1 s1 Hevs1) as (s1' & Hrun1 & Hsc1).
  set (s2 := init_after_mkdir iife u p s1').
  assert (settle dirname iife Fulfil s1' = Some s2) as Hstep1.
  { unfold settle. by rewrite (sc_tasks _ _ Hsc1), Hi1. }
  assert (length (clients s1') = c) as Hlen1.
  { rewrite (sc_length _ _ Hsc1), Hs1. done. }
  assert (length (tasks s1') = S (S tid)) as Htl1.
  { rewrite (sc_tasks _ _ Hsc1), Hs1. simpl. rewrite length_app. simpl. unfold tid. lia. }
  assert (tasks s2 !! tid = Some (AwaitInit u p) ∧ tasks s2 !! iife = Some (InitConnect u p c))
    as [Ht2 Hi2].
  { unfold s2, init_after_mkdir. simpl. rewrite Hlen1. split.
    - rewrite list_lookup_insert_ne by (unfold iife; lia). by rewrite (sc_tasks _ _ Hsc1).
    - rewrite list_lookup_insert_eq; [done | unfold iife; lia]. }
  destruct (run_interference dirname evs2 s2 Hevs2) as (s2' & Hrun2 & Hsc2).
  set (s3 := init_after_connect iife u p s2').
  assert (settle dirname iife Fulfil s2' = Some s3) as Hstep2.
  { unfold settle. by rewrite (sc_tasks _ _ Hsc2), Hi2. }
  destruct (complete_op_spec iife u p (Resolved res_waiting_for_qr) s2')
    as (Ha3 & Hq3 & Hst3 & Hc3 & _ & _ & Hp3 & _).
  exists s1, s2, s3.
  split; [done|]. split; [rewrite Hs1; simpl; apply lookup_insert_eq|].
  split; [done|]. split; [done|]. split; [by rewrite Hs1|].
  split; [rewrite (run_app_some dirname _ _ _ _ Hrun1);
          by rewrite (run_settle_some dirname _ _ _ _ _ Hstep1)|].
  split; [unfold s2, init_after_mkdir; simpl; rewrite <- Hlen1; apply lookup_snoc|].
  split; [unfold s2, init_after_mkdir; simpl; rewrite length_app, Hlen1; simpl; lia|].
  split; [unfold s2, init_after_mkdir; simpl; rewrite Hlen1; apply lookup_insert_eq|].
  split; [unfold s2, init_after_mkdir; simpl; apply lookup_insert_eq|].
  split; [done|]. split; [unfold outcome_of; by rewrite Ht2|].
  split; [rewrite (run_app_some dirname _ _ _ _ Hrun2);
          by rewrite (run_settle_some dirname _ _ _ _ _ Hstep2)|].
  split.
  { apply (complete_op_wakes _ _ _ _ _ _ u); [|unfold iife; lia].
    by rewrite (sc_tasks _ _ Hsc2). }
  split; [done|].
  split.
  { unfold s3, init_after_connect. rewrite Hc3, (sc_length _ _ Hsc2).
    unfold s2, init_after_mkdir. simpl. rewrite length_app, Hlen1. simpl. lia. }
  split; [done|]. split.
  - intros ->. simpl in Hrun2. injection Hrun2 as <-.
    unfold getConnectionStatus, client_info, s3, init_after_connect.
    rewrite Hst3, Hc3. unfold s2, init_after_mkdir. simpl.
    rewrite lookup_insert_eq. rewrite <- Hlen1, lookup_snoc. done.
  - intros s4 b url Hc4 Hurl. unfold emit. rewrite Hc4. simpl.
    unfold getQRCode, getConnectionStatus. simpl.
    rewrite !lookup_insert_eq, lookup_delete_eq. simpl.
    by rewrite decide_False.
Qed.

Lemma initialize_returns_before_handshake_witness :
  ∃ s3, run backend_dir [Call Initialize "u1"; Settle 1 Fulfil; Settle 1 Fulfil] initial = Some s3
    ∧ outcome_of 0 s3 = Some (Resolved res_waiting_for_qr)
    ∧ getConnectionStatus "u1" s3 = initializing
    ∧ client_info s3 0 = false.
Proof.
  destruct (initialize_returns_before_handshake backend_dir "u1" initial [] []
              eq_refl eq_refl interference_nil interference_nil)
    as (s1 & s2 & s3 & -> & _ & _ & _ & _ & Hrun1 & _ & _ & _ & _ & _ & _ & Hrun2 & Ho
        & _ & _ & _ & Hquiet & _).
  exists s3. split.
  - simpl in Hrun1. cbn [run step]. destruct (settle backend_dir 1 Fulfil _) as [s|]; [|done].
    injection Hrun1 as ->. exact Hrun2.
  - split; [exact Ho|]. exact (Hquiet eq_refl).
Defined.

(** *** The pending operation is always cleared *)

Lemma count_finally_le u log : count_finally_clears u log ≤ count_clears u log.
Proof.
  unfold count_finally_clears, count_clears.
  induction log as [|w log IH]; simpl; [lia|].
  destruct w as [|site u' [|]]; simpl; try lia;
    destruct site; simpl; try lia; destruct (bool_decide (u' = u)); simpl; lia.
Qed.

Lemma in_flight_interference caller iife u p log s s' :
  same_control s s' → in_flight caller iife u p log s → in_flight caller iife u p log s'.
Proof.
  intros Hsc []. split; try done.
  - by rewrite (sc_tasks _ _ Hsc).
  - by rewrite (sc_pending _ _ Hsc).
  - by rewrite (sc_promises _ _ Hsc).
  - by rewrite (sc_log _ _ Hsc).
  - by rewrite (sc_tasks _ _ Hsc).
Qed.

(** Between its first and its last step the body writes to the client
    heap and to the three other maps only. *)
Lemma in_flight_body caller iife u p log s s' t :
  initializingClients s' = initializingClients s →
  promises s' = promises s →
  pendingLog s' = pendingLog s →
  tasks s' = tasks s →
  in_flight caller iife u p log s →
  in_flight caller iife u p log (set_task iife t s').
Proof.
  intros Hp Hpr Hl Ht []. split; simpl; try done.
  - rewrite list_lookup_insert_ne by done. by rewrite Ht.
  - by rewrite Hp.
  - by rewrite Hpr.
  - by rewrite Hl.
  - by rewrite length_insert, Ht.
Qed.

Lemma in_flight_task caller iife u p log s s' t :
  tasks s' = tasks s →
  in_flight caller iife u p log s →
  tasks (set_task iife t s') !! iife = Some t.
Proof.
  intros Ht []. simpl. rewrite list_lookup_insert_eq; [done | by rewrite Ht].
Qed.

(** The last step of the body, on every exit: the [finally] block removes
    the entry, and nothing else does. *)
Lemma in_flight_complete caller iife u p log o s s0 :
  initializingClients s0 = initializingClients s →
  pendingLog s0 = pendingLog s →
  tasks s0 = tasks s →
  in_flight caller iife u p log s →
  let s' := complete_op iife u p o s0 in
  outcome_of caller s' = Some o
  ∧ initializingClients s' !! u = None
  ∧ ∃ new, pendingLog s' = log ++ PSet u p :: new
      ∧ count_clears u new = 1 ∧ count_finally_clears u new = 1.
Proof.
  intros Hp Hl Ht [] s'.
  destruct (complete_op_spec iife u p o s0) as (_&_&_&_&_&_&Hnone&extra&Hlog&Hcount).
  split; [|split; [done|]].
  - apply (complete_op_wakes _ _ _ _ _ _ u); [by rewrite Ht | done].
  - exists (PDelete SiteFinally u true :: extra).
    split; [|split].
    + unfold s'. rewrite Hlog, Hl, if_log0, Hp, if_pending0.
      rewrite bool_decide_eq_true_2 by by eexists. by rewrite <- app_assoc.
    + unfold count_clears in *. simpl. rewrite bool_decide_eq_true_2 by done.
      simpl. by rewrite Hcount.
    + pose proof (count_finally_le u extra).
      unfold count_finally_clears in *. simpl. rewrite bool_decide_eq_true_2 by done.
      simpl. lia.
Qed.

Lemma call_initialize_in_flight u s :
  init_guard u s = None → initializingClients s !! u = None →
  in_flight (length (tasks s)) (S (length (tasks s))) u (length (promises s))
            (pendingLog s) (call Initialize u s)
  ∧ tasks (call Initialize u s) !! S (length (tasks s))
    = Some (InitMkdir u (length (promises s))).
Proof.
  intros Hg Hp. rewrite (call_initialize_fresh u s Hg Hp). split; [split|]; simpl.
  - by rewrite lookup_app_r, Nat.sub_diag by lia.
  - apply lookup_insert_eq.
  - apply lookup_snoc.
  - done.
  - lia.
  - rewrite length_app. simpl. lia.
  - rewrite lookup_app_r by lia. by replace (S (length (tasks s)) - length (tasks s)) with 1 by lia.
Qed.

Lemma restore_after_files_in_flight dirname tid u fs s :
  tasks s !! tid = Some (RestoreFiles u) →
  hasSessionFiles dirname fs u = true →
  settle dirname tid (Disk fs) s = Some (restore_after_files dirname tid u fs s)
  ∧ in_flight tid (length (tasks s)) u (length (promises s)) (pendingLog s)
              (restore_after_files dirname tid u fs s)
  ∧ tasks (restore_after_files dirname tid u fs s) !! length (tasks s)
    = Some (RestoreMkdir u (length (promises s)))
  ∧ clients (restore_after_files dirname tid u fs s) = clients s.
Proof.
  intros Ht Hfs. pose proof (lookup_lt_Some _ _ _ Ht) as Hlt.
  split; [unfold settle; by rewrite Ht|].
  unfold restore_after_files. rewrite Hfs.
  unfold start_op, await_promise. simpl. rewrite lookup_snoc. simpl.
  split; [split|split]; simpl.
  - rewrite list_lookup_insert_eq; [done | rewrite length_app; lia].
  - apply lookup_insert_eq.
  - apply lookup_snoc.
  - done.
  - lia.
  - rewrite length_insert, length_app. simpl. lia.
  - rewrite list_lookup_insert_ne by lia. apply lookup_snoc.
  - done.
Qed.

Section Exits.

Variable dirname : string.
Variables (caller iife : nat) (u : string) (p : nat) (log : list PendingWrite).

Lemma init_exits x evs1 evs2 s :
  interference evs1 → interference evs2 →
  in_flight caller iife u p log s →
  tasks s !! iife = Some (InitMkdir u p) →
  ∃ s', run dirname (init_path iife x evs1 evs2) s = Some s'
    ∧ outcome_of caller s' = Some (init_outcome x)
    ∧ initializingClients s' !! u = None
    ∧ length (clients s') = length (clients s) + (if x is MkdirFails _ then 0 else 1)
    ∧ ∃ new, pendingLog s' = log ++ PSet u p :: new
        ∧ count_clears u new = 1 ∧ count_finally_clears u new = 1.
Proof.
  intros Hevs1 Hevs2 Hfl Hi.
  destruct (run_interference dirname evs1 s Hevs1) as (s1 & Hrun1 & Hsc1).
  pose proof (in_flight_interference _ _ _ _ _ _ _ Hsc1 Hfl) as Hfl1.
  assert (tasks s1 !! iife = Some (InitMkdir u p)) as Hi1 by by rewrite (sc_tasks _ _ Hsc1).
  destruct x as [e|e|].
  - (* mkdir rejects *)
    exists (init_fail iife u p e s1). split.
    { simpl. rewrite (run_app_some dirname _ _ _ _ Hrun1).
      apply run_settle_last. unfold settle. by rewrite Hi1. }
    destruct (in_flight_complete caller iife u p log (Rejected e) s1 (init_catch u s1))
      as (Ho & Hn & Hlog); try done.
    split; [done|]. split; [done|]. split; [|done].
    destruct (complete_op_spec iife u p (Rejected e) (init_catch u s1)) as (_&_&_&Hc&_).
    unfold init_fail. rewrite Hc. simpl. rewrite (sc_length _ _ Hsc1). lia.
  - (* client.initialize() rejects *)
    set (s2 := init_after_mkdir iife u p s1).
    assert (in_flight caller iife u p log s2) as Hfl2
      by (by apply (in_flight_body _ _ _ _ _ s1)).
    assert (tasks s2 !! iife = Some (InitConnect u p (length (clients s1)))) as Hi2
      by (by apply (in_flight_task caller iife u p log s1)).
    destruct (run_interference dirname evs2 s2 Hevs2) as (s2' & Hrun2 & Hsc2).
    pose proof (in_flight_interference _ _ _ _ _ _ _ Hsc2 Hfl2) as Hfl2'.
    exists (init_fail iife u p e s2'). split.
    { simpl. rewrite (run_app_some dirname _ _ _ _ Hrun1).
      rewrite (run_settle_some dirname iife Fulfil _ s1 s2)
        by (unfold settle; by rewrite Hi1).
      rewrite (run_app_some dirname _ _ _ _ Hrun2).
      apply run_settle_last. unfold settle. by rewrite (sc_tasks _ _ Hsc2), Hi2. }
    destruct (in_flight_complete caller iife u p log (Rejected e) s2' (init_catch u s2'))
      as (Ho & Hn & Hlog); try done.
    split; [done|]. split; [done|]. split; [|done].
    destruct (complete_op_spec iife u p (Rejected e) (init_catch u s2')) as (_&_&_&Hc&_).
    unfold init_fail. rewrite Hc. simpl. rewrite (sc_length _ _ Hsc2).
    unfold s2, init_after_mkdir. simpl. rewrite length_app, (sc_length _ _ Hsc1). simpl. lia.
  - (* success *)
    set (s2 := init_after_mkdir iife u p s1).
    assert (in_flight caller iife u p log s2) as Hfl2
      by (by apply (in_flight_body _ _ _ _ _ s1)).
    assert (tasks s2 !! iife = Some (InitConnect u p (length (clients s1)))) as Hi2
      by (by apply (in_flight_task caller iife u p log s1)).
    destruct (run_interference dirname evs2 s2 Hevs2) as (s2' & Hrun2 & Hsc2).
    pose proof (in_flight_interference _ _ _ _ _ _ _ Hsc2 Hfl2) as Hfl2'.
    exists (init_after_connect iife u p s2'). split.
    { simpl. rewrite (run_app_some dirname _ _ _ _ Hrun1).
      rewrite (run_settle_some dirname iife Fulfil _ s1 s2)
        by (unfold settle; by rewrite Hi1).
      rewrite (run_app_some dirname _ _ _ _ Hrun2).
      apply run_settle_last. unfold settle. by rewrite (sc_tasks _ _ Hsc2), Hi2. }
    destruct (in_flight_complete caller iife u p log (Resolved res_waiting_for_qr) s2' s2')
      as (Ho & Hn & Hlog); try done.
    split; [done|]. split; [done|]. split; [|done].
    destruct (complete_op_spec iife u p (Resolved res_waiting_for_qr) s2') as (_&_&_&Hc&_).
    unfold init_after_connect. rewrite Hc, (sc_length _ _ Hsc2).
    unfold s2, init_after_mkdir. simpl. rewrite length_app, (sc_length _ _ Hsc1). simpl. lia.
Qed.

Lemma restore_exits x evs1 evs2 evs3 s :
  interference evs1 → interference evs2 → interference evs3 →
  in_flight caller iife u p log s →
  tasks s !! iife = Some (RestoreMkdir u p) →
  ∃ s' o, run dirname (restore_path iife x evs1 evs2 evs3) s = Some s'
    ∧ outcome_of caller s' = Some o ∧ restore_outcome x o
    ∧ initializingClients s' !! u = None
    ∧ length (clients s') = length (clients s) + (if x is MkdirFails _ then 0 else 1)
    ∧ ∃ new, pendingLog s' = log ++ PSet u p :: new
        ∧ count_clears u new = 1 ∧ count_finally_clears u new = 1.
Proof.
  intros Hevs1 Hevs2 Hevs3 Hfl Hi.
  destruct (run_interference dirname evs1 s Hevs1) as (s1 & Hrun1 & Hsc1).
  pose proof (in_flight_interference _ _ _ _ _ _ _ Hsc1 Hfl) as Hfl1.
  assert (tasks s1 !! iife = Some (RestoreMkdir u p)) as Hi1 by by rewrite (sc_tasks _ _ Hsc1).
  destruct x as [e|e|].
  - exists (restore_fail iife u p e s1), (Rejected e). split.
    { simpl. rewrite (run_app_some dirname _ _ _ _ Hrun1).
      apply run_settle_last. unfold settle. by rewrite Hi1. }
    destruct (in_flight_complete caller iife u p log (Rejected e) s1 (restore_catch u s1))
      as (Ho & Hn & Hlog); try done.
    split; [done|]. split; [done|]. split; [done|]. split; [|done].
    destruct (complete_op_spec iife u p (Rejected e) (restore_catch u s1)) as (_&_&_&Hc&_).
    unfold restore_fail. rewrite Hc. simpl. rewrite (sc_length _ _ Hsc1). lia.
  - set (s2 := restore_after_mkdir iife u p s1).
    assert (in_flight caller iife u p log s2) as Hfl2
      by (by apply (in_flight_body _ _ _ _ _ s1)).
    assert (tasks s2 !! iife = Some (RestoreConnect u p (length (clients s1)))) as Hi2
      by (by apply (in_flight_task caller iife u p log s1)).
    destruct (run_interference dirname evs2 s2 Hevs2) as (s2' & Hrun2 & Hsc2).
    pose proof (in_flight_interference _ _ _ _ _ _ _ Hsc2 Hfl2) as Hfl2'.
    exists (restore_fail iife u p e s2'), (Rejected e). split.
    { simpl. rewrite (run_app_some dirname _ _ _ _ Hrun1).
      rewrite (run_settle_some dirname iife Fulfil _ s1 s2)
        by (unfold settle; by rewrite Hi1).
      rewrite (run_app_some dirname _ _ _ _ Hrun2).
      apply run_settle_last. unfold settle. by rewrite (sc_tasks _ _ Hsc2), Hi2. }
    destruct (in_flight_complete caller iife u p log (Rejected e) s2' (restore_catch u s2'))
      as (Ho & Hn & Hlog); try done.
    split; [done|]. split; [done|]. split; [done|]. split; [|done].
    destruct (complete_op_spec iife u p (Rejected e) (restore_catch u s2')) as (_&_&_&Hc&_).
    unfold restore_fail. rewrite Hc. simpl. rewrite (sc_length _ _ Hsc2).
    unfold s2, restore_after_mkdir. simpl. rewrite length_app, (sc_length _ _ Hsc1). simpl. lia.
  - set (s2 := restore_after_mkdir iife u p s1).
    assert (in_flight caller iife u p log s2) as Hfl2
      by (by apply (in_flight_body _ _ _ _ _ s1)).
    assert (tasks s2 !! iife = Some (RestoreConnect u p (length (clients s1)))) as Hi2
      by (by apply (in_flight_task caller iife u p log s1)).
    destruct (run_interference dirname evs2 s2 Hevs2) as (s2' & Hrun2 & Hsc2).
    pose proof (in_flight_interference _ _ _ _ _ _ _ Hsc2 Hfl2) as Hfl2'.
    set (s3 := restore_after_connect iife u p (length (clients s1)) s2').
    assert (in_flight caller iife u p log s3) as Hfl3
      by (by apply (in_flight_body _ _ _ _ _ s2')).
    assert (tasks s3 !! iife = Some (RestoreSettle u p (length (clients s1)))) as Hi3
      by (by apply (in_flight_task caller iife u p log s2')).
    destruct (run_interference dirname evs3 s3 Hevs3) as (s3' & Hrun3 & Hsc3).
    pose proof (in_flight_interference _ _ _ _ _ _ _ Hsc3 Hfl3) as Hfl3'.
    assert (length (clients s3') = length (clients s) + 1) as Hlen.
    { rewrite (sc_length _ _ Hsc3). unfold s3, restore_after_connect. simpl.
      rewrite (sc_length _ _ Hsc2). unfold s2, restore_after_mkdir. simpl.
      rewrite length_app, (sc_length _ _ Hsc1). simpl. lia. }
    assert (run dirname (restore_path iife Completes evs1 evs2 evs3) s
            = Some (restore_after_settle iife u p (length (clients s1)) s3')) as Hrun.
    { simpl. rewrite (run_app_some dirname _ _ _ _ Hrun1).
      rewrite (run_settle_some dirname iife Fulfil _ s1 s2)
        by (unfold settle; by rewrite Hi1).
      rewrite (run_app_some dirname _ _ _ _ Hrun2).
      rewrite (run_settle_some dirname iife Fulfil _ s2' s3)
        by (unfold settle; by rewrite (sc_tasks _ _ Hsc2), Hi2).
      rewrite (run_app_some dirname _ _ _ _ Hrun3).
      apply run_settle_last. unfold settle. by rewrite (sc_tasks _ _ Hsc3), Hi3. }
    unfold restore_after_settle in *.
    destruct (client_info s3' (length (clients s1))).
    + eexists _, _. split; [exact Hrun|].
      destruct (in_flight_complete caller iife u p log (Resolved res_restored) s3'
                  (with_status (λ m, <[u:=connected]> m) s3'))
        as (Ho & Hn & Hlog); try done.
      split; [done|]. split; [by left|]. split; [done|]. split; [|done].
      destruct (complete_op_spec iife u p (Resolved res_restored)
                  (with_status (λ m, <[u:=connected]> m) s3')) as (_&_&_&Hc&_).
      by rewrite Hc.
    + eexists _, _. split; [exact Hrun|].
      destruct (in_flight_complete caller iife u p log (Resolved res_not_connected_yet) s3' s3')
        as (Ho & Hn & Hlog); try done.
      split; [done|]. split; [by right|]. split; [done|]. split; [|done].
      destruct (complete_op_spec iife u p (Resolved res_not_connected_yet) s3') as (_&_&_&Hc&_).
      by rewrite Hc.
Qed.

End Exits.


(** *** A stored pending operation has a body in flight *)

Lemma body_of_woken p o u t : body_of u t = true → woken p o t = t.
Proof. by destruct t. Qed.

Lemma body_of_inj u v t : body_of u t = true → body_of v t = true → u = v.
Proof.
  destruct t; simpl; try done; intros Hu Hv;
    apply bool_decide_eq_true in Hu; apply bool_decide_eq_true in Hv; congruence.
Qed.

(** A step that replaces one task which is no body, and stores nothing. *)
Lemma owned_set_task s s' tid told tnew :
  tasks s !! tid = Some told →
  (∀ u, body_of u told = true → body_of u tnew = true) →
  tasks s' = <[tid:=tnew]> (tasks s) →
  (∀ u, is_Some (initializingClients s' !! u) → is_Some (initializingClients s !! u)) →
  pending_owned s → pending_owned s'.
Proof.
  intros Hold Hbody Hts Hsub Hown u Hu.
  destruct (Hown u (Hsub u Hu)) as (i & t & Hi & Ht).
  destruct (decide (i = tid)) as [->|Hne].
  - exists tid, tnew. rewrite Hts. split.
    + apply list_lookup_insert_eq. by eapply lookup_lt_Some.
    + apply Hbody. congruence.
  - exists i, t. rewrite Hts. by rewrite list_lookup_insert_ne.
Qed.

Lemma await_promise_owned tid u p s told :
  tasks s !! tid = Some told → (∀ v, body_of v told = false) →
  pending_owned s → pending_owned (await_promise tid u p s).
Proof.
  intros Hold Hnb Hown. unfold await_promise.
  assert (∀ tnew s0, tasks s0 = tasks s →
            (∀ v, is_Some (initializingClients s0 !! v) → is_Some (initializingClients s !! v)) →
            pending_owned (set_task tid tnew s0)) as Hset.
  { intros tnew s0 Hts Hsub. apply (owned_set_task s _ tid told tnew); try done.
    - intros v Hv. by rewrite Hnb in Hv.
    - simpl. by rewrite Hts. }
  destruct (promises s !! p) as [[[r| |e]|]|]; apply Hset; try done.
  simpl. intros v. destruct (decide (u = v)) as [->|Hne].
  - rewrite lookup_delete_eq. by intros [? ?].
  - by rewrite lookup_delete_ne.
Qed.

Lemma start_op_owned body tid u s told :
  tasks s !! tid = Some told → (∀ v, body_of v told = false) →
  (∀ p, body_of u (body u p) = true) →
  pending_owned s → pending_owned (start_op body tid u s).
Proof.
  intros Hold Hnb Hbody Hown. unfold start_op, await_promise. simpl.
  rewrite lookup_snoc. pose proof (lookup_lt_Some _ _ _ Hold) as Hlt.
  intros v Hv. simpl in *. destruct (decide (u = v)) as [->|Hne].
  - exists (length (tasks s)), (body v (length (promises s))). split; [|done].
    rewrite list_lookup_insert_ne by lia. apply lookup_snoc.
  - rewrite lookup_insert_ne in Hv by done.
    destruct (Hown v Hv) as (i & t & Hi & Ht). exists i, t. split; [|done].
    assert (i ≠ tid) by (intros ->; rewrite Hold in Hi; injection Hi as <-; by rewrite Hnb in Ht).
    rewrite list_lookup_insert_ne by done.
    rewrite lookup_app_l; [done | by eapply lookup_lt_Some].
Qed.

Lemma complete_op_owned tid u p o s s0 told :
  tasks s !! tid = Some told → body_of u told = true →
  tasks s0 = tasks s → initializingClients s0 = initializingClients s →
  pending_owned s → pending_owned (complete_op tid u p o s0).
Proof.
  intros Hold Hbody Hts Hp Hown v Hv.
  destruct (complete_op_spec tid u p o s0) as (_&_&_&_&_&Htasks&Hnone&_).
  assert (v ≠ u) as Hne by (intros ->; rewrite Hnone in Hv; by destruct Hv).
  assert (is_Some (initializingClients s !! v)) as Hv0.
  { rewrite <- Hp. destruct (initializingClients s0 !! v) eqn:E; [by eexists|].
    exfalso. unfold complete_op in Hv.
    set (s3 := set_task tid Finished
                 (with_promises (λ ps, <[p:=Some o]> ps) (pending_delete SiteFinally u s0))) in *.
    pose proof (wake_frame p o (tasks s3) s3) as Hfr.
    destruct (wake p o (tasks s3) s3) as [ts s4]. simpl in Hfr, Hv.
    destruct Hfr as (_&_&_&_&_&_&Hkeep&_).
    rewrite Hkeep in Hv; [by destruct Hv|].
    unfold s3. simpl. by rewrite lookup_delete_ne. }
  destruct (Hown v Hv0) as (i & t & Hi & Ht). exists i, t. split; [|done].
  assert (i ≠ tid).
  { intros ->. rewrite Hold in Hi. injection Hi as <-.
    by pose proof (body_of_inj _ _ _ Hbody Ht). }
  rewrite Htasks, list_lookup_fmap, list_lookup_insert_ne, Hts, Hi by done.
  simpl. by rewrite (body_of_woken p o v t Ht).
Qed.

Lemma call_owned op u s : pending_owned s → pending_owned (call op u s).
Proof.
  intros Hown. unfold call.
  set (tid := length (tasks s)).
  set (s0 := with_tasks (λ ts, ts ++ [Running]) s).
  assert (tasks s0 !! tid = Some Running) as Ht0 by apply lookup_snoc.
  assert (pending_owned s0) as Hown0.
  { intros v Hv. destruct (Hown v Hv) as (i & t & Hi & Ht). exists i, t. split; [|done].
    simpl. rewrite lookup_app_l; [done | by eapply lookup_lt_Some]. }
  assert (∀ tnew s1, tasks s1 = tasks s0 →
            (∀ v, is_Some (initializingClients s1 !! v) → is_Some (initializingClients s0 !! v)) →
            pending_owned (set_task tid tnew s1)) as Hset.
  { intros tnew s1 Hts Hsub. apply (owned_set_task s0 _ tid Running tnew); try done.
    simpl. by rewrite Hts. }
  assert (∀ s1, pending_owned s1 → tasks s1 !! tid = Some Running →
            pending_owned (restore_pending_check tid u s1)) as Hcheck.
  { intros s1 Hown1 Ht1. unfold restore_pending_check.
    destruct (initializingClients s1 !! u).
    - by apply (await_promise_owned _ _ _ _ Running).
    - apply (owned_set_task s1 _ tid Running (RestoreFiles u)); done. }
  clearbody s0. destruct op.
  - unfold initializeWhatsApp. destruct (init_guard u s0); [by apply Hset|].
    destruct (initializingClients s0 !! u).
    + by apply (await_promise_owned _ _ _ _ Running).
    + apply (start_op_owned _ _ _ _ Running); try done.
      intros p. simpl. by rewrite bool_decide_eq_true_2.
  - unfold restoreWhatsAppSession.
    destruct (activeClients s0 !! u) as [c|]; [|by apply Hcheck].
    destruct (client_info s0 c); [by apply Hset|].
    destruct (connectionStatus s0 !! u) as [[]|]; try (by apply Hcheck); by apply Hset.
  - unfold disconnectWhatsApp.
    assert (∀ v, is_Some (initializingClients (pending_delete SiteDisconnect u s0) !! v)
                 → is_Some (initializingClients s0 !! v)) as Hsub.
    { intros v. simpl. destruct (decide (u = v)) as [->|Hne].
      - rewrite lookup_delete_eq. by intros [? ?].
      - by rewrite lookup_delete_ne. }
    destruct (activeClients (pending_delete SiteDisconnect u s0) !! u); by apply Hset.
Qed.

Lemma settle_owned d tid a s s' :
  settle d tid a s = Some s' → pending_owned s → pending_owned s'.
Proof.
  unfold settle. intros Hstep Hown.
  destruct (tasks s !! tid) as [told|] eqn:Hold; [|done].
  assert (∀ tnew s1, tasks s1 = tasks s → initializingClients s1 = initializingClients s →
            (∀ u, body_of u told = true → body_of u tnew = true) →
            pending_owned (set_task tid tnew s1)) as Hset.
  { intros tnew s1 Hts Hp Hbody. apply (owned_set_task s _ tid told tnew); try done.
    - simpl. by rewrite Hts.
    - intros v. simpl. by rewrite Hp. }
  assert (∀ u p o s0, body_of u told = true → tasks s0 = tasks s →
            initializingClients s0 = initializingClients s →
            pending_owned (complete_op tid u p o s0)) as Hcomplete.
  { intros u p o s0 Hb Hts Hp. by apply (complete_op_owned _ _ _ _ s _ told). }
  destruct told; try done; destruct a; try done; injection Hstep as <-.
  - by apply Hset.
  - apply Hcomplete; try done. simpl. by rewrite bool_decide_eq_true_2.
  - apply Hcomplete; try done. simpl. by rewrite bool_decide_eq_true_2.
  - apply Hcomplete; try done. simpl. by rewrite bool_decide_eq_true_2.
  - by apply Hset.
  - apply Hcomplete; try done. simpl. by rewrite bool_decide_eq_true_2.
  - by apply Hset.
  - apply Hcomplete; try done. simpl. by rewrite bool_decide_eq_true_2.
  - unfold restore_after_settle. destruct (client_info s c);
      apply Hcomplete; try done; simpl; by rewrite bool_decide_eq_true_2.
  - unfold restore_after_recheck. destruct (client_info s c); [by apply Hset|].
    unfold restore_pending_check. destruct (initializingClients s !! u).
    + by apply (await_promise_owned _ _ _ _ (RestoreRecheck u c)).
    + by apply Hset.
  - unfold restore_after_files. destruct (hasSessionFiles d fs u); [|by apply Hset].
    apply (start_op_owned _ _ _ _ (RestoreFiles u)); try done.
    intros p. simpl. by rewrite bool_decide_eq_true_2.
  - by apply Hset.
  - by apply Hset.
  - by apply Hset.
  - by apply Hset.
Qed.

Lemma same_control_owned s s' : same_control s s' → pending_owned s → pending_owned s'.
Proof.
  intros Hsc Hown u Hu. rewrite (sc_pending _ _ Hsc) in Hu.
  destruct (Hown u Hu) as (i & t & Hi & Ht). exists i, t. by rewrite (sc_tasks _ _ Hsc).
Qed.

Lemma step_owned d a s s' : step d a s = Some s' → pending_owned s → pending_owned s'.
Proof.
  destruct a as [op u|tid a|c ev|c b]; simpl.
  - intros [= <-]. apply call_owned.
  - apply settle_owned.
  - intros [= <-]. apply same_control_owned, emit_same_control.
  - intros [= <-]. apply same_control_owned, set_info_same_control.
Qed.

Lemma reachable_owned d s : reachable d s → pending_owned s.
Proof.
  intros [acts Hrun].
  assert (pending_owned initial) as H0 by (intros u [? Hu]; simpl in Hu; by rewrite lookup_empty in Hu).
  revert H0 Hrun. generalize initial. induction acts as [|a acts IH]; intros s0 H0; simpl.
  - by intros [= <-].
  - destruct (step d a s0) as [s1|] eqn:E; [|done].
    apply IH. by eapply step_owned.
Qed.
(** Whenever a body ends, in whatever state, its [finally] block leaves no
    entry for its user. *)
Lemma body_end_clears dirname u s tid a t s1 :
  tasks s !! tid = Some t → body_of u t = true →
  settle dirname tid a s = Some s1 → tasks s1 !! tid = Some Finished →
  initializingClients s1 !! u = None.
Proof.
  intros Ht Hb Hstep Hfin. pose proof (lookup_lt_Some _ _ _ Ht) as Hlt.
  unfold settle in Hstep. rewrite Ht in Hstep.
  assert (∀ p o s0, initializingClients (complete_op tid u p o s0) !! u = None) as Hdone.
  { intros p o s0. by destruct (complete_op_spec tid u p o s0) as (_&_&_&_&_&_&Hn&_). }
  destruct t; try discriminate Hb; simpl in Hb; apply bool_decide_eq_true in Hb; subst u0;
    destruct a; try discriminate Hstep; injection Hstep as <-;
    try apply Hdone;
    try (simpl in Hfin; rewrite list_lookup_insert_eq in Hfin by done; discriminate Hfin).
  unfold restore_after_settle. destruct (client_info s c); apply Hdone.
Qed.

(** The [finally] block runs once at the end of a body, in whatever state:
    its deletion is the first write of the last step, it finds the entry
    of the user exactly when one is stored, and no later write of that
    step removes an entry of the user. *)
Lemma body_end_finally dirname u s tid a t s1 :
  tasks s !! tid = Some t → body_of u t = true →
  settle dirname tid a s = Some s1 → tasks s1 !! tid = Some Finished →
  ∃ extra,
    pendingLog s1
    = pendingLog s
        ++ PDelete SiteFinally u (bool_decide (is_Some (initializingClients s !! u))) :: extra
    ∧ count_clears u extra = 0.
Proof.
  intros Ht Hb Hstep Hfin. pose proof (lookup_lt_Some _ _ _ Ht) as Hlt.
  unfold settle in Hstep. rewrite Ht in Hstep.
  assert (∀ p o s0, pendingLog s0 = pendingLog s →
            initializingClients s0 = initializingClients s →
            ∃ extra,
              pendingLog (complete_op tid u p o s0)
              = pendingLog s
                  ++ PDelete SiteFinally u (bool_decide (is_Some (initializingClients s !! u)))
                  :: extra
              ∧ count_clears u extra = 0) as Hdone.
  { intros p o s0 Hl Hp.
    destruct (complete_op_spec tid u p o s0) as (_&_&_&_&_&_&_&extra&Hlog&Hc).
    exists extra. by rewrite Hlog, Hl, Hp. }
  destruct t; try discriminate Hb; simpl in Hb; apply bool_decide_eq_true in Hb; subst u0;
    destruct a; try discriminate Hstep; injection Hstep as <-;
    try (by apply Hdone);
    try (simpl in Hfin; rewrite list_lookup_insert_eq in Hfin by done; discriminate Hfin).
  unfold restore_after_settle. destruct (client_info s c); by apply Hdone.
Qed.

(** C8 (amended).  An execution of [initializeWhatsApp] or
    [restoreWhatsAppSession] that stores a pending operation for [u] and
    meets only transport activity before its body ends, ends on each exit
    of the body (directory creation fails, the connect call fails, or the
    body completes) with no entry left for [u]; the entry is removed
    exactly once, and by the [finally] block: of the deletions issued
    after the entry was stored exactly one finds it, the one in
    [finally].  Whatever else has run: whenever a body ends, in whatever
    state, its [finally] block issues its deletion once, removes the
    entry of its user if one is stored and leaves none; and in every
    reachable state an entry that is stored has such a body in flight, so
    that it cannot stay for good. *)
Theorem pending_entry_cleared_once dirname u s x evs1 evs2 evs3 :
  interference evs1 → interference evs2 → interference evs3 →
  (init_guard u s = None → initializingClients s !! u = None →
     ∃ s' new,
       run dirname (Call Initialize u :: init_path (S (length (tasks s))) x evs1 evs2) s = Some s'
       ∧ outcome_of (length (tasks s)) s' = Some (init_outcome x)
       ∧ initializingClients s' !! u = None
       ∧ pendingLog s' = pendingLog s ++ PSet u (length (promises s)) :: new
       ∧ count_clears u new = 1 ∧ count_finally_clears u new = 1)
  ∧ (∀ tid fs,
       tasks s !! tid = Some (RestoreFiles u) → hasSessionFiles dirname fs u = true →
       ∃ s' new o,
         run dirname (Settle tid (Disk fs) :: restore_path (length (tasks s)) x evs1 evs2 evs3) s
         = Some s'
         ∧ outcome_of tid s' = Some o ∧ restore_outcome x o
         ∧ initializingClients s' !! u = None
         ∧ pendingLog s' = pendingLog s ++ PSet u (length (promises s)) :: new
         ∧ count_clears u new = 1 ∧ count_finally_clears u new = 1)
  ∧ (∀ tid a t s1, tasks s !! tid = Some t → body_of u t = true →
       settle dirname tid a s = Some s1 → tasks s1 !! tid = Some Finished →
       initializingClients s1 !! u = None
       ∧ ∃ extra,
           pendingLog s1
           = pendingLog s
               ++ PDelete SiteFinally u (bool_decide (is_Some (initializingClients s !! u)))
               :: extra
           ∧ count_clears u extra = 0)
  ∧ (reachable dirname s → pending_owned s).
Proof.
  intros Hevs1 Hevs2 Hevs3.
  split; [|split; [|split; [|apply reachable_owned]]].
  - intros Hg Hp. destruct (call_initialize_in_flight u s Hg Hp) as [Hfl Hi].
    destruct (init_exits dirname _ _ _ _ _ x evs1 evs2 _ Hevs1 Hevs2 Hfl Hi)
      as (s' & Hrun & Ho & Hn & _ & new & Hlog & Hc & Hf).
    exists s', new. split; [|done].
    by rewrite (run_cons_some dirname (Call Initialize u) _ s _ eq_refl).
  - intros tid fs Ht Hfs.
    destruct (restore_after_files_in_flight dirname tid u fs s Ht Hfs) as (Hstep & Hfl & Hi & _).
    destruct (restore_exits dirname _ _ _ _ _ x evs1 evs2 evs3 _ Hevs1 Hevs2 Hevs3 Hfl Hi)
      as (s' & o & Hrun & Ho & Hro & Hn & _ & new & Hlog & Hc & Hf).
    exists s', new, o. split; [|done].
    by rewrite (run_settle_some dirname _ _ _ _ _ Hstep).
  - intros tid a t s1 Ht Hb Hstep Hfin.
    split; [exact (body_end_clears dirname u s tid a t s1 Ht Hb Hstep Hfin)|].
    exact (body_end_finally dirname u s tid a t s1 Ht Hb Hstep Hfin).
Qed.

Lemma pending_entry_cleared_once_witness :
  ∃ s' new,
    run backend_dir (Call Initialize "u1" :: init_path 1 (ConnectFails launch_error) [] []) initial
    = Some s'
    ∧ initializingClients s' !! "u1" = None
    ∧ pendingLog s' = [] ++ PSet "u1" 0 :: new
    ∧ count_clears "u1" new = 1 ∧ count_finally_clears "u1" new = 1.
Proof.
  destruct (pending_entry_cleared_once backend_dir "u1" initial (ConnectFails launch_error)
              [] [] [] interference_nil interference_nil interference_nil) as (Hinit & _).
  destruct (Hinit eq_refl eq_refl) as (s' & new & Hrun & _ & Hnone & Hlog & Hc & Hf).
  exists s', new. exact (conj Hrun (conj Hnone (conj Hlog (conj Hc Hf)))).
Defined.

(** C8, as stated, fails: [disconnectWhatsApp], called while the body of
    [initializeWhatsApp] awaits the creation of the data directory,
    removes the entry; the body then completes, and the deletion in its
    [finally] block finds nothing.  The entry was removed once, but not by
    the [finally] block. *)
Lemma finally_finds_entry_gone :
  ∃ s, run backend_dir disconnect_during_init initial = Some s
    ∧ outcome_of 0 s = Some (Resolved res_waiting_for_qr)
    ∧ tasks s !! 1 = Some Finished
    ∧ pendingLog s
      = [PSet "u1" 0; PDelete SiteDisconnect "u1" true; PDelete SiteFinally "u1" false]
    ∧ count_clears "u1" (pendingLog s) = 1
    ∧ count_finally_clears "u1" (pendingLog s) = 0.
Proof.
  eexists. split; [vm_compute; reflexivity|].
  repeat split; vm_compute; reflexivity.
Qed.

(** *** Two calls of initializeWhatsApp *)

Lemma init_guard_values u s r :
  init_guard u s = Some r → r = res_already_connected ∨ r = res_already_initializing.
Proof.
  unfold init_guard. destruct (activeClients s !! u) as [c|]; [|done].
  destruct (client_info s c); [intros [= <-]; by left|].
  destruct (connectionStatus s !! u) as [[]|]; try done; intros [= <-]; by right.
Qed.

Lemma call_initialize_guarded u s r :
  init_guard u s = Some r →
  call Initialize u s = with_tasks (λ ts, ts ++ [Done (Resolved r)]) s.
Proof.
  intros Hg. unfold call, initializeWhatsApp.
  change (init_guard u (with_tasks (λ ts, ts ++ [Running]) s)) with (init_guard u s).
  rewrite Hg. unfold set_task, with_tasks. simpl. by rewrite insert_snoc.
Qed.

Lemma call_initialize_joins u p s :
  init_guard u s = None →
  initializingClients s !! u = Some p → promises s !! p = Some None →
  call Initialize u s = with_tasks (λ ts, ts ++ [AwaitInit u p]) s.
Proof.
  intros Hg Hp Hpr. unfold call, initializeWhatsApp.
  change (init_guard u (with_tasks (λ ts, ts ++ [Running]) s)) with (init_guard u s).
  rewrite Hg. simpl. rewrite Hp. unfold await_promise. simpl. rewrite Hpr.
  unfold set_task, with_tasks. simpl. by rewrite insert_snoc.
Qed.

Lemma in_flight_snoc caller iife u p log s t :
  in_flight caller iife u p log s →
  in_flight caller iife u p log (with_tasks (λ ts, ts ++ [t]) s).
Proof.
  intros []. split; simpl; try done.
  - rewrite lookup_app_l; [done | by eapply lookup_lt_Some].
  - rewrite length_app. lia.
Qed.

(** A call that finds an operation pending constructs no client, in
    whatever state it arrives. *)
Lemma second_call_creates_no_client u s2 p :
  initializingClients s2 !! u = Some p → promises s2 !! p = Some None →
  clients (call Initialize u s2) = clients s2
  ∧ (outcome_of (length (tasks s2)) (call Initialize u s2)
       = Some (Resolved res_already_initializing)
     ∨ outcome_of (length (tasks s2)) (call Initialize u s2)
       = Some (Resolved res_already_connected)
     ∨ tasks (call Initialize u s2) !! length (tasks s2) = Some (AwaitInit u p)).
Proof.
  intros Hp Hpr. destruct (init_guard u s2) as [r|] eqn:Hg.
  - rewrite (call_initialize_guarded u s2 r Hg). split; [done|].
    unfold outcome_of. simpl. rewrite lookup_snoc.
    destruct (init_guard_values u s2 r Hg) as [-> | ->]; auto.
  - rewrite (call_initialize_joins u p s2 Hg Hp Hpr). split; [done|].
    right; right. simpl. apply lookup_snoc.
Qed.

Section TwoCalls.

Variable dirname : string.
Variables (u : string) (s : State).
Hypothesis no_client : activeClients s !! u = None.
Hypothesis no_pending : initializingClients s !! u = None.

Let first := length (tasks s).
Let iife := S first.
Let second := S iife.
Let p := length (promises s).

(** The state in which the first call has suspended, after any transport
    activity. *)
Lemma first_call_suspended evs0 :
  interference evs0 →
  ∃ s1, run dirname (Call Initialize u :: evs0) s = Some s1
    ∧ in_flight first iife u p (pendingLog s) s1
    ∧ tasks s1 !! iife = Some (InitMkdir u p)
    ∧ length (tasks s1) = second
    ∧ length (clients s1) = length (clients s)
    ∧ activeClients s1 !! u = None.
Proof.
  intros Hevs0.
  destruct (call_initialize_in_flight u s (init_guard_no_client u s no_client) no_pending)
    as [Hfl Hi].
  pose proof (call_initialize_fresh u s (init_guard_no_client u s no_client) no_pending) as Hs1.
  destruct (run_interference dirname evs0 (call Initialize u s) Hevs0) as (s1 & Hrun & Hsc).
  exists s1. split; [by rewrite (run_cons_some dirname (Call Initialize u) _ s _ eq_refl)|].
  split; [by eapply in_flight_interference|].
  split; [by rewrite (sc_tasks _ _ Hsc)|].
  split; [rewrite (sc_tasks _ _ Hsc), Hs1; simpl; rewrite length_app; simpl;
          unfold second, iife, first; lia|].
  split; [by rewrite (sc_length _ _ Hsc), Hs1|].
  apply (sc_active _ _ Hsc). by rewrite Hs1.
Qed.

(** The second call arrives while the first awaits [fs.mkdir]. *)
Lemma second_call_during_mkdir x evs0 evs1 evs2 :
  interference evs0 → interference evs1 → interference evs2 →
  ∃ s', run dirname (Call Initialize u :: evs0
                       ++ Call Initialize u :: init_path iife x evs1 evs2) s = Some s'
    ∧ outcome_of first s' = Some (init_outcome x)
    ∧ outcome_of second s' = Some (init_outcome x)
    ∧ length (clients s') = length (clients s) + (if x is MkdirFails _ then 0 else 1).
Proof.
  intros Hevs0 Hevs1 Hevs2.
  destruct (first_call_suspended evs0 Hevs0) as (s1 & Hrun1 & Hfl & Hi & Hlen & Hcl & Hact).
  pose proof (call_initialize_joins u p s1 (init_guard_no_client u s1 Hact)
                (if_pending _ _ _ _ _ _ Hfl) (if_promise _ _ _ _ _ _ Hfl)) as Hcall.
  set (s2 := with_tasks (λ ts, ts ++ [AwaitInit u p]) s1) in *.
  assert (in_flight first iife u p (pendingLog s) s2) as Hfl1 by by apply in_flight_snoc.
  assert (in_flight second iife u p (pendingLog s) s2) as Hfl2.
  { destruct Hfl1. split; try done; try (unfold second; lia).
    unfold s2. simpl. rewrite <- Hlen. apply lookup_snoc. }
  assert (tasks s2 !! iife = Some (InitMkdir u p)) as Hi2.
  { unfold s2. simpl. rewrite lookup_app_l; [done | by eapply lookup_lt_Some]. }
  destruct (init_exits dirname first iife u p _ x evs1 evs2 s2 Hevs1 Hevs2 Hfl1 Hi2)
    as (s' & Hrun & Ho1 & _ & Hclients & _).
  destruct (init_exits dirname second iife u p _ x evs1 evs2 s2 Hevs1 Hevs2 Hfl2 Hi2)
    as (s'' & Hrun' & Ho2 & _).
  rewrite Hrun in Hrun'. injection Hrun' as <-.
  exists s'. split.
  { change (Call Initialize u :: evs0 ++ Call Initialize u :: init_path iife x evs1 evs2)
      with ((Call Initialize u :: evs0) ++ Call Initialize u :: init_path iife x evs1 evs2).
    rewrite (run_app_some dirname _ _ _ _ Hrun1).
    rewrite (run_cons_some dirname (Call Initialize u) _ s1 s2); [done|].
    cbn [step]. by rewrite Hcall. }
  split; [done|]. split; [done|]. rewrite Hclients. unfold s2. simpl. by rewrite Hcl.
Qed.

(** The second call arrives after the client has been registered, while
    the first awaits [client.initialize()]. *)
Lemma second_call_during_connect y evs0 evs1 evs2 :
  settles y → interference evs0 → interference evs1 → interference evs2 →
  ∃ s2 s',
    run dirname (Call Initialize u :: evs0 ++ Settle iife Fulfil :: evs1 ++ [Call Initialize u]) s
    = Some s2
    ∧ length (clients s2) = length (clients s) + 1
    ∧ (outcome_of second s2 = Some (Resolved res_already_initializing)
       ∨ outcome_of second s2 = Some (Resolved res_already_connected)
       ∨ tasks s2 !! second = Some (AwaitInit u p))
    ∧ (evs1 = [] → outcome_of second s2 = Some (Resolved res_already_initializing))
    ∧ outcome_of first s2 = None
    ∧ run dirname (evs2 ++ [Settle iife y]) s2 = Some s'
    ∧ length (clients s') = length (clients s) + 1
    ∧ outcome_of first s' = Some (connect_outcome y)
    ∧ (tasks s2 !! second = Some (AwaitInit u p) →
         outcome_of second s' = Some (connect_outcome y))
    ∧ (∀ o, outcome_of second s2 = Some o → outcome_of second s' = Some o).
Proof.
  intros Hy Hevs0 Hevs1 Hevs2.
  destruct (first_call_suspended evs0 Hevs0) as (s1 & Hrun1 & Hfl & Hi & Hlen & Hcl & Hact).
  set (sa := init_after_mkdir iife u p s1).
  assert (in_flight first iife u p (pendingLog s) sa) as Hfla
    by (by apply (in_flight_body _ _ _ _ _ s1)).
  assert (tasks sa !! iife = Some (InitConnect u p (length (clients s1)))) as Hia
    by (by apply (in_flight_task first iife u p (pendingLog s) s1)).
  assert (settle dirname iife Fulfil s1 = Some sa) as Hstepa
    by (unfold settle; by rewrite Hi).
  destruct (run_interference dirname evs1 sa Hevs1) as (sb & Hrunb & Hscb).
  pose proof (in_flight_interference _ _ _ _ _ _ _ Hscb Hfla) as Hflb.
  assert (tasks sb !! iife = Some (InitConnect u p (length (clients s1)))) as Hib
    by by rewrite (sc_tasks _ _ Hscb).
  assert (length (tasks sb) = second) as Hlenb.
  { rewrite (sc_tasks _ _ Hscb). unfold sa, init_after_mkdir. simpl.
    by rewrite length_insert. }
  assert (length (clients sb) = length (clients s) + 1) as Hclb.
  { rewrite (sc_length _ _ Hscb). unfold sa, init_after_mkdir. simpl.
    rewrite length_app. simpl. lia. }
  (* the second call *)
  assert (∃ t, call Initialize u sb = with_tasks (λ ts, ts ++ [t]) sb
            ∧ (t = Done (Resolved res_already_initializing)
               ∨ t = Done (Resolved res_already_connected) ∨ t = AwaitInit u p)
            ∧ (evs1 = [] → t = Done (Resolved res_already_initializing)))
    as (t & Hcall & Ht & Hquiet).
  { destruct (init_guard u sb) as [r|] eqn:Hg.
    - exists (Done (Resolved r)). split; [by apply call_initialize_guarded|].
      split; [destruct (init_guard_values u sb r Hg) as [-> | ->]; auto|].
      intros ->. simpl in Hrunb. injection Hrunb as <-. revert Hg.
      unfold init_guard, client_info, sa, init_after_mkdir. simpl.
      rewrite !lookup_insert_eq, lookup_snoc. simpl. by intros [= <-].
    - exists (AwaitInit u p). split.
      + apply call_initialize_joins; [done | by destruct Hflb | by destruct Hflb].
      + split; [auto|].
        intros ->. simpl in Hrunb. injection Hrunb as <-. revert Hg.
        unfold init_guard, client_info, sa, init_after_mkdir. simpl.
        by rewrite !lookup_insert_eq, lookup_snoc. }
  set (s2 := with_tasks (λ ts, ts ++ [t]) sb) in *.
  assert (in_flight first iife u p (pendingLog s) s2) as Hfl2 by by apply in_flight_snoc.
  assert (tasks s2 !! iife = Some (InitConnect u p (length (clients s1)))) as Hi2.
  { unfold s2. simpl. rewrite lookup_app_l; [done | by eapply lookup_lt_Some]. }
  assert (tasks s2 !! second = Some t) as Hsecond.
  { unfold s2. simpl. rewrite <- Hlenb. apply lookup_snoc. }
  destruct (run_interference dirname evs2 s2 Hevs2) as (s3 & Hrun3 & Hsc3).
  pose proof (in_flight_interference _ _ _ _ _ _ _ Hsc3 Hfl2) as Hfl3.
  (* the settlement of client.initialize() *)
  set (s0 := match y with Reject _ => init_catch u s3 | _ => s3 end).
  set (s' := complete_op iife u p (connect_outcome y) s0).
  assert (settle dirname iife y s3 = Some s') as Hstep.
  { unfold settle. rewrite (sc_tasks _ _ Hsc3), Hi2. by destruct y. }
  assert (initializingClients s0 = initializingClients s3 ∧ pendingLog s0 = pendingLog s3
          ∧ tasks s0 = tasks s3 ∧ clients s0 = clients s3) as (Hp0 & Hl0 & Ht0 & Hc0)
    by (by destruct y).
  destruct (in_flight_complete first iife u p _ (connect_outcome y) s3 s0 Hp0 Hl0 Ht0 Hfl3)
    as (Ho1 & _).
  destruct (complete_op_spec iife u p (connect_outcome y) s0) as (_&_&_&Hc'&_&Hts'&_).
  assert (tasks s' !! second = Some (woken p (connect_outcome y) t)) as Hsecond'.
  { unfold s'. rewrite Hts', list_lookup_fmap, list_lookup_insert_ne by (unfold second; lia).
    by rewrite Ht0, (sc_tasks _ _ Hsc3), Hsecond. }
  exists s2, s'.
  split.
  { change (Call Initialize u :: evs0 ++ Settle iife Fulfil :: evs1 ++ [Call Initialize u])
      with ((Call Initialize u :: evs0) ++ Settle iife Fulfil :: evs1 ++ [Call Initialize u]).
    rewrite (run_app_some dirname _ _ _ _ Hrun1).
    rewrite (run_settle_some dirname _ _ _ _ _ Hstepa).
    rewrite (run_app_some dirname _ _ _ _ Hrunb).
    cbn [run step]. by rewrite Hcall. }
  split; [done|].
  split.
  { unfold outcome_of. rewrite Hsecond. destruct Ht as [->|[->| ->]]; auto. }
  split; [intros Hq; unfold outcome_of; by rewrite Hsecond, (Hquiet Hq)|].
  split; [unfold outcome_of; by rewrite (if_caller _ _ _ _ _ _ Hfl2)|].
  split; [rewrite (run_app_some dirname _ _ _ _ Hrun3); by apply run_settle_last|].
  split; [unfold s'; by rewrite Hc', Hc0, (sc_length _ _ Hsc3)|].
  split; [done|].
  split.
  - rewrite Hsecond. intros [= ->]. unfold outcome_of. rewrite Hsecond'. simpl.
    by rewrite decide_True.
  - intros o. unfold outcome_of. rewrite Hsecond, Hsecond'.
    destruct t; try done.
Qed.

End TwoCalls.

(** C1 (amended).  Let [u] have no client and no pending operation, and
    let [initializeWhatsApp(u)] be called twice, the second call arriving
    before the first has settled, with any transport activity in between.
    If the second call arrives while the first still awaits the creation
    of the data directory, it awaits the stored promise and both calls
    settle with the same outcome; one client is constructed when the
    directory is created and none when that fails.  If it arrives after
    the client has been registered, it constructs no client and either
    returns at once ("already initializing", or "already connected" when
    the client is ready) or awaits the stored promise; what it returned at
    once is unaffected by how the first call settles later.  In whatever
    state a call finds an operation pending for [u], it constructs no
    client. *)
Theorem initialize_twice_single_client dirname u s x y evs0 evs1 evs2 :
  activeClients s !! u = None →
  initializingClients s !! u = None →
  settles y → interference evs0 → interference evs1 → interference evs2 →
  let first := length (tasks s) in
  let iife := S first in
  let second := S iife in
  (∃ s', run dirname (Call Initialize u :: evs0
                        ++ Call Initialize u :: init_path iife x evs1 evs2) s = Some s'
     ∧ outcome_of first s' = Some (init_outcome x)
     ∧ outcome_of second s' = Some (init_outcome x)
     ∧ length (clients s') = length (clients s) + (if x is MkdirFails _ then 0 else 1))
  ∧ (∃ s2 s',
       run dirname (Call Initialize u :: evs0 ++ Settle iife Fulfil :: evs1 ++ [Call Initialize u]) s
       = Some s2
       ∧ length (clients s2) = length (clients s) + 1
       ∧ (outcome_of second s2 = Some (Resolved res_already_initializing)
          ∨ outcome_of second s2 = Some (Resolved res_already_connected)
          ∨ tasks s2 !! second = Some (AwaitInit u (length (promises s))))
       ∧ (evs1 = [] → outcome_of second s2 = Some (Resolved res_already_initializing))
       ∧ outcome_of first s2 = None
       ∧ run dirname (evs2 ++ [Settle iife y]) s2 = Some s'
       ∧ length (clients s') = length (clients s) + 1
       ∧ outcome_of first s' = Some (connect_outcome y)
       ∧ (tasks s2 !! second = Some (AwaitInit u (length (promises s))) →
            outcome_of second s' = Some (connect_outcome y))
       ∧ (∀ o, outcome_of second s2 = Some o → outcome_of second s' = Some o))
  ∧ (∀ s2 p, initializingClients s2 !! u = Some p → promises s2 !! p = Some None →
       clients (call Initialize u s2) = clients s2
       ∧ (outcome_of (length (tasks s2)) (call Initialize u s2)
            = Some (Resolved res_already_initializing)
          ∨ outcome_of (length (tasks s2)) (call Initialize u s2)
            = Some (Resolved res_already_connected)
          ∨ tasks (call Initialize u s2) !! length (tasks s2) = Some (AwaitInit u p))).
Proof.
  intros Hactive Hpending Hy Hevs0 Hevs1 Hevs2 first iife second. split; [|split].
  - by apply second_call_during_mkdir.
  - by apply second_call_during_connect.
  - by apply second_call_creates_no_client.
Qed.

Lemma initialize_twice_single_client_witness :
  ∃ s', run backend_dir (Call Initialize "u1" :: [] ++ Call Initialize "u1"
                           :: init_path 1 (ConnectFails launch_error) [] []) initial = Some s'
    ∧ outcome_of 0 s' = Some (Rejected launch_error)
    ∧ outcome_of 2 s' = Some (Rejected launch_error)
    ∧ length (clients s') = 1.
Proof.
  exact (proj1 (initialize_twice_single_client backend_dir "u1" initial
                  (ConnectFails launch_error) Fulfil [] [] []
                  eq_refl eq_refl I interference_nil interference_nil interference_nil)).
Defined.

(** C1, as stated, fails: the second call arrives after the client has
    been registered, is answered "already initializing" at once, and the
    first call then fails with the error of [client.initialize()]. *)
Lemma second_call_outcome_differs :
  ∃ s, run backend_dir init_twice_failing initial = Some s
    ∧ outcome_of 0 s = Some (Rejected launch_error)
    ∧ outcome_of 2 s = Some (Resolved res_already_initializing)
    ∧ outcome_of 0 s ≠ outcome_of 2 s
    ∧ length (clients s) = 1.
Proof.
  eexists. split; [vm_compute; reflexivity|].
  repeat split; try (vm_compute; reflexivity). vm_compute. discriminate.
Qed.

(** *** The pairing code and the status *)

Lemma qr_inv_status_other status qr u st :
  st ≠ qr_ready → qr_ready_has_code status qr → qr_ready_has_code (<[u:=st]> status) qr.
Proof.
  intros Hst Hinv v Hv. destruct (decide (u = v)) as [->|Hne].
  - rewrite lookup_insert_eq in Hv. congruence.
  - rewrite lookup_insert_ne in Hv by done. by apply Hinv.
Qed.

Lemma qr_inv_status_other_del status qr u st :
  st ≠ qr_ready → qr_ready_has_code status qr →
  qr_ready_has_code (<[u:=st]> status) (delete u qr).
Proof.
  intros Hst Hinv v Hv. destruct (decide (u = v)) as [->|Hne].
  - rewrite lookup_insert_eq in Hv. congruence.
  - rewrite lookup_insert_ne in Hv by done. rewrite lookup_delete_ne by done. by apply Hinv.
Qed.

Lemma qr_inv_delete_both status qr u :
  qr_ready_has_code status qr → qr_ready_has_code (delete u status) (delete u qr).
Proof.
  intros Hinv v Hv. destruct (decide (u = v)) as [->|Hne].
  - by rewrite lookup_delete_eq in Hv.
  - rewrite lookup_delete_ne in Hv by done. rewrite lookup_delete_ne by done. by apply Hinv.
Qed.

Lemma qr_inv_delete_status status qr u :
  qr_ready_has_code status qr → qr_ready_has_code (delete u status) qr.
Proof.
  intros Hinv v Hv. destruct (decide (u = v)) as [->|Hne].
  - by rewrite lookup_delete_eq in Hv.
  - rewrite lookup_delete_ne in Hv by done. by apply Hinv.
Qed.

Lemma qr_inv_code status qr u url :
  qr_ready_has_code status qr → qr_ready_has_code (<[u:=qr_ready]> status) (<[u:=url]> qr).
Proof.
  intros Hinv v Hv. destruct (decide (u = v)) as [->|Hne].
  - rewrite lookup_insert_eq. by eexists.
  - rewrite lookup_insert_ne in Hv by done. rewrite lookup_insert_ne by done. by apply Hinv.
Qed.

Lemma await_promise_session tid u p s :
  qrCodes (await_promise tid u p s) = qrCodes s
  ∧ connectionStatus (await_promise tid u p s) = connectionStatus s.
Proof.
  unfold await_promise. destruct (promises s !! p) as [[[]|]|]; done.
Qed.

Lemma start_op_session body tid u s :
  qrCodes (start_op body tid u s) = qrCodes s
  ∧ connectionStatus (start_op body tid u s) = connectionStatus s.
Proof. unfold start_op. by destruct (await_promise_session tid u (length (promises s))
  (pending_set u (length (promises s))
     (with_tasks (λ ts, ts ++ [body u (length (promises s))])
        (with_promises (λ ps, ps ++ [None]) s)))) as [-> ->]. Qed.

Lemma complete_op_inv tid u p o s :
  qr_ready_has_code (connectionStatus s) (qrCodes s) →
  qr_ready_has_code (connectionStatus (complete_op tid u p o s)) (qrCodes (complete_op tid u p o s)).
Proof.
  destruct (complete_op_spec tid u p o s) as (_ & Hq & Hst & _). by rewrite Hq, Hst.
Qed.

Lemma restore_pending_check_session tid u s :
  qrCodes (restore_pending_check tid u s) = qrCodes s
  ∧ connectionStatus (restore_pending_check tid u s) = connectionStatus s.
Proof.
  unfold restore_pending_check.
  destruct (initializingClients s !! u); [apply await_promise_session | done].
Qed.

Lemma call_inv op u s :
  qr_ready_has_code (connectionStatus s) (qrCodes s) →
  qr_ready_has_code (connectionStatus (call op u s)) (qrCodes (call op u s)).
Proof.
  intros Hinv. unfold call.
  set (s0 := with_tasks (λ ts, ts ++ [Running]) s).
  change (qr_ready_has_code (connectionStatus s0) (qrCodes s0)) in Hinv.
  clearbody s0. destruct op.
  - unfold initializeWhatsApp. destruct (init_guard u s0); [done|].
    destruct (initializingClients s0 !! u).
    + by destruct (await_promise_session (length (tasks s)) u n s0) as [-> ->].
    + by destruct (start_op_session InitMkdir (length (tasks s)) u s0) as [-> ->].
  - unfold restoreWhatsAppSession.
    destruct (restore_pending_check_session (length (tasks s)) u s0) as [Hq Hst].
    destruct (activeClients s0 !! u) as [c|]; [|by rewrite Hq, Hst].
    destruct (client_info s0 c); [done|].
    destruct (connectionStatus s0 !! u) as [[]|] eqn:E; try done; by rewrite Hq, Hst.
  - unfold disconnectWhatsApp. simpl.
    destruct (activeClients s0 !! u); [done|]. simpl. by apply qr_inv_delete_both.
Qed.

Lemma settle_inv d tid a s s' :
  settle d tid a s = Some s' →
  qr_ready_has_code (connectionStatus s) (qrCodes s) →
  qr_ready_has_code (connectionStatus s') (qrCodes s').
Proof.
  unfold settle. intros Hstep Hinv.
  destruct (tasks s !! tid) as [[]|]; try done; destruct a; try done;
    injection Hstep as <-.
  - simpl. by apply qr_inv_status_other.
  - apply complete_op_inv. simpl. by apply qr_inv_delete_both.
  - by apply complete_op_inv.
  - apply complete_op_inv. simpl. by apply qr_inv_delete_both.
  - simpl. by apply qr_inv_status_other.
  - apply complete_op_inv. simpl. by apply qr_inv_delete_status.
  - done.
  - apply complete_op_inv. simpl. by apply qr_inv_delete_status.
  - unfold restore_after_settle. destruct (client_info s c); apply complete_op_inv; [|done].
    simpl. by apply qr_inv_status_other.
  - unfold restore_after_recheck. destruct (client_info s c); [done|].
    by destruct (restore_pending_check_session tid u s) as [-> ->].
  - unfold restore_after_files. destruct (hasSessionFiles d fs u); [|done].
    by destruct (start_op_session RestoreMkdir tid u s) as [-> ->].
  - done.
  - done.
  - simpl. by apply qr_inv_delete_both.
  - simpl. by apply qr_inv_delete_both.
Qed.

Lemma on_event_inv u h ev s :
  qr_ready_has_code (connectionStatus s) (qrCodes s) →
  qr_ready_has_code (connectionStatus (on_event u h ev s)) (qrCodes (on_event u h ev s)).
Proof.
  intros Hinv. destruct ev as [[url|]| | | |], h; simpl; try done;
    first [ by apply qr_inv_code
          | by apply qr_inv_status_other_del
          | by apply qr_inv_status_other ].
Qed.

Lemma step_inv d a s s' :
  step d a s = Some s' →
  qr_ready_has_code (connectionStatus s) (qrCodes s) →
  qr_ready_has_code (connectionStatus s') (qrCodes s').
Proof.
  destruct a as [op u|tid a|c ev|c b]; simpl.
  - intros [= <-]. apply call_inv.
  - apply settle_inv.
  - intros [= <-]. unfold emit. destruct (clients s !! c); [apply on_event_inv | done].
  - by intros [= <-].
Qed.

Lemma run_inv d acts s s' :
  run d acts s = Some s' →
  qr_ready_has_code (connectionStatus s) (qrCodes s) →
  qr_ready_has_code (connectionStatus s') (qrCodes s').
Proof.
  revert s. induction acts as [|a acts IH]; intros s; simpl.
  - by intros [= <-].
  - destruct (step d a s) as [s1|] eqn:E; [|done].
    intros Hrun Hinv. apply (IH s1 Hrun). by eapply step_inv.
Qed.

(** C2 (amended).  In every reachable state a user whose status is
    [qr_ready] has a stored QR code.  The code is removed by the [ready],
    [auth_failure] and [disconnected] callbacks registered by
    [initializeWhatsApp] and by [disconnectWhatsApp]; the [authenticated]
    callback sets the status and leaves the code where it is. *)
Theorem qr_ready_implies_code dirname s :
  reachable dirname s →
  (∀ u, getConnectionStatus u s = qr_ready → is_Some (qrCodes s !! u))
  ∧ (∀ c u b, clients s !! c = Some (mkClient u InitHandlers b) →
       qrCodes (emit c EvReady s) !! u = None
       ∧ getConnectionStatus u (emit c EvReady s) = connected
       ∧ qrCodes (emit c EvAuthFailure s) !! u = None
       ∧ getConnectionStatus u (emit c EvAuthFailure s) = auth_failure
       ∧ qrCodes (emit c EvDisconnected s) !! u = None
       ∧ getConnectionStatus u (emit c EvDisconnected s) = disconnected
       ∧ qrCodes (emit c EvAuthenticated s) = qrCodes s
       ∧ getConnectionStatus u (emit c EvAuthenticated s) = authenticated)
  ∧ (∀ u tid, qrCodes (disconnect_finish tid u s) !! u = None
              ∧ getConnectionStatus u (disconnect_finish tid u s) = not_initialized).
Proof.
  intros [acts Hrun]. split; [|split].
  - intros u Hu. apply (run_inv dirname acts initial s Hrun); [by intros v Hv|].
    unfold getConnectionStatus in Hu.
    destruct (connectionStatus s !! u) as [st|]; simpl in Hu; by subst.
  - intros c u b Hc. unfold emit, getConnectionStatus. rewrite Hc. simpl.
    rewrite !lookup_delete_eq, !lookup_insert_eq. done.
  - intros u tid. unfold getConnectionStatus. simpl. by rewrite !lookup_delete_eq.
Qed.

Lemma qr_ready_implies_code_witness :
  ∃ s, run backend_dir scan_schedule initial = Some s
    ∧ (getConnectionStatus "u1" s = qr_ready → is_Some (qrCodes s !! "u1"))
    ∧ qrCodes (emit 0 EvReady s) !! "u1" = None.
Proof.
  destruct (run backend_dir scan_schedule initial) as [s|] eqn:Hrun; [|discriminate Hrun].
  exists s. split; [reflexivity|].
  destruct (qr_ready_implies_code backend_dir s (ex_intro _ scan_schedule Hrun))
    as (Hcode & Hclear & _).
  split; [apply Hcode|].
  assert (clients s !! 0 = Some (mkClient "u1" InitHandlers false)) as Hc.
  { vm_compute in Hrun. injection Hrun as <-. reflexivity. }
  exact (proj1 (Hclear 0 "u1" false Hc)).
Defined.

(** C2, as stated, fails: after the code has been issued and scanned, the
    [authenticated] event leaves user "u1" with status [authenticated] and
    the QR code still stored. *)
Lemma code_survives_authenticated :
  ¬ (∀ s, reachable backend_dir s → pairing_iff_qr_ready s).
Proof.
  intros H.
  destruct (run backend_dir scan_schedule initial) as [s|] eqn:Hrun; [|discriminate Hrun].
  specialize (H s (ex_intro _ scan_schedule Hrun) "u1").
  vm_compute in Hrun. injection Hrun as <-.
  destruct H as [H _]. discriminate H. by eexists.
Qed.

(** *** Restoring during a handshake *)

Lemma await_promise_frame tid u p s :
  clients (await_promise tid u p s) = clients s
  ∧ activeClients (await_promise tid u p s) = activeClients s
  ∧ qrCodes (await_promise tid u p s) = qrCodes s
  ∧ connectionStatus (await_promise tid u p s) = connectionStatus s.
Proof. unfold await_promise. destruct (promises s !! p) as [[[]|]|]; done. Qed.

(** C5 (amended).  When [u] has a client that is not ready and status
    [initializing] or [restoring], [restoreWhatsAppSession] first suspends
    on a 2000 ms timer, having written nothing.  When the timer fires, in
    whatever state: if the client is ready it resolves to [connected: true]
    and writes nothing; if not and an operation is pending for [u], it
    awaits that operation, writes nothing, and settles as that operation
    does; if not and nothing is pending, it checks the credential files
    and, finding none, resolves to [connected: false, hasSession: false]
    having constructed no client. *)
Theorem restore_mid_handshake dirname u c s :
  activeClients s !! u = Some c →
  client_info s c = false →
  (connectionStatus s !! u = Some initializing ∨ connectionStatus s !! u = Some restoring) →
  let tid := length (tasks s) in
  let s1 := call Restore u s in
  tasks s1 !! tid = Some (RestoreRecheck u c)
  ∧ timer_ms (RestoreRecheck u c) = Some 2000%Z
  ∧ registry s1 = registry s ∧ clients s1 = clients s
  ∧ ∀ s2, tasks s2 !! tid = Some (RestoreRecheck u c) →
      ∃ s3, settle dirname tid Fulfil s2 = Some s3
        ∧ clients s3 = clients s2
        ∧ activeClients s3 = activeClients s2 ∧ qrCodes s3 = qrCodes s2
        ∧ connectionStatus s3 = connectionStatus s2
        ∧ (client_info s2 c = true →
             outcome_of tid s3 = Some (Resolved res_restored_after_wait)
             ∧ registry s3 = registry s2)
        ∧ (client_info s2 c = false →
             ∀ p, initializingClients s2 !! u = Some p → promises s2 !! p = Some None →
               tasks s3 !! tid = Some (AwaitInit u p) ∧ registry s3 = registry s2
               ∧ ∀ iife v o s4, tasks s4 !! tid = Some (AwaitInit u p) → iife ≠ tid →
                   outcome_of tid (complete_op iife v p o s4) = Some o)
        ∧ (client_info s2 c = false → initializingClients s2 !! u = None →
             tasks s3 !! tid = Some (RestoreFiles u) ∧ registry s3 = registry s2
             ∧ ∀ fs s4, hasSessionFiles dirname fs u = false →
                 tasks s4 !! tid = Some (RestoreFiles u) →
                 ∃ s5, settle dirname tid (Disk fs) s4 = Some s5
                   ∧ outcome_of tid s5 = Some (Resolved res_no_session)
                   ∧ registry s5 = registry s4 ∧ clients s5 = clients s4).
Proof.
  intros Hactive Hinfo Hstatus tid s1.
  assert (s1 = with_tasks (λ ts, ts ++ [RestoreRecheck u c]) s) as Hs1.
  { unfold s1, call, restoreWhatsAppSession. simpl. rewrite Hactive.
    change (client_info (with_tasks (λ ts, ts ++ [Running]) s) c) with (client_info s c).
    rewrite Hinfo. unfold set_task, with_tasks. simpl.
    destruct Hstatus as [-> | ->]; by rewrite insert_snoc. }
  split; [rewrite Hs1; apply lookup_snoc|]. split; [done|].
  split; [by rewrite Hs1|]. split; [by rewrite Hs1|].
  intros s2 Ht2. pose proof (lookup_lt_Some _ _ _ Ht2) as Hlt.
  exists (restore_after_recheck tid u c s2).
  split; [unfold settle; by rewrite Ht2|].
  unfold restore_after_recheck, restore_pending_check.
  destruct (client_info s2 c) eqn:Hinfo2.
  { split; [done|]. split; [done|]. split; [done|]. split; [done|].
    split; [|split; intros [=]].
    intros _. split; [|done]. unfold outcome_of. simpl.
    by rewrite list_lookup_insert_eq. }
  destruct (initializingClients s2 !! u) as [p|] eqn:Hp.
  - destruct (await_promise_frame tid u p s2) as (Hc & Ha & Hq & Hst).
    split; [done|]. split; [done|]. split; [done|]. split; [done|].
    split; [intros [=]|]. split; [|intros _ [=]].
    intros _ p' [= <-] Hpr. unfold await_promise. rewrite Hpr.
    split; [simpl; by rewrite list_lookup_insert_eq|]. split; [done|].
    intros iife v o s4 Ht4 Hne. by apply (complete_op_wakes _ _ _ _ _ _ u).
  - split; [done|]. split; [done|]. split; [done|]. split; [done|].
    split; [intros [=]|]. split; [intros _ p' [=]|].
    intros _ _. split; [simpl; by rewrite list_lookup_insert_eq|]. split; [done|].
    intros fs s4 Hfs Ht4. exists (set_task tid (Done (Resolved res_no_session)) s4).
    split; [unfold settle; rewrite Ht4; unfold restore_after_files; by rewrite Hfs|].
    split; [|done]. unfold outcome_of. simpl.
    rewrite list_lookup_insert_eq; [done | by eapply lookup_lt_Some].
Qed.

Lemma restore_mid_handshake_witness :
  tasks (call Restore "u1" connecting) !! 2 = Some (RestoreRecheck "u1" 0)
  ∧ registry (call Restore "u1" connecting) = registry connecting
  ∧ clients (call Restore "u1" connecting) = clients connecting.
Proof.
  destruct (restore_mid_handshake backend_dir "u1" 0 connecting eq_refl eq_refl
              (or_introl eq_refl)) as (Ht & _ & Hreg & Hcl & _).
  exact (conj Ht (conj Hreg Hcl)).
Defined.

(** C5, as stated, fails twice.  A second restoration of a user whose
    first one returned "not connected yet" waits its 2 s, then, as no
    operation is pending and the credential files exist, constructs a
    second client for the same user.  And a restoration that waits for a
    pending [initializeWhatsApp] does not report a pending result when
    that operation fails: it throws the operation's error. *)
Lemma restore_mid_handshake_second_client :
  (∃ s s', run backend_dir slow_restore initial = Some s
     ∧ activeClients s !! "u1" = Some 0 ∧ client_info s 0 = false
     ∧ connectionStatus s !! "u1" = Some restoring
     ∧ length (clients s) = 1
     ∧ run backend_dir second_restore s = Some s'
     ∧ clients s' = [mkClient "u1" RestoreHandlers false; mkClient "u1" RestoreHandlers false]
     ∧ activeClients s' !! "u1" = Some 1)
  ∧ (∃ s, run backend_dir restore_during_failing_init initial = Some s
       ∧ outcome_of 2 s = Some (Rejected launch_error)).
Proof.
  split.
  - eexists _, _. split; [vm_compute; reflexivity|].
    repeat split; vm_compute; reflexivity.
  - eexists. split; [vm_compute; reflexivity|]. vm_compute. reflexivity.
Qed.

(** *** Disconnecting *)

Lemma disconnect_finish_cleared tid u s :
  initializingClients s !! u = None →
  tid < length (tasks s) →
  cleared u (disconnect_finish tid u s)
  ∧ outcome_of tid (disconnect_finish tid u s) = Some ResolvedVoid.
Proof.
  intros Hp Htid. unfold cleared, disconnect_finish, disconnect_cleanup, outcome_of. simpl.
  rewrite !lookup_delete_eq, list_lookup_insert_eq by done. done.
Qed.

Lemma disconnect_catch_cleared tid u e s :
  cleared u (disconnect_catch tid u e s)
  ∧ (tid < length (tasks s) → outcome_of tid (disconnect_catch tid u e s) = Some (Rejected e)).
Proof.
  unfold cleared, disconnect_catch, disconnect_cleanup, outcome_of. simpl.
  rewrite !lookup_delete_eq. repeat split; try done.
  intros Htid. by rewrite list_lookup_insert_eq.
Qed.

Lemma keeps_waiting_refl tid s : keeps_waiting tid s s.
Proof. split; auto. Qed.

Lemma keeps_waiting_trans tid s1 s2 s3 :
  keeps_waiting tid s1 s2 → keeps_waiting tid s2 s3 → keeps_waiting tid s1 s3.
Proof.
  intros [Ht1 Hp1 Hm1] [Ht2 Hp2 Hm2]. split.
  - intros t Ht Hd. apply Ht2; [by apply Ht1 | done].
  - lia.
  - intros v p Hv. destruct (Hm2 v p Hv) as [H|H]; [|right; lia].
    destruct (Hm1 v p H) as [H'|H']; [by left | by right].
Qed.

Lemma keeps_waiting_frame tid s s' :
  tasks s' = tasks s → promises s' = promises s →
  (∀ v p, initializingClients s' !! v = Some p → initializingClients s !! v = Some p) →
  keeps_waiting tid s s'.
Proof. intros Ht Hp Hm. split; [by rewrite Ht | by rewrite Hp | by left; apply Hm]. Qed.

Lemma keeps_waiting_set_task tid tid' t s :
  tid' ≠ tid → keeps_waiting tid s (set_task tid' t s).
Proof.
  intros Hne. split; simpl; [|done|by left].
  intros t0 Ht _. by rewrite list_lookup_insert_ne.
Qed.

Lemma keeps_waiting_await tid tid' u p s :
  tid' ≠ tid → keeps_waiting tid s (await_promise tid' u p s).
Proof.
  intros Hne. unfold await_promise.
  destruct (promises s !! p) as [[[]|]|]; try by apply keeps_waiting_set_task.
  eapply keeps_waiting_trans; [|by apply keeps_waiting_set_task].
  apply keeps_waiting_frame; try done. intros v q. apply delete_sub.
Qed.

Lemma keeps_waiting_start body tid tid' u s :
  tid' ≠ tid → keeps_waiting tid s (start_op body tid' u s).
Proof.
  intros Hne. unfold start_op.
  eapply keeps_waiting_trans; [|by apply keeps_waiting_await].
  split; simpl.
  - intros t Ht _. by rewrite lookup_app_l by (by eapply lookup_lt_Some).
  - rewrite length_app. lia.
  - intros v p. destruct (decide (u = v)) as [->|Hv].
    + rewrite lookup_insert_eq. intros [= <-]. by right.
    + rewrite lookup_insert_ne by done. by left.
Qed.

Lemma keeps_waiting_complete tid tid' u p o s0 s :
  tid' ≠ tid → tasks s0 = tasks s → promises s0 = promises s →
  initializingClients s0 = initializingClients s →
  keeps_waiting tid s (complete_op tid' u p o s0).
Proof.
  intros Hne Ht Hp Hm.
  destruct (complete_op_spec tid' u p o s0) as (_&_&_&_&Hps&Hts&_). split.
  - intros t Hlook Hd. rewrite Hts, list_lookup_fmap, list_lookup_insert_ne, Ht, Hlook by done.
    by destruct t.
  - by rewrite Hps, length_insert, Hp.
  - intros v q Hv. left. rewrite <- Hm. by eapply complete_op_pending_sub.
Qed.

Lemma keeps_waiting_pending_check tid tid' u s :
  tid' ≠ tid → keeps_waiting tid s (restore_pending_check tid' u s).
Proof.
  intros Hne. unfold restore_pending_check.
  destruct (initializingClients s !! u);
    [by apply keeps_waiting_await | by apply keeps_waiting_set_task].
Qed.

Lemma call_keeps_waiting tid op u s t :
  tasks s !! tid = Some t → keeps_waiting tid s (call op u s).
Proof.
  intros Ht. pose proof (lookup_lt_Some _ _ _ Ht) as Hlt.
  unfold call. set (s0 := with_tasks (λ ts, ts ++ [Running]) s).
  assert (keeps_waiting tid s s0) as H0.
  { split; simpl; [|done|by left]. intros t0 Ht0 _. by rewrite lookup_app_l. }
  assert (length (tasks s) ≠ tid) as Hne by lia.
  eapply keeps_waiting_trans; [exact H0|]. clearbody s0. revert Hne.
  generalize (length (tasks s)). intros tid' Hne. destruct op.
  - unfold initializeWhatsApp. destruct (init_guard u s0); [by apply keeps_waiting_set_task|].
    destruct (initializingClients s0 !! u);
      [by apply keeps_waiting_await | by apply keeps_waiting_start].
  - unfold restoreWhatsAppSession.
    destruct (activeClients s0 !! u) as [c|]; [|by apply keeps_waiting_pending_check].
    destruct (client_info s0 c); [by apply keeps_waiting_set_task|].
    destruct (connectionStatus s0 !! u) as [[]|];
      first [by apply keeps_waiting_set_task | by apply keeps_waiting_pending_check].
  - unfold disconnectWhatsApp.
    eapply keeps_waiting_trans.
    { apply (keeps_waiting_frame tid s0 (pending_delete SiteDisconnect u s0)); try done.
      intros v q. apply delete_sub. }
    simpl. destruct (activeClients s0 !! u); [by apply keeps_waiting_set_task|].
    unfold disconnect_finish.
    eapply keeps_waiting_trans; [|by apply keeps_waiting_set_task].
    by apply keeps_waiting_frame.
Qed.

Lemma settle_keeps_waiting d tid tid' a s s' :
  tid' ≠ tid → settle d tid' a s = Some s' → keeps_waiting tid s s'.
Proof.
  intros Hne. unfold settle. intros Hstep.
  destruct (tasks s !! tid') as [[]|]; try done; destruct a; try done;
    injection Hstep as <-;
    try (by apply keeps_waiting_complete);
    try (eapply keeps_waiting_trans; [|by apply keeps_waiting_set_task];
         by apply keeps_waiting_frame);
    try (by apply keeps_waiting_set_task).
  - unfold restore_after_settle. destruct (client_info s c); by apply keeps_waiting_complete.
  - unfold restore_after_recheck. destruct (client_info s c);
      [by apply keeps_waiting_set_task | by apply keeps_waiting_pending_check].
  - unfold restore_after_files. destruct (hasSessionFiles d fs u);
      [by apply keeps_waiting_start | by apply keeps_waiting_set_task].
Qed.

Lemma step_keeps_waiting d tid a s s' t :
  (∀ ans, a ≠ Settle tid ans) → tasks s !! tid = Some t →
  step d a s = Some s' → keeps_waiting tid s s'.
Proof.
  intros Ha Ht. destruct a as [op u|tid' a|c ev|c b]; simpl.
  - intros [= <-]. by eapply call_keeps_waiting.
  - apply settle_keeps_waiting. intros ->. by apply (Ha a).
  - intros [= <-]. pose proof (emit_same_control c ev s) as Hsc.
    apply keeps_waiting_frame; [apply Hsc | apply Hsc |]. by rewrite (sc_pending _ _ Hsc).
  - intros [= <-]. pose proof (set_info_same_control c b s) as Hsc.
    apply keeps_waiting_frame; [apply Hsc | apply Hsc |]. by rewrite (sc_pending _ _ Hsc).
Qed.

Lemma run_keeps_waiting d tid acts s s' t :
  leaves_waiting tid acts → tasks s !! tid = Some t → disc_task t = true →
  run d acts s = Some s' → keeps_waiting tid s s'.
Proof.
  intros Hacts. revert s. induction Hacts as [|a acts Ha _ IH]; intros s Ht Hd; simpl.
  - intros [= <-]. apply keeps_waiting_refl.
  - destruct (step d a s) as [s1|] eqn:E; [|done]. intros Hrun.
    pose proof (step_keeps_waiting d tid a s s1 t Ha Ht E) as H1.
    eapply keeps_waiting_trans; [exact H1|].
    apply IH; [|done|done]. by apply (kw_task _ _ _ H1).
Qed.

Lemma disconnect_any_schedule dirname u s c a1 a2 acts1 acts2 s1 :
  let tid := length (tasks s) in
  activeClients s !! u = Some c → settles a1 → settles a2 →
  leaves_waiting tid acts1 → leaves_waiting tid acts2 →
  run dirname acts1 (call Disconnect u s) = Some s1 →
  ∃ s2, settle dirname tid a1 s1 = Some s2
    ∧ ∀ s2', run dirname acts2 s2 = Some s2' →
        ∃ s3, settle dirname tid a2 s2' = Some s3
          ∧ activeClients s3 !! u = None ∧ qrCodes s3 !! u = None
          ∧ connectionStatus s3 !! u = None
          ∧ outcome_of tid s3 = Some ResolvedVoid
          ∧ ∀ p, initializingClients s3 !! u = Some p → length (promises s) ≤ p.
Proof.
  intros tid Hactive Ha1 Ha2 Hacts1 Hacts2 Hrun1.
  set (s0 := call Disconnect u s) in *.
  assert (tasks s0 !! tid = Some (DiscLogout u c) ∧ initializingClients s0 !! u = None
          ∧ promises s0 = promises s) as (Ht0 & Hp0 & Hpr0).
  { unfold s0, call, disconnectWhatsApp. simpl. rewrite Hactive. simpl.
    rewrite insert_snoc. split; [apply lookup_snoc | split; [apply lookup_delete_eq | done]]. }
  pose proof (run_keeps_waiting dirname tid acts1 s0 s1 _ Hacts1 Ht0 eq_refl Hrun1) as K1.
  pose proof (kw_task _ _ _ K1 _ Ht0 eq_refl) as Ht1.
  set (s2 := disconnect_after_logout tid u c s1).
  exists s2. split; [unfold settle; rewrite Ht1; by destruct a1|].
  assert (tasks s2 !! tid = Some (DiscDestroy u c)) as Ht2.
  { unfold s2, disconnect_after_logout. simpl.
    rewrite list_lookup_insert_eq; [done | by eapply lookup_lt_Some]. }
  intros s2' Hrun2.
  pose proof (run_keeps_waiting dirname tid acts2 s2 s2' _ Hacts2 Ht2 eq_refl Hrun2) as K2.
  pose proof (kw_task _ _ _ K2 _ Ht2 eq_refl) as Ht2'.
  exists (disconnect_finish tid u s2'). split; [unfold settle; rewrite Ht2'; by destruct a2|].
  unfold disconnect_finish, disconnect_cleanup, outcome_of. simpl.
  rewrite !lookup_delete_eq, list_lookup_insert_eq by (by eapply lookup_lt_Some).
  repeat split; try done.
  intros p Hp.
  destruct (kw_pending _ _ _ K2 u p Hp) as [H2|H2].
  - assert (initializingClients s1 !! u = Some p) as H1 by exact H2.
    destruct (kw_pending _ _ _ K1 u p H1) as [H0|H0]; [congruence | by rewrite <- Hpr0].
  - pose proof (kw_promises _ _ _ K1). rewrite <- Hpr0.
    assert (promises s2 = promises s1) as E by done. rewrite E in H2. lia.
Qed.

(** C10 (amended).  When [disconnectWhatsApp] settles, the client handle,
    the QR code and the status of [u] are gone, whatever ran while the
    call was waiting: at once if no client was registered, otherwise after
    [client.logout()] and [client.destroy()] have settled, each fulfilled
    or rejected.  The call then resolves; should the outer [catch] block
    run, it clears the four entries before it rethrows.  The pending
    operation is removed by the first step of the call and is not touched
    by the later ones: with only transport activity in between the four
    maps hold nothing for [u] when the call settles, and with any activity
    in between a pending operation found then is one started after the
    call. *)
Theorem disconnect_clears_registry dirname u s :
  let tid := length (tasks s) in
  (activeClients s !! u = None →
     cleared u (call Disconnect u s)
     ∧ outcome_of tid (call Disconnect u s) = Some ResolvedVoid)
  ∧ (∀ c a1 a2 evs1 evs2,
       activeClients s !! u = Some c →
       settles a1 → settles a2 → interference evs1 → interference evs2 →
       ∃ s', run dirname (Call Disconnect u :: evs1 ++ Settle tid a1 :: evs2 ++ [Settle tid a2]) s
             = Some s'
         ∧ cleared u s' ∧ outcome_of tid s' = Some ResolvedVoid)
  ∧ (∀ e s0, cleared u (disconnect_catch tid u e s0))
  ∧ initializingClients (call Disconnect u s) !! u = None
  ∧ (∀ c a2 s2, tasks s2 !! tid = Some (DiscDestroy u c) → settles a2 →
       ∃ s3, settle dirname tid a2 s2 = Some s3
         ∧ activeClients s3 !! u = None ∧ qrCodes s3 !! u = None
         ∧ connectionStatus s3 !! u = None
         ∧ initializingClients s3 = initializingClients s2
         ∧ outcome_of tid s3 = Some ResolvedVoid)
  ∧ (∀ c a1 a2 acts1 acts2 s1,
       activeClients s !! u = Some c → settles a1 → settles a2 →
       leaves_waiting tid acts1 → leaves_waiting tid acts2 →
       run dirname acts1 (call Disconnect u s) = Some s1 →
       ∃ s2, settle dirname tid a1 s1 = Some s2
         ∧ ∀ s2', run dirname acts2 s2 = Some s2' →
             ∃ s3, settle dirname tid a2 s2' = Some s3
               ∧ activeClients s3 !! u = None ∧ qrCodes s3 !! u = None
               ∧ connectionStatus s3 !! u = None
               ∧ outcome_of tid s3 = Some ResolvedVoid
               ∧ ∀ p, initializingClients s3 !! u = Some p → length (promises s) ≤ p).
Proof.
  intros tid. split; [|split; [|split; [|split; [|split]]]].
  - intros Hactive. unfold call, disconnectWhatsApp. simpl. rewrite Hactive.
    apply disconnect_finish_cleared; simpl.
    + apply lookup_delete_eq.
    + rewrite length_app. simpl. unfold tid. lia.
  - intros c a1 a2 evs1 evs2 Hactive Ha1 Ha2 Hevs1 Hevs2.
    set (s1 := call Disconnect u s).
    assert (tasks s1 !! tid = Some (DiscLogout u c) ∧ initializingClients s1 !! u = None)
      as [Ht1 Hp1].
    { unfold s1, call, disconnectWhatsApp. simpl. rewrite Hactive. simpl.
      rewrite insert_snoc. split; [apply lookup_snoc | apply lookup_delete_eq]. }
    destruct (run_interference dirname evs1 s1 Hevs1) as (s1' & Hrun1 & Hsc1).
    set (s2 := disconnect_after_logout tid u c s1').
    assert (settle dirname tid a1 s1' = Some s2) as Hstep1.
    { unfold settle. rewrite (sc_tasks _ _ Hsc1), Ht1. by destruct a1. }
    assert (tasks s2 !! tid = Some (DiscDestroy u c) ∧ initializingClients s2 !! u = None)
      as [Ht2 Hp2].
    { unfold s2, disconnect_after_logout. simpl. split.
      - rewrite list_lookup_insert_eq; [done|].
        rewrite (sc_tasks _ _ Hsc1). by eapply lookup_lt_Some.
      - by rewrite (sc_pending _ _ Hsc1). }
    destruct (run_interference dirname evs2 s2 Hevs2) as (s2' & Hrun2 & Hsc2).
    assert (settle dirname tid a2 s2' = Some (disconnect_finish tid u s2')) as Hstep2.
    { unfold settle. rewrite (sc_tasks _ _ Hsc2), Ht2. by destruct a2. }
    exists (disconnect_finish tid u s2'). split.
    + rewrite (run_cons_some dirname (Call Disconnect u) _ s s1 eq_refl).
      rewrite (run_app_some dirname _ _ _ _ Hrun1).
      rewrite (run_settle_some dirname _ _ _ _ _ Hstep1).
      rewrite (run_app_some dirname _ _ _ _ Hrun2).
      by rewrite (run_settle_some dirname _ _ _ _ _ Hstep2).
    + apply disconnect_finish_cleared.
      * by rewrite (sc_pending _ _ Hsc2).
      * rewrite (sc_tasks _ _ Hsc2). by eapply lookup_lt_Some.
  - intros e s0. apply disconnect_catch_cleared.
  - unfold call, disconnectWhatsApp. simpl.
    destruct (activeClients s !! u); simpl; apply lookup_delete_eq.
  - intros c a2 s2 Ht Ha2. exists (disconnect_finish tid u s2).
    split; [unfold settle; rewrite Ht; by destruct a2|].
    unfold disconnect_finish, disconnect_cleanup, outcome_of. simpl.
    rewrite !lookup_delete_eq, list_lookup_insert_eq by (by eapply lookup_lt_Some). done.
  - intros c a1 a2 acts1 acts2 s1. apply disconnect_any_schedule.
Qed.

Lemma disconnect_clears_registry_witness :
  ∃ s', run backend_dir (Call Disconnect "u1" :: [Emit 0 EvDisconnected]
                           ++ Settle 2 (Reject "logout failed") :: []
                           ++ [Settle 2 (Reject "destroy failed")]) connecting = Some s'
    ∧ cleared "u1" s' ∧ outcome_of 2 s' = Some ResolvedVoid.
Proof.
  destruct (disconnect_clears_registry backend_dir "u1" connecting) as (_ & H & _).
  apply (H 0 (Reject "logout failed") (Reject "destroy failed") [Emit 0 EvDisconnected] []);
    [reflexivity | exact I | exact I | | apply interference_nil].
  apply interference_cons; [reflexivity | apply interference_nil].
Defined.

(** C10, as stated, fails: [initializeWhatsApp], called for a session that
    had authenticated while [disconnectWhatsApp] awaits
    [client.destroy()], stores a new pending operation; when the
    disconnect call, task 2, settles, that entry is there. *)
Lemma pending_operation_outlives_disconnect :
  ∃ s, run backend_dir initialize_during_logout initial = Some s
    ∧ outcome_of 2 s = Some ResolvedVoid
    ∧ initializingClients s !! "u1" = Some 1
    ∧ ¬ cleared "u1" s.
Proof.
  eexists. split; [vm_compute; reflexivity|].
  split; [vm_compute; reflexivity|]. split; [vm_compute; reflexivity|].
  intros (_ & _ & _ & H). vm_compute in H. discriminate H.
Qed.

(** *** The order of the conversation list *)

Lemma insert_by_timestamp x l1 l2 :
  Forall (λ c, has_timestamp c = true) l1 → Forall (λ c, has_timestamp c = false) l2 →
  insert_by byTimestamp x (l1 ++ l2)
  = if has_timestamp x then x :: l1 ++ l2 else l1 ++ x :: l2.
Proof.
  intros H1 H2. induction H1 as [|y l1 Hy _ IH]; simpl.
  - destruct H2 as [|y l2 Hy _]; simpl; [by destruct (has_timestamp x)|].
    unfold byTimestamp, has_timestamp in *. rewrite Hy.
    by destruct (truthy (fc_timestamp x)).
  - rewrite IH. unfold byTimestamp, has_timestamp in *. rewrite Hy.
    by destruct (truthy (fc_timestamp x)).
Qed.

Lemma sort_by_timestamp l :
  sort_by byTimestamp l = List.filter has_timestamp l ++ List.filter no_timestamp l.
Proof.
  induction l as [|x l IH]; [done|].
  unfold sort_by in *. simpl. rewrite IH, insert_by_timestamp.
  - unfold no_timestamp. by destruct (has_timestamp x).
  - apply Forall_forall. intros c Hc. apply list_elem_of_In, List.filter_In in Hc. tauto.
  - apply Forall_forall. intros c Hc. apply list_elem_of_In, List.filter_In in Hc.
    unfold no_timestamp in Hc. by destruct (has_timestamp c), Hc.
Qed.

Lemma waitUntilReady_result m1 m2 cl :
  (waitUntilReady m1 cl).1 = (waitUntilReady m2 cl).1
  ∧ ((waitUntilReady m1 cl).2 = Returns tt ↔ (waitUntilReady m2 cl).2 = Returns tt).
Proof.
  unfold waitUntilReady. destruct (info_at cl 0); [by split|]. cbn [fst snd].
  split; [done|]. generalize (poll (info_at cl) 20 0). intros k.
  destruct (info_at cl k); split; congruence.
Qed.

Lemma or_else_nonempty a b : b ≠ "" → a ||| b ≠ "".
Proof.
  intros Hb. unfold or_else, truthy. case_bool_decide; simpl; done.
Qed.

Lemma lastMessageText_nonempty m : lastMessageText m ≠ "".
Proof.
  unfold lastMessageText.
  repeat case_bool_decide; try done; by apply or_else_nonempty.
Qed.

Section Previews.

Variable localeTime localeWeekday localeMonthDay : Z → string.
Variable now : Z.

Abbreviation formatChat := (formatChat localeTime localeWeekday localeMonthDay now).
Abbreviation getChats := (getChats localeTime localeWeekday localeMonthDay now).
Abbreviation formatTimestamp :=
  (formatTimestamp localeTime localeWeekday localeMonthDay now).

(** X1.  Whatever [getChats] returns is the transport's list of
    conversations, formatted, with the entries that have a timestamp
    first and the entries without one after them, each group in the
    transport's order: the comparator moves nothing else. *)
Theorem getChats_timestamped_first cl l :
  (getChats (Some cl)).2 = Returns l →
  ∃ chats, client_getChats cl = Returns chats
    ∧ l = List.filter has_timestamp (formatChat <$> chats)
          ++ List.filter no_timestamp (formatChat <$> chats).
Proof.
  unfold Gateway.getChats.
  destruct (waitUntilReady msg_not_ready_retry cl) as [t [[]|e]]; simpl; [|done].
  destruct (client_getChats cl) as [chats|e]; simpl; [|done].
  case_bool_decide as Hlen; simpl; intros [= <-]; exists chats; (split; [done|]).
  - by destruct chats.
  - apply sort_by_timestamp.
Qed.

(** X2.  Against the same client, [getChatCount] returns [n] exactly when
    [getChats] returns a list of [n] entries: the two wait for readiness
    alike, and no conversation is dropped or added by the formatting. *)
Theorem getChatCount_counts_getChats client n :
  (getChatCount client).2 = Returns n
  ↔ ∃ l, (getChats client).2 = Returns l ∧ length l = n.
Proof.
  destruct client as [cl|]; [|split; [intros [=] | intros (l & [=] & _)]].
  unfold getChatCount, Gateway.getChats.
  destruct (waitUntilReady_result msg_not_ready msg_not_ready_retry cl) as [_ [Hr1 Hr2]].
  destruct (waitUntilReady msg_not_ready cl) as [t1 [[]|e1]],
           (waitUntilReady msg_not_ready_retry cl) as [t2 [[]|e2]]; simpl in *.
  - destruct (client_getChats cl) as [chats|e]; simpl;
      [|split; [intros [=] | intros (l & [=] & _)]].
    case_bool_decide as Hlen; simpl.
    + split; [intros [= <-]; by exists [] | intros (l & [= <-] & <-); by rewrite Hlen].
    + split.
      * intros [= <-]. eexists. split; [done|].
        by rewrite sort_by_perm, length_fmap.
      * intros (l & [= <-] & <-). by rewrite sort_by_perm, length_fmap.
  - by specialize (Hr1 eq_refl).
  - by specialize (Hr2 eq_refl).
  - split; [intros [=] | intros (l & [=] & _)].
Qed.

Lemma diffDays_bounds msgDate :
  let age := Z.abs (now - msgDate) in
  (day_ms * (diffDays now msgDate - 1) < age ≤ day_ms * diffDays now msgDate)%Z.
Proof.
  intros age. unfold diffDays. fold age.
  assert (0 < day_ms)%Z as HD by done.
  pose proof (Z.mul_div_le (age + day_ms - 1) day_ms HD).
  pose proof (Z.mul_succ_div_gt (age + day_ms - 1) day_ms HD).
  lia.
Qed.

(** X3.  The timestamp of a conversation, by the distance in milliseconds
    between the clock and its last message: the time of day only when the
    distance is zero, "Yesterday" for every other distance up to 24 hours,
    the weekday up to six days, the month and day beyond. *)
Theorem formatTimestamp_thresholds m :
  let msgDate := (timestamp m * 1000)%Z in
  let age := Z.abs (now - msgDate) in
  formatTimestamp (Some m)
  = if (age =? 0)%Z then localeTime msgDate
    else if (age <=? day_ms)%Z then "Yesterday"
    else if (age <=? 6 * day_ms)%Z then localeWeekday msgDate
    else localeMonthDay msgDate.
Proof.
  intros msgDate age. unfold Gateway.formatTimestamp. fold msgDate.
  pose proof (diffDays_bounds msgDate) as Hb. simpl in Hb. fold age in Hb.
  assert (0 ≤ age)%Z by apply Z.abs_nonneg.
  assert (0 < day_ms)%Z as HD by done.
  set (d := diffDays now msgDate) in *.
  destruct (Z.eqb_spec age 0) as [H0|H0].
  - replace (d =? 0)%Z with true; [done|]. symmetry. apply Z.eqb_eq. nia.
  - replace (d =? 0)%Z with false by (symmetry; apply Z.eqb_neq; nia).
    destruct (Z.leb_spec age day_ms) as [H1|H1].
    + replace (d =? 1)%Z with true; [done|]. symmetry. apply Z.eqb_eq. nia.
    + replace (d =? 1)%Z with false by (symmetry; apply Z.eqb_neq; nia).
      destruct (Z.leb_spec age (6 * day_ms)) as [H6|H6].
      * replace (d <? 7)%Z with true; [done|]. symmetry. apply Z.ltb_lt. nia.
      * replace (d <? 7)%Z with false; [done|]. symmetry. apply Z.ltb_ge. nia.
Qed.

(** X4.  An entry of [getChats] carries an inlined image only when the
    last message of the conversation is an image with media whose
    download settled within 3 s with non-empty data shorter than 100 KB;
    the image is then the data URL of that media. *)
Theorem preview_image_bounded chat url :
  fc_lastMessageImage (formatChat chat) = Some url →
  ∃ m media, fetchLastMessage chat = Some m ∧ mtype m = "image" ∧ hasMedia m = true
    ∧ race_timeout 3000 "Image download timeout" (downloadMedia m) = Returns (Some media)
    ∧ data media ≠ "" ∧ String.length (data media) < 100 * 1024
    ∧ url = "data:" +:+ mimetype media +:+ ";base64," +:+ data media.
Proof.
  unfold Gateway.formatChat. destruct (resolveContact chat) as [[??]?].
  cbn [fc_lastMessageImage].
  destruct (fetchLastMessage chat) as [m|]; [|done].
  case_bool_decide as Hty; [|done]. unfold imagePreview.
  destruct (hasMedia m) eqn:Hm; [|done].
  destruct (race_timeout 3000 "Image download timeout" (downloadMedia m)) as [[media|]|e] eqn:Hd;
    try done.
  destruct (truthy (data media)) eqn:Ht; [|done]. cbn [andb].
  case_bool_decide as Hlen; [|done]. intros [= <-].
  exists m, media. split; [done|]. split; [done|]. split; [done|]. split; [done|].
  split; [|by split].
  intros E. unfold truthy in Ht. by rewrite E in Ht.
Qed.

(** X5.  The preview text of an entry is empty exactly when no last
    message could be fetched, and so is its message type: a fetched
    message of whatever type and content gives a non-empty preview. *)
Theorem preview_text_nonempty chat :
  (fc_lastMessage (formatChat chat) = "" ↔ fetchLastMessage chat = None)
  ∧ (fc_lastMessageType (formatChat chat) = None ↔ fetchLastMessage chat = None).
Proof.
  unfold Gateway.formatChat. destruct (resolveContact chat) as [[??]?].
  cbn [fc_lastMessage fc_lastMessageType].
  destruct (fetchLastMessage chat) as [m|]; simpl; [|done].
  split; (split; [|done]); [|done].
  intros E. by apply lastMessageText_nonempty in E.
Qed.

(** X6.  What [getChatMessages] returns has one entry per message of the
    transport's answer to a fetch of at most 100 messages, in the same
    order; each entry keeps the id and the type of its message, has a
    non-empty text, names its sender by [fromMe], and carries a delivery
    status (read for ack 3, delivered for ack 2, sent otherwise) exactly
    when the message is the user's own. *)
Theorem getChatMessages_per_message cl chatId l :
  (getChatMessages localeTime (Some cl) chatId).2 = Returns l →
  ∃ chat msgs t,
    getChatById cl chatId = Returns (Some chat)
    ∧ reply (fetchMessages chat 100) = Returns msgs
    ∧ (getChatMessages localeTime (Some cl) chatId).1
      = t ++ [CallGetChatById chatId; CallFetchMessages 100]
    ∧ length l = length msgs
    ∧ ∀ i m, msgs !! i = Some m →
        ∃ fm, l !! i = Some fm
          ∧ fm_id fm = msg_id m ∧ fm_type fm = mtype m ∧ fm_text fm ≠ ""
          ∧ fm_timestamp fm = localeTime (timestamp m * 1000)
          ∧ (fromMe m = true → fm_sender fm = me ∧ fm_status fm = Some (delivery_of (ack m)))
          ∧ (fromMe m = false → fm_sender fm = them ∧ fm_status fm = None).
Proof.
  unfold getChatMessages.
  destruct (waitUntilReady msg_not_ready_retry cl) as [t [[]|e]]; simpl; [|done].
  destruct (getChatById cl chatId) as [[chat|]|e]; simpl; try done.
  destruct (reply (fetchMessages chat 100)) as [msgs|e] eqn:Hf; simpl; [|done].
  intros [= <-]. exists chat, msgs, t. split; [done|]. split; [done|].
  split; [done|]. split; [by rewrite length_fmap|].
  intros i m Hm. exists (formatMessage localeTime m).
  split; [by rewrite list_lookup_fmap, Hm|].
  unfold formatMessage, delivery_of. simpl.
  split; [done|]. split; [done|]. split; [by apply or_else_nonempty|]. split; [done|].
  split; intros ->; done.
Qed.

End Previews.

Lemma getChats_timestamped_first_witness :
  ∃ chats, client_getChats two_chat_client = Returns chats
    ∧ [Gateway.formatChat id_locale id_locale id_locale 1000000 flaky_chat;
       Gateway.formatChat id_locale id_locale id_locale 1000000 stuck_chat]
      = List.filter has_timestamp
          (Gateway.formatChat id_locale id_locale id_locale 1000000 <$> chats)
        ++ List.filter no_timestamp
             (Gateway.formatChat id_locale id_locale id_locale 1000000 <$> chats).
Proof.
  apply (getChats_timestamped_first id_locale id_locale id_locale 1000000 two_chat_client).
  vm_compute. reflexivity.
Defined.

Lemma preview_image_bounded_witness :
  ∃ m media, fetchLastMessage photo_chat = Some m ∧ mtype m = "image" ∧ hasMedia m = true
    ∧ race_timeout 3000 "Image download timeout" (downloadMedia m) = Returns (Some media)
    ∧ data media ≠ "" ∧ String.length (data media) < 100 * 1024
    ∧ "data:image/jpeg;base64,/9j/4AAQ"
      = "data:" +:+ mimetype media +:+ ";base64," +:+ data media.
Proof.
  apply (preview_image_bounded id_locale id_locale id_locale 1000000 photo_chat).
  reflexivity.
Defined.

Lemma getChatMessages_per_message_witness :
  ∃ chat msgs t,
    getChatById flaky_client "c1@c.us" = Returns (Some chat)
    ∧ reply (fetchMessages chat 100) = Returns msgs
    ∧ (getChatMessages id_locale (Some flaky_client) "c1@c.us").1
      = t ++ [CallGetChatById "c1@c.us"; CallFetchMessages 100]
    ∧ length [formatMessage id_locale msg_other; formatMessage id_locale msg_hello]
      = length msgs
    ∧ ∀ i m, msgs !! i = Some m →
        ∃ fm, [formatMessage id_locale msg_other; formatMessage id_locale msg_hello] !! i
              = Some fm
          ∧ fm_id fm = msg_id m ∧ fm_type fm = mtype m ∧ fm_text fm ≠ ""
          ∧ fm_timestamp fm = id_locale (timestamp m * 1000)
          ∧ (fromMe m = true → fm_sender fm = me ∧ fm_status fm = Some (delivery_of (ack m)))
          ∧ (fromMe m = false → fm_sender fm = them ∧ fm_status fm = None).
Proof.
  apply (getChatMessages_per_message id_locale flaky_client "c1@c.us"). reflexivity.
Defined.

(** *** One send per call *)

Lemma sendMessage_trace client chatId message now stamp :
  let t := (sendMessage client chatId message now stamp).1 in
  t = [] ∨ t = [CallGetChatById chatId]
  ∨ t = [CallGetChatById chatId; CallSend message]
  ∨ (t = [CallGetChatById chatId; CallSend message; Sleep 2000; CallFetchMessages 10]
     ∧ ∃ cl chat e, client = Some cl ∧ getChatById cl chatId = Returns (Some chat)
         ∧ chat_sendMessage chat message = Throws e ∧ benign e = true).
Proof.
  unfold sendMessage. destruct client as [cl|]; [|by left].
  destruct (info_at cl 0); [|by left]. cbn [negb].
  destruct (getChatById cl chatId) as [[chat|]|e] eqn:Hc; simpl; try (by right; left).
  destruct (chat_sendMessage chat message) as [sentMessage|e] eqn:Hs; simpl;
    [by right; right; left|].
  destruct (benign e) eqn:Hb; simpl; [|by right; right; left].
  assert (∃ r, verifyAfterBenignError chat message now stamp
               = ([Sleep 2000; CallFetchMessages 10], r)) as [r ->].
  { unfold verifyAfterBenignError. simpl.
    destruct (reply (fetchMessages chat 10)) as [recent|e']; simpl; [|by eexists].
    destruct (verifyScan now message recent) as [id|]; simpl; [|by eexists].
    destruct (truthy id); simpl; by eexists. }
  right; right; right. split; [done|]. by exists cl, chat, e.
Qed.

(** X7.  One call of [sendMessage] hands the text to the transport at
    most once, whatever the transport answers: it never retries a send.
    It sleeps at most once, for 2000 ms, and only after a send that failed
    with an error of the benign kind. *)
Theorem sendMessage_sends_at_most_once client chatId message now stamp :
  let t := (sendMessage client chatId message now stamp).1 in
  length (List.filter is_send t) ≤ 1
  ∧ sleeps t ≤ 1 ∧ (elapsed t ≤ 2000)%Z
  ∧ (sleeps t = 1 →
       ∃ cl chat e, client = Some cl ∧ getChatById cl chatId = Returns (Some chat)
         ∧ chat_sendMessage chat message = Throws e ∧ benign e = true).
Proof.
  intros t.
  destruct (sendMessage_trace client chatId message now stamp) as [H|[H|[H|[H Hw]]]];
    fold t in H; rewrite H; unfold sleeps, elapsed; simpl;
    (split; [lia|]); (split; [lia|]); (split; [lia|]); intros Hs;
    [discriminate Hs | discriminate Hs | discriminate Hs | exact Hw].
Qed.

Import Routes.

(** *** Handles, pending operations and the pairing code, in every reachable state *)

Lemma heap_grows_valid s s' : heap_grows s s' → handle_valid s → handle_valid s'.
Proof.
  intros [Hc Ha] Hv u c Hu. destruct (Ha u c Hu) as [Hold|Hnew]; [|done].
  destruct (Hv u c Hold) as (cl & Hcl & <-). destruct (Hc c cl Hcl) as [b Hb].
  by eexists.
Qed.

Lemma heap_grows_frame s s' :
  clients s' = clients s →
  (∀ u c, activeClients s' !! u = Some c → activeClients s !! u = Some c) →
  heap_grows s s'.
Proof.
  intros Hc Ha. split.
  - intros c [u h b] Hcl. exists b. by rewrite Hc.
  - intros u c Hu. left. by apply Ha.
Qed.

Lemma start_op_frame body tid u s :
  clients (start_op body tid u s) = clients s
  ∧ activeClients (start_op body tid u s) = activeClients s
  ∧ qrCodes (start_op body tid u s) = qrCodes s
  ∧ connectionStatus (start_op body tid u s) = connectionStatus s.
Proof.
  unfold start_op.
  by destruct (await_promise_frame tid u (length (promises s))
    (pending_set u (length (promises s))
       (with_tasks (λ ts, ts ++ [body u (length (promises s))])
          (with_promises (λ ps, ps ++ [None]) s)))) as (-> & -> & -> & ->).
Qed.

Lemma restore_pending_check_frame tid u s :
  clients (restore_pending_check tid u s) = clients s
  ∧ activeClients (restore_pending_check tid u s) = activeClients s
  ∧ qrCodes (restore_pending_check tid u s) = qrCodes s
  ∧ connectionStatus (restore_pending_check tid u s) = connectionStatus s.
Proof.
  unfold restore_pending_check.
  destruct (initializingClients s !! u); [apply await_promise_frame | done].
Qed.

Lemma call_heap op u s : heap_grows s (call op u s).
Proof.
  apply heap_grows_frame; unfold call;
    set (s0 := with_tasks (λ ts, ts ++ [Running]) s);
    change (clients s) with (clients s0); change (activeClients s) with (activeClients s0);
    generalize (length (tasks s)); clearbody s0; intros tid; destruct op.
  - unfold initializeWhatsApp. destruct (init_guard u s0); [done|].
    destruct (initializingClients s0 !! u).
    + apply await_promise_frame.
    + apply start_op_frame.
  - unfold restoreWhatsAppSession.
    destruct (restore_pending_check_frame tid u s0) as (Hc & _).
    destruct (activeClients s0 !! u) as [c|]; [|done].
    destruct (client_info s0 c); [done|].
    by destruct (connectionStatus s0 !! u) as [[]|].
  - unfold disconnectWhatsApp. simpl. by destruct (activeClients s0 !! u).
  - unfold initializeWhatsApp. destruct (init_guard u s0); [done|].
    destruct (initializingClients s0 !! u).
    + by destruct (await_promise_frame tid u n s0) as (_ & -> & _).
    + by destruct (start_op_frame InitMkdir tid u s0) as (_ & -> & _).
  - unfold restoreWhatsAppSession.
    destruct (restore_pending_check_frame tid u s0) as (_ & Ha & _).
    destruct (activeClients s0 !! u) as [c|]; [|by rewrite Ha].
    destruct (client_info s0 c); [done|].
    destruct (connectionStatus s0 !! u) as [[]|]; rewrite ?Ha; done.
  - unfold disconnectWhatsApp. simpl.
    destruct (activeClients s0 !! u) eqn:E; simpl; [done|].
    intros v c. apply delete_sub.
Qed.

Lemma new_client_heap tid u h t s :
  heap_grows s
    (set_task tid t
       (with_status (λ m, <[u:=if h is InitHandlers then initializing else restoring]> m)
          (with_active (λ m, <[u:=length (clients s)]> m)
             (with_clients (λ cs, cs ++ [mkClient u h false]) s)))).
Proof.
  split; simpl.
  - intros c [v h' b] Hc. exists b. by rewrite lookup_app_l by (by eapply lookup_lt_Some).
  - intros v c. destruct (decide (u = v)) as [->|Hne].
    + rewrite lookup_insert_eq. intros [= <-]. right. eexists. by rewrite lookup_snoc.
    + rewrite lookup_insert_ne by done. by left.
Qed.

Lemma complete_op_heap tid u p o s0 s :
  clients s0 = clients s →
  (∀ v c, activeClients s0 !! v = Some c → activeClients s !! v = Some c) →
  heap_grows s (complete_op tid u p o s0).
Proof.
  intros Hc Ha. destruct (complete_op_spec tid u p o s0) as (Ha' & _ & _ & Hc' & _).
  apply heap_grows_frame; [by rewrite Hc' | by rewrite Ha'].
Qed.

Lemma settle_heap d tid a s s' : settle d tid a s = Some s' → heap_grows s s'.
Proof.
  unfold settle. intros Hstep.
  assert (∀ u v c, delete u (activeClients s) !! v = Some c → activeClients s !! v = Some c)
    as Hdel by (intros u v c; apply delete_sub).
  destruct (tasks s !! tid) as [[]|]; try done; destruct a; try done;
    injection Hstep as <-;
    try (by apply (new_client_heap tid u InitHandlers));
    try (by apply (new_client_heap tid u RestoreHandlers));
    try (by apply complete_op_heap);
    try (apply complete_op_heap; [done | by apply Hdel]);
    try (by apply heap_grows_frame);
    try (apply heap_grows_frame; [done | by apply Hdel]).
  - unfold restore_after_settle. destruct (client_info s c); by apply complete_op_heap.
  - unfold restore_after_recheck. destruct (client_info s c); [by apply heap_grows_frame|].
    destruct (restore_pending_check_frame tid u s) as (Hc & Ha & _).
    apply heap_grows_frame; [done | by rewrite Ha].
  - unfold restore_after_files. destruct (hasSessionFiles d fs u); [|by apply heap_grows_frame].
    destruct (start_op_frame RestoreMkdir tid u s) as (Hc & Ha & _).
    apply heap_grows_frame; [done | by rewrite Ha].
Qed.

Lemma on_event_active u h ev s v c :
  activeClients (on_event u h ev s) !! v = Some c → activeClients s !! v = Some c.
Proof. destruct ev as [[?|]| | | |], h; simpl; try done; apply delete_sub. Qed.

Lemma step_heap d a s s' : step d a s = Some s' → heap_grows s s'.
Proof.
  destruct a as [op u|tid a|c ev|c b]; simpl.
  - intros [= <-]. apply call_heap.
  - apply settle_heap.
  - intros [= <-]. split.
    + apply (sc_clients _ _ (emit_same_control c ev s)).
    + intros v c' Hv. left. unfold emit in Hv.
      destruct (clients s !! c); [by eapply on_event_active | done].
  - intros [= <-]. split.
    + apply (sc_clients _ _ (set_info_same_control c b s)).
    + intros v c' Hv. by left.
Qed.

Lemma run_heap d acts s s' : run d acts s = Some s' → handle_valid s → handle_valid s'.
Proof.
  revert s. induction acts as [|a acts IH]; intros s; simpl.
  - by intros [= <-].
  - destruct (step d a s) as [s1|] eqn:E; [|done].
    intros Hrun Hv. apply (IH s1 Hrun). eapply heap_grows_valid; [|done]. by eapply step_heap.
Qed.

(** X8.  In every reachable state the handle registered for a user is a
    client that has been constructed, and one whose callbacks were bound
    to that same user: [getClient] never returns a dangling handle or the
    client of somebody else. *)
Theorem registered_client_belongs_to_user dirname s u c :
  reachable dirname s → getClient u s = Some c →
  ∃ cl, clients s !! c = Some cl ∧ c_user cl = u.
Proof.
  intros [acts Hrun] Hc. eapply (run_heap dirname acts initial s Hrun); [|done].
  intros v c' Hv. simpl in Hv. by rewrite lookup_empty in Hv.
Qed.

Lemma promise_of_woken p o t : promise_of (woken p o t) = promise_of t.
Proof. destruct t; simpl; try done. by case_decide. Qed.

Lemma live_set_task s s' tid told tnew :
  tasks s !! tid = Some told → promise_of tnew = promise_of told →
  tasks s' = <[tid:=tnew]> (tasks s) → promises s' = promises s →
  (∀ u p, initializingClients s' !! u = Some p → initializingClients s !! u = Some p) →
  pending_live s → pending_live s'.
Proof.
  intros Hold Hsame Hts Hps Hsub [Hb Ho Hi].
  pose proof (lookup_lt_Some _ _ _ Hold) as Hlt.
  assert (∀ i t, tasks s' !! i = Some t →
            ∃ t0, tasks s !! i = Some t0 ∧ promise_of t = promise_of t0) as Hback.
  { intros i t. rewrite Hts. destruct (decide (i = tid)) as [->|Hne].
    - rewrite list_lookup_insert_eq by done. intros [= <-]. by exists told.
    - rewrite list_lookup_insert_ne by done. intros ?. by exists t. }
  split.
  - intros u p Hu. destruct (Hb u p (Hsub u p Hu)) as (i & t & Hi' & Ht).
    rewrite Hts. destruct (decide (i = tid)) as [->|Hne].
    + exists tid, tnew. rewrite list_lookup_insert_eq by done. split; [done|]. congruence.
    + exists i, t. by rewrite list_lookup_insert_ne.
  - intros i t u p Hi' Ht. destruct (Hback i t Hi') as (t0 & H0 & E).
    rewrite Hps. apply (Ho i t0 u p H0). congruence.
  - intros i j ti tj u v p Hi' Hj' Hti Htj.
    destruct (Hback i ti Hi') as (t0 & H0 & E0), (Hback j tj Hj') as (t1 & H1 & E1).
    apply (Hi i j t0 t1 u v p); congruence.
Qed.

Lemma await_promise_live tid u p s told :
  tasks s !! tid = Some told → promise_of told = None →
  pending_live s → pending_live (await_promise tid u p s).
Proof.
  intros Hold Hnb Hlive. unfold await_promise.
  destruct (promises s !! p) as [[[r| |e]|]|];
    (eapply (live_set_task s _ tid told); [exact Hold | | reflexivity | | | exact Hlive]);
    try done.
  simpl. intros v q. apply delete_sub.
Qed.

Lemma start_op_live body tid u s told :
  tasks s !! tid = Some told → promise_of told = None →
  (∀ p, promise_of (body u p) = Some (u, p)) →
  pending_live s → pending_live (start_op body tid u s).
Proof.
  intros Hold Hnb Hbody [Hb Ho Hi]. unfold start_op, await_promise. simpl.
  rewrite lookup_snoc. pose proof (lookup_lt_Some _ _ _ Hold) as Hlt.
  assert (∀ i t, <[tid:=AwaitInit u (length (promises s))]>
                   (tasks s ++ [body u (length (promises s))]) !! i = Some t →
            promise_of t ≠ None →
            (i < length (tasks s) ∧ tasks s !! i = Some t)
            ∨ (i = length (tasks s) ∧ t = body u (length (promises s)))) as Hback.
  { intros i t Hi' Hne. destruct (decide (i = tid)) as [->|Hni].
    - rewrite list_lookup_insert_eq in Hi' by (rewrite length_app; lia).
      injection Hi' as <-. done.
    - rewrite list_lookup_insert_ne in Hi' by done.
      destruct (decide (i < length (tasks s))) as [Hl|Hl].
      + rewrite lookup_app_l in Hi' by done. by left.
      + rewrite lookup_app_r in Hi' by lia.
        destruct (i - length (tasks s)) as [|k] eqn:Ek; simpl in Hi'; [|done].
        injection Hi' as <-. right. split; [lia | done]. }
  assert (∀ i t v q, tasks s !! i = Some t → promise_of t = Some (v, q) →
            q < length (promises s)) as Hfresh.
  { intros i t v q Hi' Ht. by eapply lookup_lt_Some, Ho. }
  split; simpl.
  - intros v q. destruct (decide (u = v)) as [->|Hne].
    + rewrite lookup_insert_eq. intros [= <-].
      exists (length (tasks s)), (body v (length (promises s))). split; [|done].
      rewrite list_lookup_insert_ne by lia. apply lookup_snoc.
    + rewrite lookup_insert_ne by done. intros Hv.
      destruct (Hb v q Hv) as (i & t & Hi' & Ht). exists i, t. split; [|done].
      assert (i ≠ tid) by (intros ->; congruence).
      rewrite list_lookup_insert_ne by done.
      rewrite lookup_app_l; [done | by eapply lookup_lt_Some].
  - intros i t v q Hi' Ht.
    destruct (Hback i t Hi') as [[_ H0]|[_ ->]]; [congruence| |].
    + rewrite lookup_app_l by (by eapply Hfresh). by eapply Ho.
    + rewrite Hbody in Ht. injection Ht as <- <-. apply lookup_snoc.
  - intros i j ti tj v w q Hi' Hj' Hti Htj.
    destruct (Hback i ti Hi') as [[Hli H0]|[-> ->]]; [congruence| |];
      (destruct (Hback j tj Hj') as [[Hlj H1]|[-> ->]]; [congruence| |]).
    + by eapply Hi.
    + rewrite Hbody in Htj. injection Htj as <- <-.
      pose proof (Hfresh i ti v _ H0 Hti). lia.
    + rewrite Hbody in Hti. injection Hti as <- <-.
      pose proof (Hfresh j tj w _ H1 Htj). lia.
    + done.
Qed.

Lemma complete_op_live tid u p o s s0 told :
  tasks s !! tid = Some told → promise_of told = Some (u, p) →
  tasks s0 = tasks s → promises s0 = promises s →
  initializingClients s0 = initializingClients s →
  pending_live s → pending_live (complete_op tid u p o s0).
Proof.
  intros Hold Hbody Hts Hps Hp [Hb Ho Hi].
  destruct (complete_op_spec tid u p o s0) as (_&_&_&_&Hps'&Hts'&_).
  pose proof (lookup_lt_Some _ _ _ Hold) as Hlt.
  assert (∀ i t v q, tasks (complete_op tid u p o s0) !! i = Some t →
            promise_of t = Some (v, q) →
            i ≠ tid ∧ ∃ t0, tasks s !! i = Some t0 ∧ promise_of t0 = Some (v, q) ∧ t = t0)
    as Hback.
  { intros i t v q. rewrite Hts', Hts, list_lookup_fmap.
    destruct (decide (i = tid)) as [->|Hne].
    - rewrite list_lookup_insert_eq by done. simpl. by intros [= <-].
    - rewrite list_lookup_insert_ne by done.
      destruct (tasks s !! i) as [t0|]; simpl; [|done]. intros [= <-] Ht.
      rewrite promise_of_woken in Ht. split; [done|]. exists t0. split; [done|]. split; [done|].
      destruct t0; try done. }
  split.
  - intros v q Hv. apply complete_op_pending_sub in Hv as [Hv Hne]. rewrite Hp in Hv.
    destruct (Hb v q Hv) as (i & t & Hi' & Ht).
    assert (i ≠ tid) by (intros ->; congruence).
    exists i, t. split; [|done].
    rewrite Hts', Hts, list_lookup_fmap, list_lookup_insert_ne, Hi' by done.
    simpl. f_equal. destruct t; try done.
  - intros i t v q Hi' Ht. destruct (Hback i t v q Hi' Ht) as (Hne & t0 & H0 & Ht0 & _).
    rewrite Hps', Hps.
    assert (q ≠ p) by (intros ->; apply Hne; by eapply Hi).
    rewrite list_lookup_insert_ne by done. by eapply Ho.
  - intros i j ti tj v w q Hi' Hj' Hti Htj.
    destruct (Hback i ti v q Hi' Hti) as (_ & t0 & H0 & Ht0 & _).
    destruct (Hback j tj w q Hj' Htj) as (_ & t1 & H1 & Ht1 & _).
    by eapply Hi.
Qed.

Lemma snoc_live s t : promise_of t = None → pending_live s →
  pending_live (with_tasks (λ ts, ts ++ [t]) s).
Proof.
  intros Hnb [Hb Ho Hi].
  assert (∀ i t' v q, (tasks s ++ [t]) !! i = Some t' → promise_of t' = Some (v, q) →
            tasks s !! i = Some t') as Hback.
  { intros i t' v q Hi' Ht'. destruct (decide (i < length (tasks s))) as [Hl|Hl].
    - by rewrite lookup_app_l in Hi'.
    - rewrite lookup_app_r in Hi' by lia.
      destruct (i - length (tasks s)); simpl in Hi'; [|done]. injection Hi' as <-. congruence. }
  split; simpl.
  - intros u p Hu. destruct (Hb u p Hu) as (i & t' & Hi' & Ht'). exists i, t'.
    split; [|done]. rewrite lookup_app_l; [done | by eapply lookup_lt_Some].
  - intros i t' u p Hi' Ht'. eapply Ho; [by eapply Hback | done].
  - intros i j ti tj u v p Hi' Hj' Hti Htj.
    eapply Hi; [by eapply Hback | by eapply Hback | done | done].
Qed.

Lemma call_live op u s : pending_live s → pending_live (call op u s).
Proof.
  intros Hlive. unfold call.
  set (tid := length (tasks s)).
  set (s0 := with_tasks (λ ts, ts ++ [Running]) s).
  assert (tasks s0 !! tid = Some Running) as Ht0 by apply lookup_snoc.
  assert (pending_live s0) as Hlive0 by (by apply snoc_live).
  assert (∀ tnew s1, promise_of tnew = None → tasks s1 = tasks s0 → promises s1 = promises s0 →
            (∀ v q, initializingClients s1 !! v = Some q → initializingClients s0 !! v = Some q) →
            pending_live (set_task tid tnew s1)) as Hset.
  { intros tnew s1 Hnb Hts Hps Hsub.
    eapply (live_set_task s0 _ tid Running tnew); try done. simpl. by rewrite Hts. }
  assert (pending_live (restore_pending_check tid u s0)) as Hcheck.
  { unfold restore_pending_check. destruct (initializingClients s0 !! u).
    - by apply (await_promise_live _ _ _ _ Running).
    - by apply Hset. }
  clearbody s0. destruct op.
  - unfold initializeWhatsApp. destruct (init_guard u s0); [by apply Hset|].
    destruct (initializingClients s0 !! u).
    + by apply (await_promise_live _ _ _ _ Running).
    + by apply (start_op_live _ _ _ _ Running).
  - unfold restoreWhatsAppSession.
    destruct (activeClients s0 !! u) as [c|]; [|done].
    destruct (client_info s0 c); [by apply Hset|].
    destruct (connectionStatus s0 !! u) as [[]|]; try done; by apply Hset.
  - unfold disconnectWhatsApp.
    assert (∀ v q, initializingClients (pending_delete SiteDisconnect u s0) !! v = Some q
                   → initializingClients s0 !! v = Some q) as Hsub
      by (intros v q; apply delete_sub).
    destruct (activeClients (pending_delete SiteDisconnect u s0) !! u); by apply Hset.
Qed.

Lemma settle_live d tid a s s' :
  settle d tid a s = Some s' → pending_live s → pending_live s'.
Proof.
  unfold settle. intros Hstep Hlive.
  destruct (tasks s !! tid) as [told|] eqn:Hold; [|done].
  assert (∀ tnew s1, promise_of tnew = promise_of told → tasks s1 = tasks s →
            promises s1 = promises s → initializingClients s1 = initializingClients s →
            pending_live (set_task tid tnew s1)) as Hset.
  { intros tnew s1 Hsame Hts Hps Hp.
    eapply (live_set_task s _ tid told tnew); try done.
    - simpl. by rewrite Hts.
    - intros v q. simpl. by rewrite Hp. }
  assert (∀ u p o s0, promise_of told = Some (u, p) → tasks s0 = tasks s →
            promises s0 = promises s → initializingClients s0 = initializingClients s →
            pending_live (complete_op tid u p o s0)) as Hcomplete.
  { intros u p o s0 Hb Hts Hps Hp. by apply (complete_op_live _ _ _ _ s _ told). }
  destruct told; try done; destruct a; try done; injection Hstep as <-;
    try (by apply Hset); try (by apply Hcomplete).
  - unfold restore_after_settle. destruct (client_info s c); by apply Hcomplete.
  - unfold restore_after_recheck. destruct (client_info s c); [by apply Hset|].
    unfold restore_pending_check. destruct (initializingClients s !! u).
    + by apply (await_promise_live _ _ _ _ (RestoreRecheck u c)).
    + by apply Hset.
  - unfold restore_after_files. destruct (hasSessionFiles d fs u); [|by apply Hset].
    by apply (start_op_live _ _ _ _ (RestoreFiles u)).
Qed.

Lemma same_control_live s s' : same_control s s' → pending_live s → pending_live s'.
Proof.
  intros Hsc [Hb Ho Hi]. split.
  - intros u p. rewrite (sc_pending _ _ Hsc), (sc_tasks _ _ Hsc). apply Hb.
  - intros i t u p. rewrite (sc_promises _ _ Hsc), (sc_tasks _ _ Hsc). apply Ho.
  - intros i j ti tj u v p. rewrite (sc_tasks _ _ Hsc). apply Hi.
Qed.

Lemma step_live d a s s' : step d a s = Some s' → pending_live s → pending_live s'.
Proof.
  destruct a as [op u|tid a|c ev|c b]; simpl.
  - intros [= <-]. apply call_live.
  - apply settle_live.
  - intros [= <-]. apply same_control_live, emit_same_control.
  - intros [= <-]. apply same_control_live, set_info_same_control.
Qed.

Lemma reachable_live d s : reachable d s → pending_live s.
Proof.
  intros [acts Hrun].
  assert (pending_live initial) as H0.
  { split; simpl.
    - intros u p Hu. by rewrite lookup_empty in Hu.
    - intros i t u p Hi. by rewrite lookup_nil in Hi.
    - intros i j ti tj u v p Hi. by rewrite lookup_nil in Hi. }
  revert H0 Hrun. generalize initial. induction acts as [|a acts IH]; intros s0 H0; simpl.
  - by intros [= <-].
  - destruct (step d a s0) as [s1|] eqn:E; [|done].
    apply IH. by eapply step_live.
Qed.

Lemma call_restore_joins u p s :
  activeClients s !! u = None →
  initializingClients s !! u = Some p → promises s !! p = Some None →
  call Restore u s = with_tasks (λ ts, ts ++ [AwaitInit u p]) s.
Proof.
  intros Ha Hp Hpr. unfold call, restoreWhatsAppSession. simpl. rewrite Ha.
  unfold restore_pending_check. simpl. rewrite Hp. unfold await_promise. simpl. rewrite Hpr.
  unfold set_task, with_tasks. simpl. by rewrite insert_snoc.
Qed.

(** X9.  In every reachable state a pending operation stored for [u] is
    the promise of an async body that is still suspended, and that promise
    is unsettled.  A call of [initializeWhatsApp] that passes the guard on
    a registered client, or of [restoreWhatsAppSession] for a user without
    a client, therefore suspends on that promise and does nothing else. *)
Theorem pending_operation_unsettled dirname s u p :
  reachable dirname s → initializingClients s !! u = Some p →
  promises s !! p = Some None
  ∧ (∃ i t, tasks s !! i = Some t ∧ promise_of t = Some (u, p))
  ∧ (init_guard u s = None →
       call Initialize u s = with_tasks (λ ts, ts ++ [AwaitInit u p]) s)
  ∧ (activeClients s !! u = None →
       call Restore u s = with_tasks (λ ts, ts ++ [AwaitInit u p]) s).
Proof.
  intros Hr Hp. destruct (reachable_live dirname s Hr) as [Hb Ho Hi].
  destruct (Hb u p Hp) as (i & t & Hi' & Ht).
  assert (promises s !! p = Some None) as Hopen by (by eapply Ho).
  split; [done|]. split; [by exists i, t|]. split.
  - intros Hg. by apply call_initialize_joins.
  - intros Ha. by apply call_restore_joins.
Qed.

(** X10.  [restoreWhatsAppSession] never writes to [qrCodes]: not the
    call, not any resumption of the call or of its async body, on success
    or on failure, and none of the four callbacks it registers on the
    client it constructs. *)
Theorem restore_never_writes_qr dirname :
  (∀ u s, qrCodes (call Restore u s) = qrCodes s)
  ∧ (∀ tid a s s' t, tasks s !! tid = Some t → restore_task t = true →
       settle dirname tid a s = Some s' → qrCodes s' = qrCodes s)
  ∧ (∀ c ev s cl, clients s !! c = Some cl → c_handlers cl = RestoreHandlers →
       qrCodes (emit c ev s) = qrCodes s).
Proof.
  split; [|split].
  - intros u s. unfold call, restoreWhatsAppSession.
    set (s0 := with_tasks (λ ts, ts ++ [Running]) s).
    change (qrCodes s) with (qrCodes s0). generalize (length (tasks s)). clearbody s0.
    intros tid. destruct (restore_pending_check_frame tid u s0) as (_ & _ & Hq & _).
    destruct (activeClients s0 !! u) as [c|]; [|done].
    destruct (client_info s0 c); [done|].
    by destruct (connectionStatus s0 !! u) as [[]|].
  - intros tid a s s' t Ht Hr. unfold settle. rewrite Ht.
    assert (∀ u p o s0, qrCodes s0 = qrCodes s → qrCodes (complete_op tid u p o s0) = qrCodes s)
      as Hcomplete.
    { intros u p o s0 <-. by destruct (complete_op_spec tid u p o s0) as (_ & -> & _). }
    destruct t; try discriminate Hr; destruct a; try done; intros [= <-];
      try done; try (by apply Hcomplete).
    + unfold restore_after_settle. destruct (client_info s c); by apply Hcomplete.
    + unfold restore_after_recheck. destruct (client_info s c); [done|].
      by destruct (restore_pending_check_frame tid u s) as (_ & _ & -> & _).
    + unfold restore_after_files. destruct (hasSessionFiles dirname fs u); [|done].
      by destruct (start_op_frame RestoreMkdir tid u s) as (_ & _ & -> & _).
  - intros c ev s [u h b] Hc Hh. simpl in Hh. subst h. unfold emit. rewrite Hc. simpl.
    by destruct ev as [[?|]| | | |].
Qed.

(** X11.  When the creation of the data directory or [client.initialize()]
    rejects with [e], in whatever state: the body of [initializeWhatsApp]
    deletes the handle, the status and the QR code of its user, the body
    of [restoreWhatsAppSession] the handle and the status; of the other
    users nothing is touched.  No pending operation is left for the user,
    the constructed clients stay as they are, the stored promise rejects
    with [e], and so does every call that awaits it. *)
Theorem failed_operation_clears_session dirname h tid u p e s t :
  tasks s !! tid = Some t → failing_body h u p t →
  ∃ s', settle dirname tid (Reject e) s = Some s'
    ∧ activeClients s' = delete u (activeClients s)
    ∧ connectionStatus s' = delete u (connectionStatus s)
    ∧ qrCodes s' = (if h is InitHandlers then delete u (qrCodes s) else qrCodes s)
    ∧ initializingClients s' !! u = None
    ∧ clients s' = clients s
    ∧ promises s' = <[p:=Some (Rejected e)]> (promises s)
    ∧ ∀ w v, tasks s !! w = Some (AwaitInit v p) → outcome_of w s' = Some (Rejected e).
Proof.
  intros Ht Hb.
  assert (∀ s0, tasks s0 = tasks s → promises s0 = promises s →
            let s' := complete_op tid u p (Rejected e) s0 in
            activeClients s' = activeClients s0 ∧ connectionStatus s' = connectionStatus s0
            ∧ qrCodes s' = qrCodes s0 ∧ initializingClients s' !! u = None
            ∧ clients s' = clients s0 ∧ promises s' = <[p:=Some (Rejected e)]> (promises s)
            ∧ ∀ w v, tasks s !! w = Some (AwaitInit v p) → outcome_of w s' = Some (Rejected e))
    as Hcomplete.
  { intros s0 Hts Hps s'.
    destruct (complete_op_spec tid u p (Rejected e) s0) as (Ha & Hq & Hst & Hc & Hp & _ & Hn & _).
    split; [done|]. split; [done|]. split; [done|]. split; [done|]. split; [done|].
    split; [unfold s'; by rewrite Hp, Hps|].
    intros w v Hw. apply (complete_op_wakes _ _ _ _ _ _ v); [by rewrite Hts|].
    intros ->. rewrite Ht in Hw. injection Hw as ->.
    destruct h, Hb as [Hb|[c Hb]]; discriminate Hb. }
  destruct h; simpl in Hb.
  - exists (init_fail tid u p e s). split.
    { unfold settle. rewrite Ht. by destruct Hb as [->|[c ->]]. }
    unfold init_fail.
    destruct (Hcomplete (init_catch u s) eq_refl eq_refl) as (-> & -> & -> & Hn & -> & Hp & Hw).
    done.
  - exists (restore_fail tid u p e s). split.
    { unfold settle. rewrite Ht. by destruct Hb as [->|[c ->]]. }
    unfold restore_fail.
    destruct (Hcomplete (restore_catch u s) eq_refl eq_refl) as (-> & -> & -> & Hn & -> & Hp & Hw).
    done.
Qed.

(** X12.  While the client registered for [u] is ready, any sequence of
    calls of [initializeWhatsApp] and [restoreWhatsAppSession] for [u]
    returns "already connected" at once, call after call, and writes to
    none of the four maps, constructs no client and creates no promise. *)
Theorem ready_session_calls_are_noops dirname u c ops s :
  activeClients s !! u = Some c → client_info s c = true →
  Forall (λ op, op ≠ Disconnect) ops →
  ∃ s', run dirname ((λ op, Call op u) <$> ops) s = Some s'
    ∧ registry s' = registry s ∧ clients s' = clients s ∧ promises s' = promises s
    ∧ pendingLog s' = pendingLog s
    ∧ tasks s' = tasks s ++ ((λ op, Done (Resolved (ready_result op))) <$> ops).
Proof.
  intros Ha Hi Hops. revert s Ha Hi. induction Hops as [|op ops Hop _ IH]; intros s Ha Hi.
  - exists s. simpl. by rewrite app_nil_r.
  - assert (call op u s = with_tasks (λ ts, ts ++ [Done (Resolved (ready_result op))]) s) as Hcall.
    { unfold call. destruct op; [| |done].
      - unfold initializeWhatsApp, init_guard. simpl. rewrite Ha.
        change (client_info (with_tasks (λ ts, ts ++ [Running]) s) c) with (client_info s c).
        rewrite Hi. unfold set_task, with_tasks. simpl. by rewrite insert_snoc.
      - unfold restoreWhatsAppSession. simpl. rewrite Ha.
        change (client_info (with_tasks (λ ts, ts ++ [Running]) s) c) with (client_info s c).
        rewrite Hi. unfold set_task, with_tasks. simpl. by rewrite insert_snoc. }
    destruct (IH (call op u s)) as (s' & Hrun & Hreg & Hc & Hp & Hl & Hts).
    { by rewrite Hcall. } { by rewrite Hcall. }
    exists s'. split; [done|]. rewrite Hreg, Hc, Hp, Hl, Hts, Hcall. simpl.
    by rewrite <- app_assoc.
Qed.

(** X13.  With no client and no pending operation for [u] and credential
    files on disk, [restoreWhatsAppSession] constructs exactly one client,
    with the callbacks of the restoration, and after [client.initialize()]
    has resolved waits on a 2000 ms timer without having returned.  When
    the timer fires it resolves to [connected: true] and sets the status
    to [connected] if the client is ready at that moment, and otherwise to
    [connected: false, hasSession: true] leaving the status as it is; the
    client stays registered and the pending operation is removed.  With no
    lifecycle event in between, the status is still [restoring] when the
    timer starts. *)
Theorem restore_with_credentials dirname u fs s evs0 evs1 evs2 evs3 :
  activeClients s !! u = None → initializingClients s !! u = None →
  hasSessionFiles dirname fs u = true →
  interference evs0 → interference evs1 → interference evs2 → interference evs3 →
  let tid := length (tasks s) in
  let iife := S tid in
  let p := length (promises s) in
  let c := length (clients s) in
  ∃ s3 s4,
    run dirname (restore_schedule tid fs evs0 evs1 evs2 evs3 u) s = Some s3
    ∧ tasks s3 !! iife = Some (RestoreSettle u p c)
    ∧ timer_ms (RestoreSettle u p c) = Some 2000%Z
    ∧ (∃ b, clients s3 !! c = Some (mkClient u RestoreHandlers b))
    ∧ length (clients s3) = S c
    ∧ outcome_of tid s3 = None
    ∧ ((evs2 = [] ∧ evs3 = []) →
         activeClients s3 !! u = Some c ∧ connectionStatus s3 !! u = Some restoring
         ∧ client_info s3 c = false)
    ∧ run dirname [Settle iife Fulfil] s3 = Some s4
    ∧ outcome_of tid s4
      = Some (Resolved (if client_info s3 c then res_restored else res_not_connected_yet))
    ∧ (client_info s3 c = true → getConnectionStatus u s4 = connected)
    ∧ (client_info s3 c = false → connectionStatus s4 = connectionStatus s3)
    ∧ activeClients s4 = activeClients s3 ∧ qrCodes s4 = qrCodes s3
    ∧ clients s4 = clients s3 ∧ initializingClients s4 !! u = None.
Proof.
  intros Hactive Hpending Hfs Hevs0 Hevs1 Hevs2 Hevs3 tid iife p c.
  (* the call *)
  set (s0 := call Restore u s).
  assert (s0 = with_tasks (λ ts, ts ++ [RestoreFiles u]) s) as Hs0.
  { unfold s0, call, restoreWhatsAppSession. simpl. rewrite Hactive.
    unfold restore_pending_check. simpl. rewrite Hpending.
    unfold set_task, with_tasks. simpl. by rewrite insert_snoc. }
  destruct (run_interference dirname evs0 s0 Hevs0) as (s0' & Hrun0 & Hsc0).
  assert (tasks s0' !! tid = Some (RestoreFiles u)) as Ht0.
  { rewrite (sc_tasks _ _ Hsc0), Hs0. apply lookup_snoc. }
  assert (length (tasks s0') = iife) as Hlen0.
  { rewrite (sc_tasks _ _ Hsc0), Hs0. simpl. rewrite length_app. simpl. unfold iife, tid. lia. }
  assert (length (promises s0') = p) as Hp0 by (by rewrite (sc_promises _ _ Hsc0), Hs0).
  assert (length (clients s0') = c) as Hc0 by (by rewrite (sc_length _ _ Hsc0), Hs0).
  (* the file check *)
  destruct (restore_after_files_in_flight dirname tid u fs s0' Ht0 Hfs)
    as (Hstep1 & Hfl1 & Hi1 & Hcl1).
  rewrite Hlen0, Hp0 in Hfl1, Hi1.
  set (s1 := restore_after_files dirname tid u fs s0') in *.
  destruct (run_interference dirname evs1 s1 Hevs1) as (s1' & Hrun1 & Hsc1).
  pose proof (in_flight_interference _ _ _ _ _ _ _ Hsc1 Hfl1) as Hfl1'.
  assert (tasks s1' !! iife = Some (RestoreMkdir u p)) as Hi1'
    by (by rewrite (sc_tasks _ _ Hsc1)).
  assert (length (clients s1') = c) as Hc1
    by (by rewrite (sc_length _ _ Hsc1), Hcl1).
  (* the data directory *)
  set (s2 := restore_after_mkdir iife u p s1').
  assert (in_flight tid iife u p (pendingLog s0') s2) as Hfl2
    by (by apply (in_flight_body _ _ _ _ _ s1')).
  assert (tasks s2 !! iife = Some (RestoreConnect u p c)) as Hi2.
  { rewrite <- Hc1. by apply (in_flight_task tid iife u p (pendingLog s0') s1'). }
  assert (clients s2 !! c = Some (mkClient u RestoreHandlers false)) as Hcl2.
  { unfold s2, restore_after_mkdir. simpl. rewrite <- Hc1. apply lookup_snoc. }
  assert (length (clients s2) = S c) as Hlen2.
  { unfold s2, restore_after_mkdir. simpl. rewrite length_app, Hc1. simpl. lia. }
  destruct (run_interference dirname evs2 s2 Hevs2) as (s2' & Hrun2 & Hsc2).
  pose proof (in_flight_interference _ _ _ _ _ _ _ Hsc2 Hfl2) as Hfl2'.
  (* client.initialize() *)
  set (s3 := restore_after_connect iife u p c s2').
  assert (in_flight tid iife u p (pendingLog s0') s3) as Hfl3
    by (by apply (in_flight_body _ _ _ _ _ s2')).
  assert (tasks s3 !! iife = Some (RestoreSettle u p c)) as Hi3
    by (by apply (in_flight_task tid iife u p (pendingLog s0') s2')).
  destruct (run_interference dirname evs3 s3 Hevs3) as (s3' & Hrun3 & Hsc3).
  pose proof (in_flight_interference _ _ _ _ _ _ _ Hsc3 Hfl3) as Hfl3'.
  assert (tasks s3' !! iife = Some (RestoreSettle u p c)) as Hi3'
    by (by rewrite (sc_tasks _ _ Hsc3)).
  (* the timer *)
  set (s4 := restore_after_settle iife u p c s3').
  assert (settle dirname iife Fulfil s3' = Some s4) as Hstep4
    by (unfold settle; by rewrite Hi3').
  exists s3', s4.
  split.
  { unfold restore_schedule. fold iife.
    rewrite (run_cons_some dirname (Call Restore u) _ s s0 eq_refl).
    rewrite (run_app_some dirname _ _ _ _ Hrun0).
    rewrite (run_settle_some dirname _ _ _ _ _ Hstep1).
    rewrite (run_app_some dirname _ _ _ _ Hrun1).
    rewrite (run_settle_some dirname iife Fulfil _ s1' s2)
      by (unfold settle; by rewrite Hi1').
    rewrite (run_app_some dirname _ _ _ _ Hrun2).
    rewrite (run_settle_some dirname iife Fulfil _ s2' s3)
      by (unfold settle; by rewrite (sc_tasks _ _ Hsc2), Hi2).
    exact Hrun3. }
  split; [done|]. split; [done|].
  split.
  { destruct (sc_clients _ _ Hsc2 c _ Hcl2) as [b Hb].
    assert (clients s3 !! c = Some (mkClient u RestoreHandlers b)) as Hb' by done.
    destruct (sc_clients _ _ Hsc3 c _ Hb') as [b' Hb'']. by exists b'. }
  split; [by rewrite (sc_length _ _ Hsc3); unfold s3; simpl; rewrite (sc_length _ _ Hsc2)|].
  split; [unfold outcome_of; by rewrite (if_caller _ _ _ _ _ _ Hfl3')|].
  split.
  { intros [-> ->]. simpl in Hrun2, Hrun3. injection Hrun2 as <-. injection Hrun3 as <-.
    unfold client_info, s3, restore_after_connect, s2, restore_after_mkdir. simpl.
    rewrite Hc1, !lookup_insert_eq. rewrite <- Hc1, lookup_snoc. done. }
  split; [by apply run_settle_last|].
  unfold s4, restore_after_settle.
  destruct (client_info s3' c) eqn:Hinfo.
  - destruct (in_flight_complete tid iife u p (pendingLog s0') (Resolved res_restored) s3'
                (with_status (λ m, <[u:=connected]> m) s3')) as (Ho & Hn & _); try done.
    destruct (complete_op_spec iife u p (Resolved res_restored)
                (with_status (λ m, <[u:=connected]> m) s3')) as (Ha & Hq & Hst & Hc & _).
    split; [done|]. split.
    { intros _. unfold getConnectionStatus. rewrite Hst. simpl. by rewrite lookup_insert_eq. }
    split; [done|]. done.
  - destruct (in_flight_complete tid iife u p (pendingLog s0') (Resolved res_not_connected_yet) s3' s3')
      as (Ho & Hn & _); try done.
    destruct (complete_op_spec iife u p (Resolved res_not_connected_yet) s3')
      as (Ha & Hq & Hst & Hc & _).
    split; [done|]. split; [done|]. split; [done|]. done.
Qed.

Lemma call_qr_sub op u s v url :
  qrCodes (call op u s) !! v = Some url → qrCodes s !! v = Some url.
Proof.
  unfold call.
  set (s0 := with_tasks (λ ts, ts ++ [Running]) s).
  change (qrCodes s) with (qrCodes s0). generalize (length (tasks s)). clearbody s0.
  intros tid. destruct op.
  - unfold initializeWhatsApp. destruct (init_guard u s0); [done|].
    destruct (initializingClients s0 !! u).
    + by destruct (await_promise_frame tid u n s0) as (_ & _ & -> & _).
    + by destruct (start_op_frame InitMkdir tid u s0) as (_ & _ & -> & _).
  - unfold restoreWhatsAppSession.
    destruct (restore_pending_check_frame tid u s0) as (_ & _ & Hq & _).
    destruct (activeClients s0 !! u) as [c|]; [|by rewrite Hq].
    destruct (client_info s0 c); [done|].
    destruct (connectionStatus s0 !! u) as [[]|]; rewrite ?Hq; done.
  - unfold disconnectWhatsApp. simpl.
    destruct (activeClients s0 !! u); simpl; [done|]. apply delete_sub.
Qed.

Lemma settle_qr_sub d tid a s s' v url :
  settle d tid a s = Some s' → qrCodes s' !! v = Some url → qrCodes s !! v = Some url.
Proof.
  unfold settle. intros Hstep.
  assert (∀ u p o s0, (∀ x, qrCodes s0 !! v = Some x → qrCodes s !! v = Some x) →
            qrCodes (complete_op tid u p o s0) !! v = Some url → qrCodes s !! v = Some url)
    as Hcomplete.
  { intros u p o s0 Hsub. destruct (complete_op_spec tid u p o s0) as (_ & -> & _). apply Hsub. }
  destruct (tasks s !! tid) as [[]|]; try done; destruct a; try done;
    injection Hstep as <-; try done;
    try (apply Hcomplete; simpl; first [done | intros x; apply delete_sub]);
    try (simpl; apply delete_sub).
  - unfold restore_after_settle. destruct (client_info s c); by apply Hcomplete.
  - unfold restore_after_recheck. destruct (client_info s c); [done|].
    by destruct (restore_pending_check_frame tid u s) as (_ & _ & -> & _).
  - unfold restore_after_files. destruct (hasSessionFiles d fs u); [|done].
    by destruct (start_op_frame RestoreMkdir tid u s) as (_ & _ & -> & _).
Qed.

Lemma step_codes d a s s' :
  step d a s = Some s' → proper_code a → codes_nonempty s → codes_nonempty s'.
Proof.
  intros Hstep Ha Hinv v url Hv. destruct a as [op u|tid a|c ev|c b]; simpl in Hstep.
  - injection Hstep as <-. eapply Hinv, call_qr_sub, Hv.
  - eapply Hinv, settle_qr_sub; [exact Hstep | exact Hv].
  - injection Hstep as <-. unfold emit in Hv.
    destruct (clients s !! c) as [[w h b]|]; [|by eapply Hinv]. simpl in Hv.
    destruct ev as [[x|]| | | |], h; simpl in *;
      try (by eapply Hinv); try (eapply Hinv, delete_sub, Hv).
    destruct (decide (w = v)) as [->|Hne].
    + rewrite lookup_insert_eq in Hv. by injection Hv as <-.
    + rewrite lookup_insert_ne in Hv by done. by eapply Hinv.
  - injection Hstep as <-. by eapply Hinv.
Qed.

Lemma run_codes d acts s s' :
  run d acts s = Some s' → Forall proper_code acts → codes_nonempty s → codes_nonempty s'.
Proof.
  revert s. induction acts as [|a acts IH]; intros s; simpl.
  - by intros [= <-].
  - destruct (step d a s) as [s1|] eqn:E; [|done].
    intros Hrun [Ha Hacts]%Forall_cons Hinv. apply (IH s1 Hrun Hacts). by eapply step_codes.
Qed.

(** X14.  The route [GET /api/whatsapp/qr/:userId], in every reachable
    state in which the issued data URLs are non-empty: when the status of
    the user is [qr_ready] it answers [success: true] with the stored
    code; it answers [success: false] only when no code is stored, and
    then the status is not [qr_ready]; and a code it returns is the stored
    one. *)
Theorem qr_route_serves_pairing_code dirname acts s u :
  run dirname acts initial = Some s → Forall proper_code acts →
  (getConnectionStatus u s = qr_ready →
     ∃ url, qrCodes s !! u = Some url
       ∧ qr_route u s = mkQrResponse true (Some url) qr_ready None)
  ∧ (qr_success (qr_route u s) = false →
       qrCodes s !! u = None ∧ getConnectionStatus u s ≠ qr_ready
       ∧ qr_code (qr_route u s) = None)
  ∧ (qr_success (qr_route u s) = true → qr_code (qr_route u s) = qrCodes s !! u).
Proof.
  intros Hrun Hacts.
  assert (codes_nonempty s) as Hcodes.
  { eapply run_codes; [exact Hrun | exact Hacts |]. intros v url Hv. simpl in Hv.
    by rewrite lookup_empty in Hv. }
  assert (qr_ready_has_code (connectionStatus s) (qrCodes s)) as Hqr.
  { apply (run_inv dirname acts initial s Hrun). by intros v Hv. }
  assert (getConnectionStatus u s = qr_ready → is_Some (qrCodes s !! u)) as Hready.
  { intros Hst. apply Hqr. unfold getConnectionStatus in Hst.
    destruct (connectionStatus s !! u) as [st|]; simpl in Hst; by subst. }
  unfold qr_route, getQRCode. specialize (Hcodes u).
  destruct (qrCodes s !! u) as [url|] eqn:Hu.
  - specialize (Hcodes url eq_refl). rewrite decide_False by done.
    split; [intros ->; by exists url|]. split; [done|]. done.
  - split; [intros Hst; by destruct (Hready Hst)|]. split; [|done].
    intros _. split; [done|]. split; [|done]. intros Hst. by destruct (Hready Hst).
Qed.

Lemma registered_client_belongs_to_user_witness :
  ∃ cl, clients connecting !! 0 = Some cl ∧ c_user cl = "u1".
Proof.
  apply (registered_client_belongs_to_user backend_dir connecting "u1" 0).
  - exists [Call Initialize "u1"; Settle 1 Fulfil]. reflexivity.
  - reflexivity.
Defined.

Lemma pending_operation_unsettled_witness :
  promises connecting !! 0 = Some None
  ∧ ∃ i t, tasks connecting !! i = Some t ∧ promise_of t = Some ("u1", 0).
Proof.
  destruct (pending_operation_unsettled backend_dir connecting "u1" 0) as (Hp & Hb & _).
  - exists [Call Initialize "u1"; Settle 1 Fulfil]. reflexivity.
  - reflexivity.
  - exact (conj Hp Hb).
Defined.

Lemma failed_operation_clears_session_witness :
  ∃ s', settle backend_dir 1 (Reject launch_error) connecting = Some s'
    ∧ activeClients s' = delete "u1" (activeClients connecting)
    ∧ connectionStatus s' = delete "u1" (connectionStatus connecting)
    ∧ qrCodes s' = delete "u1" (qrCodes connecting)
    ∧ initializingClients s' !! "u1" = None
    ∧ clients s' = clients connecting
    ∧ promises s' = <[0:=Some (Rejected launch_error)]> (promises connecting)
    ∧ ∀ w v, tasks connecting !! w = Some (AwaitInit v 0) →
        outcome_of w s' = Some (Rejected launch_error).
Proof.
  apply (failed_operation_clears_session backend_dir InitHandlers 1 "u1" 0 launch_error
           connecting (InitConnect "u1" 0 0)).
  - reflexivity.
  - right. exists 0. reflexivity.
Defined.

Lemma ready_session_calls_are_noops_witness :
  ∃ s', run backend_dir [Call Initialize "u1"; Call Restore "u1"] ready_session = Some s'
    ∧ registry s' = registry ready_session ∧ clients s' = clients ready_session
    ∧ promises s' = promises ready_session
    ∧ pendingLog s' = pendingLog ready_session
    ∧ tasks s' = tasks ready_session
        ++ [Done (Resolved res_already_connected);
            Done (Resolved res_already_connected_restore)].
Proof.
  apply (ready_session_calls_are_noops backend_dir "u1" 0 [Initialize; Restore] ready_session).
  - reflexivity.
  - reflexivity.
  - repeat constructor; discriminate.
Defined.

Lemma restore_with_credentials_witness :
  ∃ s3 s4,
    run backend_dir (restore_schedule 0 with_credentials [] [] [] [] "u1") initial = Some s3
    ∧ tasks s3 !! 1 = Some (RestoreSettle "u1" 0 0)
    ∧ activeClients s3 !! "u1" = Some 0
    ∧ connectionStatus s3 !! "u1" = Some restoring
    ∧ run backend_dir [Settle 1 Fulfil] s3 = Some s4
    ∧ outcome_of 0 s4
      = Some (Resolved (if client_info s3 0 then res_restored else res_not_connected_yet))
    ∧ initializingClients s4 !! "u1" = None.
Proof.
  destruct (restore_with_credentials backend_dir "u1" with_credentials initial [] [] [] []
              eq_refl eq_refl eq_refl interference_nil interference_nil interference_nil
              interference_nil)
    as (s3 & s4 & Hrun & Ht & _ & _ & _ & _ & Hquiet & Hrun4 & Ho & _ & _ & _ & _ & _ & Hn).
  exists s3, s4. destruct (Hquiet (conj eq_refl eq_refl)) as (Ha & Hst & _).
  exact (conj Hrun (conj Ht (conj Ha (conj Hst (conj Hrun4 (conj Ho Hn)))))).
Defined.

Lemma qr_route_serves_pairing_code_witness :
  ∃ s, run backend_dir qr_schedule initial = Some s
    ∧ ∃ url, qrCodes s !! "u1" = Some url
        ∧ qr_route "u1" s = mkQrResponse true (Some url) qr_ready None.
Proof.
  destruct (run backend_dir qr_schedule initial) as [s|] eqn:Hrun; [|discriminate Hrun].
  exists s. split; [reflexivity|].
  destruct (qr_route_serves_pairing_code backend_dir qr_schedule s "u1" Hrun) as (H & _).
  - repeat constructor. discriminate.
  - apply H. vm_compute in Hrun. injection Hrun as <-. reflexivity.
Defined.

Import Accounts.

(** *** The email pattern *)

Lemma nullable_matches r : nullable r = true ↔ matches r [].
Proof.
  split.
  - induction r; simpl; try done.
    + intros _. constructor.
    + intros [H1 H2]%andb_true_iff. apply (matches_cat r1 r2 [] []); auto.
    + intros [H|H]%orb_true_iff; [apply matches_alt_l | apply matches_alt_r]; auto.
    + intros _. constructor.
  - intros H. remember [] as s eqn:Es. induction H; simpl; try done.
    + apply app_eq_nil in Es as [-> ->]. rewrite IHmatches1, IHmatches2; done.
    + rewrite IHmatches; done.
    + rewrite IHmatches, orb_true_r; done.
Qed.

Lemma deriv_sound a r s : matches (deriv a r) s → matches r (a :: s).
Proof.
  revert s. induction r; intros s; simpl.
  - inversion 1.
  - inversion 1.
  - destruct (p a) eqn:Hp; inversion 1; subst. by constructor.
  - destruct (nullable r1) eqn:Hn.
    + inversion 1; subst.
      * match goal with H : matches (Cat _ _) _ |- _ => inversion H; subst end.
        apply (matches_cat r1 r2 (a :: s1) s2); auto.
      * apply (matches_cat r1 r2 [] (a :: s)); [by apply nullable_matches | auto].
    + inversion 1; subst. apply (matches_cat r1 r2 (a :: s1) s2); auto.
  - inversion 1; subst; [apply matches_alt_l | apply matches_alt_r]; auto.
  - inversion 1; subst. apply (matches_star_cons r (a :: s1) s2); auto.
Qed.

Lemma deriv_complete a r s : matches r (a :: s) → matches (deriv a r) s.
Proof.
  intros H. remember (a :: s) as s' eqn:Es. revert a s Es.
  induction H; intros a' s' Es; simpl; try discriminate Es.
  - injection Es as -> <-. rewrite H. constructor.
  - destruct s1 as [|b s1]; simpl in Es.
    + subst s2. apply nullable_matches in H. rewrite H.
      apply matches_alt_r. by apply IHmatches2.
    + injection Es as -> <-.
      assert (matches (Cat (deriv a' r1) r2) (s1 ++ s2)) by (constructor; auto).
      destruct (nullable r1); [by apply matches_alt_l | done].
  - apply matches_alt_l. auto.
  - apply matches_alt_r. auto.
  - destruct s1 as [|b s1]; simpl in Es.
    + subst s2. by apply IHmatches2.
    + injection Es as -> <-. constructor; auto.
Qed.

Lemma regex_test_matches r s : regex_test r s = true ↔ matches r s.
Proof.
  revert r. induction s as [|a s IH]; intros r; simpl.
  - apply nullable_matches.
  - rewrite IH. split; [apply deriv_sound | apply deriv_complete].
Qed.

Lemma matches_class_inv p s : matches (CharClass p) s → ∃ a, s = [a] ∧ p a = true.
Proof. inversion 1; subst. by eexists. Qed.

Lemma matches_cat_inv r1 r2 s :
  matches (Cat r1 r2) s → ∃ s1 s2, s = s1 ++ s2 ∧ matches r1 s1 ∧ matches r2 s2.
Proof. inversion 1; subst. by eexists _, _. Qed.

Lemma matches_star_class p s : matches (Star (CharClass p)) s ↔ forallb p s = true.
Proof.
  split.
  - intros H. remember (Star (CharClass p)) as r eqn:Er. induction H; try discriminate Er; [done|].
    injection Er as ->. apply matches_class_inv in H as (a & -> & Ha).
    simpl. rewrite Ha. by apply IHmatches2.
  - induction s as [|a s IH]; simpl; [constructor|].
    intros [Ha Hs]%andb_true_iff.
    apply (matches_star_cons (CharClass p) [a] s); [by constructor | auto].
Qed.

Lemma matches_plus_class p s :
  matches (Plus (CharClass p)) s ↔ s ≠ [] ∧ forallb p s = true.
Proof.
  unfold Plus. split.
  - intros (s1 & s2 & -> & H1 & H2)%matches_cat_inv.
    apply matches_class_inv in H1 as (a & -> & Ha).
    simpl. split; [done|]. rewrite Ha. by apply matches_star_class.
  - intros [Hne Hs]. destruct s as [|a s]; [done|]. simpl in Hs.
    apply andb_true_iff in Hs as [Ha Hs].
    apply (matches_cat (CharClass p) _ [a] s); [by constructor|].
    by apply matches_star_class.
Qed.

Lemma matches_is_char c s : matches (is_char c) s ↔ s = [code c].
Proof.
  unfold is_char. split.
  - intros (a & -> & Ha)%matches_class_inv. by apply N.eqb_eq in Ha as ->.
  - intros ->. constructor. by apply N.eqb_eq.
Qed.

Lemma emailRegex_language email :
  matches emailRegex email
  ↔ ∃ loc dom tld, email = loc ++ js "@" ++ dom ++ js "." ++ tld
      ∧ plain loc ∧ plain dom ∧ plain tld.
Proof.
  unfold emailRegex, plain. split.
  - intros (loc & s1 & -> & Hloc & H1)%matches_cat_inv.
    apply matches_cat_inv in H1 as (at_ & s2 & -> & Hat & H2).
    apply matches_cat_inv in H2 as (dom & s3 & -> & Hdom & H3).
    apply matches_cat_inv in H3 as (dot & tld & -> & Hdot & Htld).
    apply matches_is_char in Hat as ->. apply matches_is_char in Hdot as ->.
    apply matches_plus_class in Hloc, Hdom, Htld.
    by exists loc, dom, tld.
  - intros (loc & dom & tld & -> & Hloc & Hdom & Htld).
    apply matches_plus_class in Hloc, Hdom, Htld.
    apply matches_cat; [done|].
    apply (matches_cat _ _ (js "@")); [by apply matches_is_char|].
    apply matches_cat; [done|].
    apply (matches_cat _ _ (js ".")); [by apply matches_is_char | done].
Qed.

(** X15.  The email pattern of the register route accepts exactly the
    strings [local@domain.tld] whose three parts are non-empty and free of
    white space, as [\s] understands it, and of [@]; the domain and the
    last part may themselves contain dots. *)
Theorem emailRegex_shape email :
  regex_test emailRegex email = true
  ↔ ∃ loc dom tld, email = loc ++ js "@" ++ dom ++ js "." ++ tld
      ∧ plain loc ∧ plain dom ∧ plain tld.
Proof. rewrite regex_test_matches. apply emailRegex_language. Qed.

(** *** The write queue *)

Lemma idle_ok f : writer_ok (idle f).
Proof.
  apply mkWriterOk; simpl; try done.
  - lia.
  - intros op Hop. by apply elem_of_nil in Hop.
  - by intros [|??] id H.
Qed.

Lemma writer_ok_single w k x :
  writer_ok w → inProgress w !! k = Some x → k = 0 ∧ inProgress w = [x].
Proof.
  intros [_ Hone _ _ _ _] Hk. destruct (inProgress w) as [|y [|z l]]; simpl in *; try done.
  - destruct k; [by injection Hk as -> | done].
  - lia.
Qed.

Lemma writeUsers_ok v w : writer_ok w → writer_ok (writeUsers v w).
Proof.
  intros [Hlock Hone Hqueue Horder Hvalues Hfile]. unfold writeUsers. simpl.
  assert (∀ op, op ∈ pending_ops w → op_id op < length (issuedWrites w)) as Hlt.
  { intros op Hop. by eapply lookup_lt_Some, Hvalues. }
  assert (∀ l id, settledWrites w = l ++ [(id, Returns tt)] →
            ∃ v', (issuedWrites w ++ [v]) !! id = Some v'
                  ∧ usersFile w = Holds (JUsers (array_or_empty v'))) as Hfile'.
  { intros l id Hl. destruct (Hfile l id Hl) as (v' & Hv' & Hf). exists v'. split; [|done].
    rewrite lookup_app_l; [done | by eapply lookup_lt_Some]. }
  destruct (isWritingUsers w) eqn:Hw.
  - apply mkWriterOk; simpl.
    + done.
    + done.
    + done.
    + unfold settled_ids, pending_ops, in_progress_ops in *. simpl.
      rewrite length_app, seq_app, <- Horder. simpl.
      rewrite !fmap_app, !app_assoc. done.
    + unfold pending_ops, in_progress_ops in *. simpl. intros op Hop.
      rewrite app_assoc in Hop. apply elem_of_app in Hop as [Hop|Hop].
      * rewrite lookup_app_l by (by apply Hlt). by apply Hvalues.
      * apply list_elem_of_singleton in Hop as ->. simpl. apply lookup_snoc.
    + done.
  - assert (inProgress w = []) as Hin.
    { symmetry in Hlock. apply bool_decide_eq_false in Hlock.
      destruct (inProgress w); [done | exfalso; by apply Hlock]. }
    assert (writeQueue w = []) as Hq by (by apply Hqueue).
    unfold start_write, set_writing. apply mkWriterOk; simpl.
    + rewrite Hin. done.
    + rewrite Hin. simpl. lia.
    + intros [=].
    + unfold settled_ids, pending_ops, in_progress_ops in *. simpl.
      rewrite Hin, Hq in *. simpl in *. rewrite app_nil_r in Horder.
      by rewrite length_app, seq_app, <- Horder.
    + unfold pending_ops, in_progress_ops. simpl. rewrite Hin, Hq. simpl.
      intros op Hop. apply list_elem_of_singleton in Hop as ->. simpl. apply lookup_snoc.
    + done.
Qed.

Lemma write_ends_ok op ph r f w :
  writer_ok w → inProgress w = [(op, ph)] →
  (r = Returns tt → f = Holds (JUsers (array_or_empty (op_users op)))) →
  writer_ok (write_ends 0 op r f w).
Proof.
  destruct w as [file writing queue inprog settled issued].
  intros [Hlock Hone Hqueue Horder Hvalues Hfile] Hin Hr.
  unfold settled_ids, pending_ops, in_progress_ops in *. simpl in *. subst inprog.
  simpl in *.
  assert (∀ l id, settled ++ [(op_id op, r)] = l ++ [(id, Returns tt)] →
            ∃ v, issued !! id = Some v ∧ f = Holds (JUsers (array_or_empty v)))
    as Hfile'.
  { intros l id Hl. apply app_inj_tail in Hl as [_ [= <- ->]].
    exists (op_users op). split; [|by apply Hr]. apply Hvalues. apply list_elem_of_here. }
  unfold write_ends, write_finally, set_writing, start_write. simpl.
  destruct queue as [|next rest]; apply mkWriterOk;
    unfold settled_ids, pending_ops, in_progress_ops; simpl; try done; try lia.
  - rewrite fmap_app, <- Horder. simpl. by rewrite <- app_assoc.
  - intros op' Hop'. by apply elem_of_nil in Hop'.
  - rewrite fmap_app, <- Horder. simpl. by rewrite <- app_assoc.
  - intros op' Hop'. apply Hvalues. by apply list_elem_of_further.
Qed.

Lemma writer_step_ok a w w' : writer_step a w = Some w' → writer_ok w → writer_ok w'.
Proof.
  intros Hstep Hok. destruct a as [v|k r|k a]; simpl in Hstep.
  - injection Hstep as <-. by apply writeUsers_ok.
  - destruct (inProgress w !! k) as [[op ph]|] eqn:Hk; [|done].
    destruct (writer_ok_single w k _ Hok Hk) as [-> Hin].
    destruct ph; [|done]. destruct r as [[]|e]; injection Hstep as <-.
    + destruct Hok as [Hlock Hone Hqueue Horder Hvalues Hfile].
      unfold settled_ids, pending_ops, in_progress_ops in *.
      apply mkWriterOk; simpl; rewrite ?Hin in *; simpl in *; done.
    + by apply (write_ends_ok op AtMkdir).
  - destruct (inProgress w !! k) as [[op ph]|] eqn:Hk; [|done].
    destruct (writer_ok_single w k _ Hok Hk) as [-> Hin].
    destruct ph; [done|]. destruct a as [|e remains]; injection Hstep as <-.
    + by apply (write_ends_ok op AtWriteFile).
    + by apply (write_ends_ok op AtWriteFile).
Qed.

Lemma writer_run_ok acts w w' : writer_run acts w = Some w' → writer_ok w → writer_ok w'.
Proof.
  revert w. induction acts as [|a acts IH]; intros w; simpl.
  - by intros [= <-].
  - destruct (writer_step a w) as [w1|] eqn:E; [|done].
    intros Hrun Hok. apply (IH w1 Hrun). by eapply writer_step_ok.
Qed.

(** X16.  However calls of [writeUsers] and the settlements of
    [fs.mkdir] and [fs.writeFile] interleave, at most one write operation
    is between its start and its [finally] block; [isWritingUsers] is true
    exactly while there is one; and a write waits in the queue only while
    the flag is set. *)
Theorem one_write_at_a_time f acts w :
  writer_run acts (idle f) = Some w →
  length (inProgress w) ≤ 1
  ∧ (isWritingUsers w = true ↔ inProgress w ≠ [])
  ∧ (isWritingUsers w = false → writeQueue w = []).
Proof.
  intros Hrun. destruct (writer_run_ok acts _ w Hrun (idle_ok f)) as [Hlock Hone Hqueue _ _ _].
  split; [done|]. split; [|done]. rewrite Hlock. apply bool_decide_eq_true.
Qed.

(** X17.  The promises returned by [writeUsers] settle in the order of
    the calls, and no call is lost or run twice: at any moment the writes
    settled so far, the one in progress and the queue, in this order, are
    the calls made so far, each still carrying the users it was given. *)
Theorem writes_settle_in_call_order f acts w :
  writer_run acts (idle f) = Some w →
  settled_ids w ++ (op_id <$> pending_ops w) = seq 0 (length (issuedWrites w))
  ∧ (∀ op, op ∈ pending_ops w → issuedWrites w !! op_id op = Some (op_users op)).
Proof.
  intros Hrun. by destruct (writer_run_ok acts _ w Hrun (idle_ok f)) as [_ _ _ Horder Hvalues _].
Qed.

(** X18.  Once the store is idle again, if the promise settled last was
    fulfilled, the file holds the users given to the last call of
    [writeUsers] (the empty array if that argument was no array), whatever
    the interleaving of the calls and of the file-system settlements. *)
Theorem last_write_wins f acts w vs v id :
  writer_run acts (idle f) = Some w →
  isWritingUsers w = false →
  issuedWrites w = vs ++ [v] →
  last (settledWrites w) = Some (id, Returns tt) →
  usersFile w = Holds (JUsers (array_or_empty v)).
Proof.
  intros Hrun Hidle Hissued Hlast.
  destruct (writer_run_ok acts _ w Hrun (idle_ok f)) as [Hlock _ Hqueue Horder _ Hfile].
  assert (inProgress w = []) as Hin.
  { rewrite Hidle in Hlock. symmetry in Hlock. apply bool_decide_eq_false in Hlock.
    destruct (inProgress w); [done | exfalso; by apply Hlock]. }
  apply last_Some in Hlast as [l Hl].
  destruct (Hfile l id Hl) as (v' & Hv' & ->).
  unfold settled_ids, pending_ops, in_progress_ops in Horder.
  rewrite Hin, (Hqueue Hidle), Hl, Hissued in Horder. simpl in Horder.
  rewrite app_nil_r, fmap_app, length_app, seq_app in Horder. simpl in Horder.
  apply app_inj_tail in Horder as [_ ->].
  rewrite Hissued, lookup_snoc in Hv'. by injection Hv' as ->.
Qed.

(** *** Trimming *)

Lemma trimStart_no_space s : forallb not_space s = true → trimStart s = s.
Proof.
  destruct s as [|a s]; simpl; [done|]. unfold not_space.
  by destruct (is_space a).
Qed.

Lemma forallb_rev {A} (p : A → bool) l : forallb p (rev l) = forallb p l.
Proof.
  induction l as [|a l IH]; simpl; [done|].
  rewrite forallb_app, IH. simpl. by rewrite andb_true_r, andb_comm.
Qed.

Lemma trim_no_space s : forallb not_space s = true → trim s = s.
Proof.
  intros Hs. unfold trim. rewrite (trimStart_no_space s Hs).
  rewrite trimStart_no_space; [apply rev_involutive|].
  by rewrite forallb_rev.
Qed.

Lemma forallb_impl {A} (p q : A → bool) l :
  (∀ c, p c = true → q c = true) → forallb p l = true → forallb q l = true.
Proof.
  intros Hpq. induction l as [|a l IH]; simpl; [done|].
  intros [Ha Hs]%andb_true_iff. by rewrite (Hpq a Ha), IH.
Qed.

Lemma plain_not_space s : plain s → forallb not_space s = true.
Proof.
  intros [_ Hs]. apply (forallb_impl not_space_or_at); [|done].
  intros c. unfold not_space_or_at, not_space. by intros [? _]%andb_true_iff.
Qed.

Lemma valid_email_no_space email :
  regex_test emailRegex email = true → forallb not_space email = true.
Proof.
  rewrite regex_test_matches, emailRegex_language.
  intros (loc & dom & tld & -> & Hl & Hd & Ht).
  rewrite !forallb_app.
  rewrite (plain_not_space loc), (plain_not_space dom), (plain_not_space tld) by done.
  reflexivity.
Qed.

(** An address that matches the pattern has nothing to trim. *)
Lemma valid_email_trim email :
  regex_test emailRegex email = true → trim email = email.
Proof. intros H. by apply trim_no_space, valid_email_no_space. Qed.

(** *** The account routes *)

Lemma writeUsers_alone_spec v d f :
  writeUsers_alone v d f
  = match d with
    | DiskOk => (Returns tt, Holds (JUsers (array_or_empty v)))
    | DiskMkdirFails e => (Throws e, f)
    | DiskWriteFails e remains => (Throws e, remains)
    end.
Proof. by destruct d. Qed.

Lemma missing_false s : missing s = false ↔ s ≠ [].
Proof. unfold missing. case_bool_decide; split; done. Qed.

Lemma missing_true s : missing s = true ↔ s = [].
Proof. unfold missing. case_bool_decide; split; done. Qed.

Lemma readUsers_users repair f users :
  (readUsers repair f).1 = Returns (JUsers users) → users = stored f.
Proof. destruct f as [|e| | |[us|]]; simpl; by intros [= <-]. Qed.

Lemma readUsers_file repair f :
  (readUsers repair f).2 = f
  ∨ (f = Malformed ∧ (readUsers repair f).2 = (writeUsers_alone (JUsers []) repair f).2).
Proof. destruct f as [|e| | |[us|]]; simpl; auto. Qed.

Lemma find_none_forall {A} (p : A → bool) l :
  List.find p l = None ↔ Forall (λ x, p x = false) l.
Proof.
  induction l as [|x l IH]; simpl; [by split|].
  destruct (p x) eqn:Hx.
  - split; [done|]. intros H. apply Forall_cons in H as [H _]. congruence.
  - rewrite IH. split; [by constructor | by intros [_ ?]%Forall_cons].
Qed.

Lemma find_first {A} (p : A → bool) l x :
  List.find p l = Some x ↔
  ∃ i, l !! i = Some x ∧ p x = true ∧ ∀ j y, l !! j = Some y → j < i → p y = false.
Proof.
  revert x. induction l as [|a l IH]; intros x; simpl.
  - split; [done | by intros (i & Hi & _)].
  - destruct (p a) eqn:Ha.
    + split.
      * intros [= <-]. exists 0. split; [done|]. split; [done|]. intros j y _ Hj. lia.
      * intros ([|i] & Hi & Hx & Hfirst); [by injection Hi as -> |].
        specialize (Hfirst 0 a eq_refl). rewrite Ha in Hfirst. discriminate Hfirst. lia.
    + rewrite IH. split.
      * intros (i & Hi & Hx & Hfirst). exists (S i). split; [done|]. split; [done|].
        intros [|j] y Hy Hj; [by injection Hy as <- |]. apply (Hfirst j); [done | lia].
      * intros ([|i] & Hi & Hx & Hfirst); [injection Hi as ->; congruence|].
        exists i. split; [done|]. split; [done|].
        intros j y Hy Hj. apply (Hfirst (S j)); [done | lia].
Qed.

Lemma findIndex_first {A} (p : A → bool) l i :
  findIndex p l = Some i ↔
  ∃ x, l !! i = Some x ∧ p x = true ∧ ∀ j y, l !! j = Some y → j < i → p y = false.
Proof.
  revert i. induction l as [|a l IH]; intros i; simpl.
  - split; [done | by intros (x & Hi & _)].
  - destruct (p a) eqn:Ha.
    + split.
      * intros [= <-]. exists a. split; [done|]. split; [done|]. intros j y _ Hj. lia.
      * intros (x & Hi & Hx & Hfirst). destruct i as [|i]; [done|].
        specialize (Hfirst 0 a eq_refl). rewrite Ha in Hfirst. discriminate Hfirst. lia.
    + destruct (findIndex p l) as [k|] eqn:Hk; simpl.
      * split.
        -- intros [= <-]. destruct (proj1 (IH k) eq_refl) as (x & Hi & Hx & Hfirst).
           exists x. split; [done|]. split; [done|].
           intros [|j] y Hy Hj; [by injection Hy as <- |]. apply (Hfirst j); [done | lia].
        -- intros (x & Hi & Hx & Hfirst). destruct i as [|i]; [injection Hi as ->; congruence|].
           f_equal. symmetry. assert (Some k = Some i) as [= ->]; [|done].
           apply IH. exists x. split; [done|]. split; [done|].
           intros j y Hy Hj. apply (Hfirst (S j)); [done | lia].
      * split; [done|]. intros (x & Hi & Hx & Hfirst).
        destruct i as [|i]; [injection Hi as ->; congruence|].
        assert (None = Some i) as [=]. apply IH. exists x. split; [done|]. split; [done|].
        intros j y Hy Hj. apply (Hfirst (S j)); [done | lia].
Qed.

Section Handlers.

Variable toLowerCase : jstring → jstring.
Variables (now : Z) (iso : jstring) (repair save : DiskAnswer).

Local Abbreviation register := (Accounts.register toLowerCase).
Local Abbreviation login := (Accounts.login toLowerCase).
Local Abbreviation newUser_of := (Accounts.newUser_of toLowerCase).

Lemma login_stored repair' email password f users :
  email ≠ [] → password ≠ [] →
  (readUsers repair' f).1 = Returns (JUsers users) →
  login email password repair' f
  = (match List.find (λ u, bool_decide (user_email u = trim (toLowerCase email))) users with
     | None => refuse 401 "Invalid email or password"
     | Some user =>
       if negb (bool_decide (user_password user = password)) then
         refuse 401 "Invalid email or password"
       else mkResponse 200 true "Login successful" (Some (withoutPassword user))
     end, (readUsers repair' f).2).
Proof.
  intros He Hp Hr. unfold Accounts.login. apply missing_false in He, Hp. rewrite He, Hp. simpl.
  destruct (readUsers repair' f) as [r f1]. simpl in Hr. subst r. simpl.
  destruct (List.find _ users); [|done]. by destruct (negb _).
Qed.

Lemma valid_request_dec name email password :
  Decision (valid_request name email password).
Proof. unfold valid_request. apply _. Qed.

Lemma register_invalid name email password f :
  ¬ valid_request name email password →
  ∃ msg, register name email password now iso repair save f = (refuse 400 msg, f).
Proof.
  intros Hinv. unfold Accounts.register.
  destruct (missing name) eqn:Hn; simpl; [by eexists|].
  destruct (missing email) eqn:He; simpl; [by eexists|].
  destruct (missing password) eqn:Hp; simpl; [by eexists|].
  case_bool_decide as Hlen; simpl; [by eexists|].
  destruct (regex_test emailRegex email) eqn:Hre; simpl; [|by eexists].
  exfalso. apply Hinv. apply missing_false in Hn, He, Hp.
  unfold valid_request. repeat split; try done. lia.
Qed.

Lemma register_valid name email password f :
  valid_request name email password →
  register name email password now iso repair save f
  = match readUsers repair f with
    | (Returns (JUsers users), f1) =>
      match List.find (λ user, bool_decide (user_email user = email)) users with
      | Some _ => (refuse 409 "User with this email already exists", f1)
      | None =>
        match writeUsers_alone
                (JUsers (users ++ [newUser_of name email password now iso])) save f1 with
        | (Returns _, f2) =>
          (mkResponse 201 true "User created successfully"
             (Some (withoutPassword (newUser_of name email password now iso))), f2)
        | (Throws _, f2) => (internal_error, f2)
        end
      end
    | (_, f1) => (internal_error, f1)
    end.
Proof.
  intros (Hn & He & Hp & Hlen & Hre). unfold Accounts.register, Accounts.newUser_of.
  apply missing_false in Hn, He, Hp. rewrite Hn, He, Hp, Hre. simpl.
  by rewrite bool_decide_eq_false_2 by lia.
Qed.

(** X19.  The register route answers 400 exactly when the name, the email
    or the password is missing, the password has fewer than 6 code units,
    or the email does not match the pattern; it then leaves the file as it
    is and returns no user. *)
Theorem register_refuses_invalid name email password f :
  let r := register name email password now iso repair save f in
  (http_status r.1 = 400 ↔ ¬ valid_request name email password)
  ∧ (¬ valid_request name email password →
       r.2 = f ∧ resp_success r.1 = false ∧ resp_user r.1 = None).
Proof.
  intros r. unfold r. split.
  - split.
    + intros Hst Hv. rewrite (register_valid _ _ _ _ Hv) in Hst.
      destruct (readUsers repair f) as [[[users|]|e] f1]; simpl in Hst; try done.
      destruct (List.find _ users); simpl in Hst; [done|].
      by destruct (writeUsers_alone _ save f1) as [[[]|e] f2].
    + intros Hinv. by destruct (register_invalid _ _ _ f Hinv) as [msg ->].
  - intros Hinv. by destruct (register_invalid _ _ _ f Hinv) as [msg ->].
Qed.

Lemma register_created name email password f resp f' :
  register name email password now iso repair save f = (resp, f') →
  http_status resp = 201 →
  valid_request name email password
  ∧ List.find (λ user, bool_decide (user_email user = email)) (stored f) = None
  ∧ (readUsers repair f).1 = Returns (JUsers (stored f))
  ∧ f' = Holds (JUsers (stored f ++ [newUser_of name email password now iso]))
  ∧ resp = mkResponse 201 true "User created successfully"
             (Some (withoutPassword (newUser_of name email password now iso))).
Proof.
  intros Hreg Hst.
  destruct (valid_request_dec name email password) as [Hv|Hinv].
  2: { destruct (register_invalid _ _ _ f Hinv) as [msg E]. rewrite E in Hreg.
       injection Hreg as <- <-. discriminate Hst. }
  split; [done|]. rewrite (register_valid _ _ _ _ Hv) in Hreg.
  pose proof (readUsers_users repair f) as Hus.
  destruct (readUsers repair f) as [[[users|]|e] f1]; simpl in *;
    try (injection Hreg as <- <-; discriminate Hst).
  rewrite <- (Hus users eq_refl).
  destruct (List.find _ users) eqn:Hfind; [injection Hreg as <- <-; discriminate Hst|].
  rewrite writeUsers_alone_spec in Hreg.
  by destruct save; injection Hreg as <- <-; try discriminate Hst.
Qed.

(** X20.  When the register route answers 201 the request was valid, no
    stored user had the address as it was sent, and the file now holds the
    users it held followed by the new one: id [Date.now()] in decimal, the
    name trimmed, the address lower-cased and then trimmed, the password
    as it was sent.  The response carries that user without the
    password. *)
Theorem register_stores_new_user name email password f resp f' :
  register name email password now iso repair save f = (resp, f') →
  http_status resp = 201 →
  valid_request name email password
  ∧ Forall (λ u, user_email u ≠ email) (stored f)
  ∧ (readUsers repair f).1 = Returns (JUsers (stored f))
  ∧ f' = Holds (JUsers (stored f ++
           [mkUser (js (pretty now)) (trim name) (trim (toLowerCase email)) password iso
                   None None None]))
  ∧ resp_user resp
    = Some (mkPublicUser (js (pretty now)) (trim name) (trim (toLowerCase email)) iso
                         None None None)
  ∧ resp_success resp = true.
Proof.
  intros Hreg Hst.
  destruct (register_created _ _ _ _ _ _ Hreg Hst) as (Hv & Hfind & Hread & -> & ->).
  split; [done|]. split; [|done].
  apply find_none_forall in Hfind. eapply Forall_impl; [exact Hfind|].
  intros u Hu. simpl in Hu. by apply bool_decide_eq_false in Hu.
Qed.

(** X21.  After a registration answered 201, a login with the same
    password and an address that lower-cased and trimmed is the stored
    one (the same address in another letter case, or with white space
    around it) succeeds and returns the user the registration returned,
    provided no user stored before had that address; the login leaves the
    file as it is. *)
Theorem register_then_login name email password f resp f' email' repair' :
  register name email password now iso repair save f = (resp, f') →
  http_status resp = 201 →
  Forall (λ u, user_email u ≠ trim (toLowerCase email)) (stored f) →
  email' ≠ [] →
  trim (toLowerCase email') = trim (toLowerCase email) →
  login email' password repair' f'
  = (mkResponse 200 true "Login successful" (resp_user resp), f').
Proof.
  intros Hreg Hst Hfresh He' Hkey.
  destruct (register_created _ _ _ _ _ _ Hreg Hst)
    as ((Hn & He & Hp & Hlen & Hre) & _ & _ & -> & ->).
  rewrite (login_stored repair' email' password (Holds (JUsers _)) _ He' Hp eq_refl).
  simpl. f_equal. rewrite Hkey.
  assert (List.find (λ u, bool_decide (user_email u = trim (toLowerCase email)))
            (stored f ++ [newUser_of name email password now iso])
          = Some (newUser_of name email password now iso)) as ->.
  { apply find_first. exists (length (stored f)). split; [apply lookup_snoc|].
    split; [by apply bool_decide_eq_true|].
    intros j y Hy Hj. rewrite lookup_app_l in Hy by done.
    apply bool_decide_eq_false. eapply Forall_lookup_1 in Hfresh; [|exact Hy]. done. }
  simpl. by rewrite bool_decide_eq_true_2.
Qed.

(** X22.  The login route answers 200 only for the first stored user
    whose address is the lower-cased, trimmed address of the request, and
    only if the password of that user is the one sent: a later user with
    the same address cannot log in.  An unknown address and a wrong
    password get the same 401 response, and the route changes the file
    only when it finds it malformed. *)
Theorem login_first_match email password f resp f' :
  login email password repair f = (resp, f') →
  (http_status resp = 200 →
     ∃ users i user, f = Holds (JUsers users) ∧ f' = f
       ∧ users !! i = Some user
       ∧ user_email user = trim (toLowerCase email)
       ∧ (∀ j u, users !! j = Some u → j < i → user_email u ≠ trim (toLowerCase email))
       ∧ user_password user = password
       ∧ resp = mkResponse 200 true "Login successful" (Some (withoutPassword user)))
  ∧ (http_status resp = 401 → resp = refuse 401 "Invalid email or password")
  ∧ (f ≠ Malformed → f' = f).
Proof.
  intros Hlogin. unfold Accounts.login in Hlogin.
  destruct (missing email || missing password).
  { injection Hlogin as <- <-. split; [done|]. by split. }
  assert (f ≠ Malformed → (readUsers repair f).2 = f) as Hfile.
  { intros Hf. by destruct (readUsers_file repair f) as [?|[? _]]. }
  assert (∀ users, (readUsers repair f).1 = Returns (JUsers users) → users ≠ [] →
            f = Holds (JUsers users)) as Hholds.
  { intros users. destruct f as [|e| | |[us|]]; simpl; try done; by intros [= <-]. }
  destruct (readUsers repair f) as [[[users|]|e] f1]; simpl in *;
    try (injection Hlogin as <- <-; split; [done|]; by split).
  destruct (List.find _ users) as [user|] eqn:Hfind;
    [|injection Hlogin as <- <-; split; [done|]; by split].
  apply find_first in Hfind as (i & Hi & Hu & Hfirst).
  apply bool_decide_eq_true in Hu.
  assert (f = Holds (JUsers users)) as Hf.
  { apply Hholds; [done|]. intros ->. by rewrite lookup_nil in Hi. }
  case_bool_decide as Hpw; simpl in Hlogin; injection Hlogin as <- <-;
    [|split; [done|]; by split].
  split; [|by split]. intros _. exists users, i, user.
  split; [done|]. split; [apply Hfile; by rewrite Hf|].
  repeat split; try done.
  intros j u Hj Hlt. specialize (Hfirst j u Hj Hlt). by apply bool_decide_eq_false in Hfirst.
Qed.

(** X24.  The duplicate check of the register route compares the address
    as sent with the stored addresses, which are lower-case: a request
    whose address contains an upper-case letter is never answered 409. *)
Theorem duplicate_check_is_case_sensitive name email password f :
  Forall (λ u, toLowerCase (user_email u) = user_email u) (stored f) →
  toLowerCase email ≠ email →
  http_status (register name email password now iso repair save f).1 ≠ 409.
Proof.
  intros Hlow Hmixed.
  destruct (valid_request_dec name email password) as [Hv|Hinv];
    [|by destruct (register_invalid _ _ _ f Hinv) as [msg ->]].
  rewrite (register_valid _ _ _ _ Hv).
  pose proof (readUsers_users repair f) as Hus.
  destruct (readUsers repair f) as [[[users|]|e] f1]; simpl in *; try done.
  rewrite <- (Hus users eq_refl) in Hlow.
  destruct (List.find _ users) as [u|] eqn:Hfind.
  - apply find_first in Hfind as (i & Hi & Hu & _). apply bool_decide_eq_true in Hu.
    eapply Forall_lookup_1 in Hlow; [|exact Hi]. simpl in Hlow. congruence.
  - by destruct (writeUsers_alone _ save f1) as [[[]|e] f2].
Qed.

(** X25.  On a file that holds users and a disk that takes the write,
    [updateUserWhatsAppStatus] keeps the number and the order of the users
    and the id, name, address, password and creation time of each; it
    changes at most the first user whose id is the given, non-empty one,
    setting [whatsappConnected] and the matching timestamp, and on connect
    removing a non-empty [whatsappDisconnectedAt]. *)
Theorem status_update_touches_one_user userId isConnected users :
  save = DiskOk →
  ∃ users',
    updateUserWhatsAppStatus userId isConnected iso repair save (Holds (JUsers users))
    = Holds (JUsers users')
    ∧ length users' = length users
    ∧ ∀ j u, users !! j = Some u →
        ∃ u', users' !! j = Some u' ∧ account_identity u' = account_identity u
          ∧ (u' = u
             ∨ (userId ≠ [] ∧ user_id u = userId
                ∧ (∀ k v, users !! k = Some v → k < j → user_id v ≠ userId)
                ∧ whatsappConnected u' = Some isConnected
                ∧ (if isConnected
                   then whatsappConnectedAt u' = Some iso
                        ∧ (whatsappDisconnectedAt u' = None
                           ∨ whatsappDisconnectedAt u' = Some [])
                   else whatsappDisconnectedAt u' = Some iso
                        ∧ whatsappConnectedAt u' = whatsappConnectedAt u))).
Proof.
  intros ->. unfold updateUserWhatsAppStatus.
  assert (∃ users', Holds (JUsers users) = Holds (JUsers users')
            ∧ length users' = length users
            ∧ ∀ j u, users !! j = Some u →
                ∃ u', users' !! j = Some u' ∧ account_identity u' = account_identity u
                  ∧ (u' = u ∨ (userId ≠ [] ∧ user_id u = userId
                ∧ (∀ k v, users !! k = Some v → k < j → user_id v ≠ userId)
                ∧ whatsappConnected u' = Some isConnected
                ∧ (if isConnected
                   then whatsappConnectedAt u' = Some iso
                        ∧ (whatsappDisconnectedAt u' = None
                           ∨ whatsappDisconnectedAt u' = Some [])
                   else whatsappDisconnectedAt u' = Some iso
                        ∧ whatsappConnectedAt u' = whatsappConnectedAt u)))) as Hsame.
  { exists users. split; [done|]. split; [done|]. intros j u Hj. exists u. auto. }
  destruct (missing userId) eqn:Hid; simpl; [done|]. apply missing_false in Hid.
  destruct (findIndex _ users) as [i|] eqn:Hfind; [|done].
  apply findIndex_first in Hfind as (x & Hi & Hx & Hfirst). apply bool_decide_eq_true in Hx.
  rewrite ?writeUsers_alone_spec. simpl.
  eexists. split; [done|]. split; [by rewrite length_alter|].
  intros j u Hj. destruct (decide (j = i)) as [->|Hne].
  - rewrite list_lookup_alter_eq, Hi. simpl. rewrite Hi in Hj. injection Hj as <-.
    eexists. split; [done|]. split; [by destruct isConnected|]. right.
    split; [done|]. split; [done|]. split.
    { intros k v Hk Hlt. specialize (Hfirst k v Hk Hlt). by apply bool_decide_eq_false in Hfirst. }
    destruct isConnected; simpl; (split; [done|]).
    + split; [done|]. destruct (whatsappDisconnectedAt x) as [t|]; [|by left].
      destruct (missing t) eqn:Ht; [|by left]. apply missing_true in Ht as ->. by right.
    + done.
  - rewrite list_lookup_alter_ne by done. exists u. auto.
Qed.

End Handlers.

(** X23.  After a registration answered 201 of an address that is stored
    as it was sent (lower-casing and trimming leave it as it is), a second
    registration of the same address, whatever the name and the password,
    is answered 409 and leaves the file as it is. *)
Theorem register_twice_same_email toLowerCase now iso repair save name email password
    f resp f' name2 password2 now2 iso2 repair2 save2 :
  register toLowerCase name email password now iso repair save f = (resp, f') →
  http_status resp = 201 →
  trim (toLowerCase email) = email →
  name2 ≠ [] → 6 ≤ length password2 →
  register toLowerCase name2 email password2 now2 iso2 repair2 save2 f'
  = (refuse 409 "User with this email already exists", f').
Proof.
  intros Hreg Hst Hlow Hn2 Hlen2.
  destruct (register_created _ _ _ _ _ _ _ _ _ _ _ Hreg Hst)
    as ((Hn & He & Hp & Hlen & Hre) & _ & _ & -> & ->).
  assert (valid_request name2 email password2) as Hv2.
  { unfold valid_request. repeat split; try done. intros ->. simpl in Hlen2. lia. }
  rewrite (register_valid _ _ _ _ _ _ _ _ _ Hv2). simpl.
  destruct (List.find _ _) eqn:Hfind; [done|].
  apply find_none_forall, Forall_app in Hfind as [_ Hfind].
  apply Forall_cons in Hfind as [Hfind _]. simpl in Hfind.
  apply bool_decide_eq_false in Hfind. done.
Qed.

Section Normalised.

Variable toLowerCase : jstring → jstring.

Local Abbreviation normalised := (Accounts.normalised toLowerCase).
Local Abbreviation file_ok := (Accounts.file_ok toLowerCase).

Lemma writeUsers_alone_ok v d f :
  Forall normalised (array_or_empty v) → file_ok f → disk_leaves file_ok d →
  file_ok (writeUsers_alone v d f).2.
Proof. intros Hv Hf Hd. rewrite writeUsers_alone_spec. by destruct d. Qed.

Lemma readUsers_ok repair f :
  file_ok f → disk_leaves file_ok repair → file_ok (readUsers repair f).2.
Proof.
  intros Hf Hd. destruct (readUsers_file repair f) as [->|[-> ->]]; [done|].
  apply writeUsers_alone_ok; [constructor | done | done].
Qed.

Hypothesis lower_idem : ∀ s, toLowerCase (toLowerCase s) = toLowerCase s.
Hypothesis lower_valid :
  ∀ s, regex_test emailRegex s = true → regex_test emailRegex (toLowerCase s) = true.

Lemma newUser_normalised name email password now iso :
  regex_test emailRegex email = true →
  normalised (newUser_of toLowerCase name email password now iso).
Proof.
  intros Hre. unfold Accounts.normalised. simpl.
  rewrite (valid_email_trim _ (lower_valid _ Hre)).
  split; [apply lower_idem | by apply lower_valid].
Qed.

(** X26.  Let lower-casing be idempotent and keep an address that matches
    the email pattern matching.  If every stored
    address is lower-case and matches the pattern, it is still so after
    the register route, the login route and [updateUserWhatsAppStatus],
    whatever the request and however the disk answers (a failed write
    leaving such a file). *)
Theorem emails_stay_normalised name email password now iso userId isConnected repair save f :
  file_ok f → disk_leaves file_ok repair → disk_leaves file_ok save →
  file_ok (register toLowerCase name email password now iso repair save f).2
  ∧ file_ok (login toLowerCase email password repair f).2
  ∧ file_ok (updateUserWhatsAppStatus userId isConnected iso repair save f).
Proof.
  intros Hf Hrepair Hsave.
  pose proof (readUsers_ok repair f Hf Hrepair) as Hread.
  pose proof (readUsers_users repair f) as Hus.
  split; [|split].
  - destruct (valid_request_dec name email password) as [Hv|Hinv];
      [|by destruct (register_invalid toLowerCase now iso repair save _ _ _ f Hinv) as [msg ->]].
    rewrite (register_valid _ _ _ _ _ _ _ _ _ Hv).
    destruct (readUsers repair f) as [[[users|]|e] f1]; simpl in *; try done.
    destruct (List.find _ users); [done|].
    pose proof (writeUsers_alone_ok
      (JUsers (users ++ [newUser_of toLowerCase name email password now iso])) save f1) as Hw.
    destruct (writeUsers_alone _ save f1) as [[[]|e] f2]; simpl in *; apply Hw; try done.
    + apply Forall_app. split; [by rewrite (Hus users eq_refl)|].
      constructor; [|done]. apply newUser_normalised. by destruct Hv as (_&_&_&_&?).
    + apply Forall_app. split; [by rewrite (Hus users eq_refl)|].
      constructor; [|done]. apply newUser_normalised. by destruct Hv as (_&_&_&_&?).
  - unfold login. destruct (missing email || missing password); [done|].
    destruct (readUsers repair f) as [[[users|]|e] f1]; simpl in *; try done.
    destruct (List.find _ users); [|done]. by destruct (negb _).
  - unfold updateUserWhatsAppStatus. destruct (missing userId); [done|].
    destruct (readUsers repair f) as [[[users|]|e] f1]; simpl in *; try done.
    + destruct (findIndex _ users) as [i|]; [|done].
      apply writeUsers_alone_ok; [|done|done]. simpl.
      rewrite (Hus users eq_refl). apply Forall_lookup. intros j u' Hj.
      destruct (decide (j = i)) as [->|Hne].
      * rewrite list_lookup_alter_eq in Hj.
        destruct (stored f !! i) as [u|] eqn:Hi; [|done]. injection Hj as <-.
        eapply Forall_lookup_1 in Hf; [|exact Hi]. by destruct isConnected.
      * rewrite list_lookup_alter_ne in Hj by done. by eapply Forall_lookup_1 in Hf.
    + apply writeUsers_alone_ok; [constructor|done|done].
Qed.

End Normalised.

(** *** The sample requests *)

#[local] Ltac eval_codes :=
  repeat match goal with
         | |- context [code ?x] =>
           let v := eval vm_compute in (code x) in change (code x) with v
         end.

Lemma is_space_range c : is_space c = true → (c < 65 ∨ 122 < c)%N.
Proof.
  unfold is_space. rewrite !orb_true_iff, !andb_true_iff, !N.leb_le, !N.eqb_eq. lia.
Qed.

Lemma lowerASCII_letter c : (65 ≤ c ≤ 122)%N → not_space_or_at c = true.
Proof.
  intros Hc. unfold not_space_or_at. apply andb_true_iff. split.
  - apply negb_true_iff. destruct (is_space c) eqn:E; [|done].
    apply is_space_range in E. lia.
  - apply negb_true_iff, N.eqb_neq. eval_codes. lia.
Qed.

Lemma lowerASCII_class c : not_space_or_at (lowerASCII c) = not_space_or_at c.
Proof.
  unfold lowerASCII. eval_codes.
  destruct (N.leb_spec 65 c); simpl; [|done].
  destruct (N.leb_spec c 90); simpl; [|done].
  rewrite !lowerASCII_letter; [done | lia | lia].
Qed.

Lemma lowerASCII_idem c : lowerASCII (lowerASCII c) = lowerASCII c.
Proof.
  unfold lowerASCII. eval_codes.
  destruct (N.leb_spec 65 c); simpl; [|by rewrite (proj2 (N.leb_gt _ _)) by done].
  destruct (N.leb_spec c 90); simpl.
  - destruct (N.leb_spec (c + 32) 90); [lia|]. by rewrite andb_false_r.
  - rewrite (proj2 (N.leb_le 65 c)), (proj2 (N.leb_gt c 90)) by done. done.
Qed.

Lemma toLowerCaseASCII_idem s : toLowerCaseASCII (toLowerCaseASCII s) = toLowerCaseASCII s.
Proof.
  unfold toLowerCaseASCII. rewrite <- list_fmap_compose. apply list_fmap_ext.
  intros i c _. apply lowerASCII_idem.
Qed.

Lemma forallb_lowerASCII s :
  forallb not_space_or_at (lowerASCII <$> s) = forallb not_space_or_at s.
Proof.
  induction s as [|c s IH]; [done|].
  rewrite fmap_cons. cbn [forallb]. by rewrite lowerASCII_class, IH.
Qed.

Lemma plain_lowerASCII s : plain s → plain (toLowerCaseASCII s).
Proof.
  unfold plain, toLowerCaseASCII. intros [Hne Hs]. split.
  - by destruct s.
  - by rewrite forallb_lowerASCII.
Qed.

Lemma toLowerCaseASCII_valid s :
  regex_test emailRegex s = true → regex_test emailRegex (toLowerCaseASCII s) = true.
Proof.
  rewrite !regex_test_matches, !emailRegex_language.
  intros (loc & dom & tld & -> & Hl & Hd & Ht).
  exists (toLowerCaseASCII loc), (toLowerCaseASCII dom), (toLowerCaseASCII tld).
  split; [|auto using plain_lowerASCII].
  unfold toLowerCaseASCII. by rewrite !fmap_app.
Qed.

(** The pattern and the length test go by code units, white space
    included: an address with a no-break space is refused, and so is a
    password of three letters with an accent. *)
Example pattern_refuses_no_break_space :
  regex_test emailRegex (js "ann" ++ [0xA0%N] ++ js "@example.com") = false.
Proof. reflexivity. Qed.

Example short_password_refused toLowerCase :
  http_status (register toLowerCase (js "Ann") (js "ann@example.com") [0xE9; 0xE9; 0xE9]%N
                 1700000000000 (js "2023-11-14T22:13:20.000Z") DiskOk DiskOk NoFile).1 = 400.
Proof. reflexivity. Qed.

Lemma one_write_at_a_time_witness :
  ∃ w, writer_run queued_write (idle NoFile) = Some w
    ∧ length (inProgress w) ≤ 1
    ∧ (isWritingUsers w = true ↔ inProgress w ≠ [])
    ∧ (isWritingUsers w = false → writeQueue w = []).
Proof.
  destruct (writer_run queued_write (idle NoFile)) as [w|] eqn:Hrun; [|discriminate Hrun].
  exists w. split; [reflexivity|]. exact (one_write_at_a_time NoFile queued_write w Hrun).
Defined.

Lemma writes_settle_in_call_order_witness :
  ∃ w, writer_run queued_write (idle NoFile) = Some w
    ∧ settled_ids w ++ (op_id <$> pending_ops w) = seq 0 (length (issuedWrites w)).
Proof.
  destruct (writer_run queued_write (idle NoFile)) as [w|] eqn:Hrun; [|discriminate Hrun].
  exists w. split; [reflexivity|].
  exact (proj1 (writes_settle_in_call_order NoFile queued_write w Hrun)).
Defined.

Lemma last_write_wins_witness :
  ∃ w, writer_run two_writes (idle NoFile) = Some w
    ∧ usersFile w = Holds (JUsers [ann; bob]).
Proof.
  destruct (writer_run two_writes (idle NoFile)) as [w|] eqn:Hrun; [|discriminate Hrun].
  exists w. split; [reflexivity|].
  apply (last_write_wins NoFile two_writes w [JUsers [ann]] (JUsers [ann; bob]) 1 Hrun);
    vm_compute in Hrun; injection Hrun as <-; reflexivity.
Defined.

Lemma register_stores_new_user_witness :
  valid_request (js "Ann") (js "Ann@Example.com") (js "secret1")
  ∧ (register toLowerCaseASCII (js "Ann") (js "Ann@Example.com") (js "secret1")
       1700000000000 (js "2023-11-14T22:13:20.000Z") DiskOk DiskOk NoFile).2
    = Holds (JUsers [mkUser (js "1700000000000") (js "Ann") (js "ann@example.com")
                       (js "secret1") (js "2023-11-14T22:13:20.000Z") None None None]).
Proof.
  destruct (register_stores_new_user toLowerCaseASCII 1700000000000
              (js "2023-11-14T22:13:20.000Z") DiskOk DiskOk
              (js "Ann") (js "Ann@Example.com") (js "secret1") NoFile _ _
              (surjective_pairing _))
    as (Hv & _ & _ & Hf & _).
  - reflexivity.
  - exact (conj Hv Hf).
Defined.

Lemma register_then_login_witness :
  login toLowerCaseASCII (js " CLEO@example.com ") (js "opensesame") DiskOk
    (register toLowerCaseASCII (js "Cleo") (js "Cleo@Example.com") (js "opensesame")
       1700000001000 (js "2023-11-14T22:13:21.000Z") DiskOk DiskOk two_users).2
  = (mkResponse 200 true "Login successful"
       (resp_user (register toLowerCaseASCII (js "Cleo") (js "Cleo@Example.com")
                     (js "opensesame") 1700000001000 (js "2023-11-14T22:13:21.000Z")
                     DiskOk DiskOk two_users).1),
     (register toLowerCaseASCII (js "Cleo") (js "Cleo@Example.com") (js "opensesame")
        1700000001000 (js "2023-11-14T22:13:21.000Z") DiskOk DiskOk two_users).2).
Proof.
  apply (register_then_login toLowerCaseASCII 1700000001000 (js "2023-11-14T22:13:21.000Z")
           DiskOk DiskOk (js "Cleo") (js "Cleo@Example.com") (js "opensesame") two_users
           _ _ (js " CLEO@example.com ") DiskOk (surjective_pairing _)).
  - reflexivity.
  - simpl. repeat (constructor; [intros H; vm_compute in H; discriminate H|]). constructor.
  - discriminate.
  - reflexivity.
Defined.

Lemma login_first_match_witness :
  (login toLowerCaseASCII (js "Bob@Example.com") (js "hunter22") DiskOk two_users).2
  = two_users
  ∧ ∃ users i user, two_users = Holds (JUsers users)
      ∧ users !! i = Some user ∧ user_email user = js "bob@example.com"
      ∧ user_password user = js "hunter22".
Proof.
  destruct (login_first_match toLowerCaseASCII DiskOk (js "Bob@Example.com") (js "hunter22")
              two_users _ _ (surjective_pairing _)) as (H200 & _ & Hfile).
  split; [apply Hfile; discriminate|].
  destruct (H200 eq_refl) as (users & i & user & Hf & _ & Hi & He & _ & Hp & _).
  exists users, i, user. exact (conj Hf (conj Hi (conj He Hp))).
Defined.

Lemma register_twice_same_email_witness :
  register toLowerCaseASCII (js "Ann B") (js "ann@example.com") (js "another1")
    1700000002000 (js "2023-11-14T22:13:22.000Z") DiskOk DiskOk
    (register toLowerCaseASCII (js "Ann") (js "ann@example.com") (js "secret1")
       1700000000000 (js "2023-11-14T22:13:20.000Z") DiskOk DiskOk NoFile).2
  = (refuse 409 "User with this email already exists",
     (register toLowerCaseASCII (js "Ann") (js "ann@example.com") (js "secret1")
        1700000000000 (js "2023-11-14T22:13:20.000Z") DiskOk DiskOk NoFile).2).
Proof.
  apply (register_twice_same_email toLowerCaseASCII 1700000000000
           (js "2023-11-14T22:13:20.000Z") DiskOk DiskOk
           (js "Ann") (js "ann@example.com") (js "secret1") NoFile _ _
           (js "Ann B") (js "another1")
           1700000002000 (js "2023-11-14T22:13:22.000Z") DiskOk DiskOk (surjective_pairing _)).
  - reflexivity.
  - reflexivity.
  - discriminate.
  - simpl. lia.
Defined.

Lemma duplicate_check_is_case_sensitive_witness :
  http_status
    (register toLowerCaseASCII (js "Ann B") (js "Ann@Example.com") (js "another1")
       1700000002000 (js "2023-11-14T22:13:22.000Z") DiskOk DiskOk two_users).1 ≠ 409.
Proof.
  apply (duplicate_check_is_case_sensitive toLowerCaseASCII 1700000002000
           (js "2023-11-14T22:13:22.000Z") DiskOk DiskOk
           (js "Ann B") (js "Ann@Example.com") (js "another1") two_users).
  - simpl. repeat (constructor; [reflexivity|]). constructor.
  - intros H. vm_compute in H. discriminate H.
Defined.

Lemma status_update_touches_one_user_witness :
  ∃ users',
    updateUserWhatsAppStatus (js "1700000000000") true (js "2023-11-16T09:00:00.000Z")
      DiskOk DiskOk two_users = Holds (JUsers users')
    ∧ length users' = 2.
Proof.
  destruct (status_update_touches_one_user (js "2023-11-16T09:00:00.000Z") DiskOk DiskOk
              (js "1700000000000") true [ann; bob] eq_refl) as (users' & Hf & Hlen & _).
  exists users'. exact (conj Hf Hlen).
Defined.

Lemma emails_stay_normalised_witness :
  file_ok toLowerCaseASCII
    (register toLowerCaseASCII (js "Cleo") (js "Cleo@Example.com") (js "opensesame")
       1700000001000 (js "2023-11-14T22:13:21.000Z") DiskOk (DiskMkdirFails "EACCES")
       two_users).2
  ∧ file_ok toLowerCaseASCII
      (updateUserWhatsAppStatus (js "1700000000500") false (js "2023-11-16T09:00:00.000Z")
         DiskOk (DiskMkdirFails "EACCES") two_users).
Proof.
  destruct (emails_stay_normalised toLowerCaseASCII toLowerCaseASCII_idem
              toLowerCaseASCII_valid (js "Cleo") (js "Cleo@Example.com") (js "opensesame")
              1700000001000 (js "2023-11-14T22:13:21.000Z") (js "1700000000500") false DiskOk
              (DiskMkdirFails "EACCES") two_users) as (Hr & _ & Hu).
  - unfold file_ok. simpl. repeat (constructor; [split; reflexivity|]). constructor.
  - exact I.
  - exact I.
  - exact (conj Hr Hu).
Defined.
